(** * voxran: a shallow embedding of [ran.py]

    [ran.py] reads a VOX chart, builds its timestamp grid, classifies the
    notes of the six playable tracks, and writes one reconstructed chart
    for every ordering of the button lanes and of the effect lanes.

    Python integers are modelled as [Z], text as [string] (a sequence of
    code points below 256, as text mode delivers it: line ends already
    translated to LF), a [dict] with string keys as [gmap string _], and
    an exception as the [Raise] constructor of [outcome]. *)

From Stdlib Require Import ZArith Ascii String List Lia Permutation Sorted Bool.
From stdpp Require Import gmap strings list fin_maps.

Local Open Scope string_scope.
Local Open Scope list_scope.
Local Open Scope Z_scope.

(** ** The Python built-ins that [ran.py] calls *)

Inductive exn : Set := IndexError | KeyError | ValueError.

Inductive outcome (A : Type) : Type :=
| Ok (a : A)
| Raise (e : exn).
Arguments Ok {A} a.
Arguments Raise {A} e.

#[export] Instance outcome_ret : MRet outcome := fun A a => Ok a.
#[export] Instance outcome_bind : MBind outcome := fun A B f x =>
  match x with
  | Ok a => f a
  | Raise e => Raise e
  end.

Definition of_option {A} (e : exn) (o : option A) : outcome A :=
  match o with
  | Some a => Ok a
  | None => Raise e
  end.

(** [s.startswith(p)] *)
Fixpoint startswith (s p : string) : bool :=
  match p with
  | EmptyString => true
  | String c p' =>
    match s with
    | EmptyString => false
    | String d s' => if Ascii.eqb c d then startswith s' p' else false
    end
  end.

(** [c.isspace()] on the code points below 256: TAB, LF, VT, FF, CR, the
    four separators FS, GS, RS, US, the space, NEL and the no-break space. *)
Definition is_space (c : ascii) : bool :=
  let n := N_of_ascii c in
  ((9 <=? n) && (n <=? 13) || (28 <=? n) && (n <=? 32) || (n =? 133) || (n =? 160))%N.

Fixpoint lstrip (s : string) : string :=
  match s with
  | EmptyString => EmptyString
  | String c r => if is_space c then lstrip r else s
  end.

Fixpoint rstrip (s : string) : string :=
  match s with
  | EmptyString => EmptyString
  | String c r =>
    match rstrip r with
    | EmptyString => if is_space c then EmptyString else String c EmptyString
    | r' => String c r'
    end
  end.

(** [s.strip()] *)
Definition strip (s : string) : string := lstrip (rstrip s).

(** [s.split(sep)] for a one-character separator: never empty. *)
Fixpoint split (sep : ascii) (s : string) : list string :=
  match s with
  | EmptyString => [EmptyString]
  | String c r =>
    if Ascii.eqb c sep then EmptyString :: split sep r
    else match split sep r with
         | [] => [String c EmptyString]
         | f :: fs => String c f :: fs
         end
  end.

Definition tab : ascii := ascii_of_nat 9.
Definition newline : ascii := ascii_of_nat 10.
Definition comma : ascii := ascii_of_nat 44.
Definition nl : string := String newline EmptyString.

(** [''.join(parts)] *)
Definition join (parts : list string) : string :=
  fold_right String.append EmptyString parts.

(** Iterating over a text file, and [file.readlines()]: every line keeps
    its terminating newline; the last line has none when the text does not
    end in one. *)
Fixpoint readlines (text : string) : list string :=
  match text with
  | EmptyString => []
  | String c r =>
    if Ascii.eqb c newline then nl :: readlines r
    else match readlines r with
         | [] => [String c EmptyString]
         | l :: ls => String c l :: ls
         end
  end.

(** [int(s)]: surrounding whitespace is dropped, one sign is allowed, and
    the digits may be grouped by single underscores. The whitespace of
    [int] is narrower than that of [strip]: TAB, LF, VT, FF, CR and the
    space, and NEL and the no-break space, which are read as spaces; the
    separators FS, GS, RS, US are no whitespace here. A numeral of more
    than 4300 digits is refused (the default limit of CPython 3.11 and
    later; sign and underscores are not counted). *)
Definition is_int_space (c : ascii) : bool :=
  let n := N_of_ascii c in
  ((9 <=? n) && (n <=? 13) || (n =? 32) || (n =? 133) || (n =? 160))%N.

Fixpoint lstrip_by (space : ascii -> bool) (s : string) : string :=
  match s with
  | EmptyString => EmptyString
  | String c r => if space c then lstrip_by space r else s
  end.

Fixpoint rstrip_by (space : ascii -> bool) (s : string) : string :=
  match s with
  | EmptyString => EmptyString
  | String c r =>
    match rstrip_by space r with
    | EmptyString => if space c then EmptyString else String c EmptyString
    | r' => String c r'
    end
  end.

Definition digit_val (c : ascii) : option Z :=
  let n := Z.of_N (N_of_ascii c) in
  if (48 <=? n) && (n <=? 57) then Some (n - 48) else None.

Definition max_str_digits : Z := 4300.

Fixpoint digit_count (s : string) : Z :=
  match s with
  | EmptyString => 0
  | String c r => (if digit_val c is Some _ then 1 else 0) + digit_count r
  end.

Fixpoint int_digits (s : string) (acc : Z) (after_digit : bool) : option Z :=
  match s with
  | EmptyString => if after_digit then Some acc else None
  | String c r =>
    if Ascii.eqb c "_"%char then
      if after_digit then int_digits r acc false else None
    else match digit_val c with
         | Some d => int_digits r (10 * acc + d) true
         | None => None
         end
  end.

Definition py_int (s : string) : outcome Z :=
  let t := lstrip_by is_int_space (rstrip_by is_int_space s) in
  if max_str_digits <? digit_count t then Raise ValueError
  else of_option ValueError
         match t with
         | String "+"%char r => int_digits r 0 false
         | String "-"%char r => Z.opp <$> int_digits r 0 false
         | t => int_digits t 0 false
         end.

(** [f"{n:0w}"]: decimal digits, zero-padded to width [w], the sign first. *)
Definition digit_char (d : Z) : ascii := ascii_of_N (48 + Z.to_N d).

Fixpoint dec_go (fuel : nat) (n : Z) (acc : string) : string :=
  match fuel with
  | O => acc
  | S f =>
    let acc' := String (digit_char (n mod 10)) acc in
    if n / 10 =? 0 then acc' else dec_go f (n / 10) acc'
  end.

Definition dec (n : Z) : string := dec_go (S (Z.to_nat (Z.log2 n))) n EmptyString.

Fixpoint zeros (k : nat) : string :=
  match k with
  | O => EmptyString
  | S k' => String "0"%char (zeros k')
  end.

Definition zfill (w : nat) (s : string) : string :=
  zeros (w - String.length s) +:+ s.

Definition format0 (w : nat) (n : Z) : string :=
  if n <? 0 then String "-"%char (zfill (w - 1) (dec (- n))) else zfill w (dec n).

(** Tuples of three integers and their comparison. *)
Abbreviation triple := (Z * Z * Z)%type.

Definition triple_compare (p q : triple) : comparison :=
  let '(m1, b1, t1) := p in
  let '(m2, b2, t2) := q in
  match m1 ?= m2 with
  | Eq => match b1 ?= b2 with
          | Eq => t1 ?= t2
          | c => c
          end
  | c => c
  end.

Definition triple_gt (p q : triple) : bool :=
  match triple_compare p q with Gt => true | _ => false end.

(** [sorted(items)] on (key, count) pairs: a stable insertion sort under
    the tuple order, strings first. *)
Definition item_le (x y : string * Z) : bool :=
  match String.compare x.1 y.1 with
  | Lt => true
  | Eq => x.2 <=? y.2
  | Gt => false
  end.

Fixpoint insert_sorted (x : string * Z) (l : list (string * Z)) : list (string * Z) :=
  match l with
  | [] => [x]
  | y :: r => if item_le y x then y :: insert_sorted x r else x :: l
  end.

Definition sorted (l : list (string * Z)) : list (string * Z) :=
  fold_left (fun acc x => insert_sorted x acc) l [].

(** [itertools.permutations(elements)]: all orderings, in lexicographic
    order of the positions of the input. *)
Fixpoint selects {A} (l : list A) : list (A * list A) :=
  match l with
  | [] => []
  | x :: r => (x, r) :: map (fun '(y, r') => (y, x :: r')) (selects r)
  end.

Fixpoint permutations_n {A} (n : nat) (l : list A) : list (list A) :=
  match n with
  | O => [[]]
  | S n' => flat_map (fun '(x, r) => map (cons x) (permutations_n n' r)) (selects l)
  end.

Definition permutations {A} (l : list A) : list (list A) :=
  permutations_n (length l) l.


(** ** [ran.py]: notes and their density *)

Abbreviation track_map := (gmap string (list string)).

Inductive note_type : Set := chip | hold.

(** The dict [{'timestamp': ..., 'type': ...}] of one note. *)
Record note : Set := Note { timestamp : string; type : note_type }.

Definition non_playable (track : string) : bool :=
  bool_decide (track ∈ ["TRACK1"; "TRACK8"]).

(** The body of the loop over [notes]: the events appended for one line.
    The target [timestamp, note_type, _] takes exactly three values. *)
Definition parse_note_line (note_line : string) : outcome (list note) :=
  let note_info := split tab note_line in
  if (3 <=? length note_info)%nat then
    match note_info with
    | [timestamp; note_type; _] =>
      Ok [Note timestamp (if String.eqb note_type "0" then chip else hold)]
    | _ => Raise ValueError
    end
  else Ok [].

Fixpoint parse_note_lines (notes : list string) : outcome (list note) :=
  match notes with
  | [] => Ok []
  | note_line :: rest =>
    evs ← parse_note_line note_line;
    more ← parse_note_lines rest;
    Ok (evs ++ more)
  end.

(** The tracks are visited one after the other; every track has a list of
    its own, so the order of the visit does not show in the result. *)
Definition parse_notes_in_tracks (track_data : track_map)
  : outcome (gmap string (list note)) :=
  map_fold (fun track notes acc =>
              structured_notes ← acc;
              if non_playable track then Ok structured_notes
              else evs ← parse_note_lines notes;
                   Ok (<[track := evs]> structured_notes))
           (Ok ∅) track_data.

Definition relevant_tracks : list string :=
  (fun i => "TRACK" +:+ dec i) <$> seqZ 2 6.

(** A counter dict in insertion order: [d[k] += 1], or [d[k] = 1] for a
    new key. *)
Fixpoint bump (k : string) (d : list (string * Z)) : list (string * Z) :=
  match d with
  | [] => [(k, 1)]
  | (k', n) :: r => if String.eqb k' k then (k', n + 1) :: r else (k', n) :: bump k r
  end.

Definition count_notes (kind : note_type) (notes : list note)
    (d : list (string * Z)) : list (string * Z) :=
  fold_left (fun d n =>
               match type n, kind with
               | chip, chip | hold, hold => bump (timestamp n) d
               | _, _ => d
               end) notes d.

Fixpoint count_tracks (kind : note_type) (structured_notes : gmap string (list note))
    (tracks : list string) (d : list (string * Z)) : outcome (list (string * Z)) :=
  match tracks with
  | [] => Ok d
  | track :: rest =>
    notes ← of_option KeyError (structured_notes !! track);
    count_tracks kind structured_notes rest (count_notes kind notes d)
  end.

Definition identify_chip_timestamps (structured_notes : gmap string (list note))
  : outcome (list (string * Z)) :=
  chip_timestamps ← count_tracks chip structured_notes relevant_tracks [];
  Ok (sorted chip_timestamps).

Definition identify_hold_timestamps (structured_notes : gmap string (list note))
  : outcome (list (string * Z)) :=
  hold_timestamps ← count_tracks hold structured_notes relevant_tracks [];
  Ok (sorted hold_timestamps).

(** ** [ran.py]: the beat grid *)

Record beat_entry : Set := BeatEntry {
  measure : Z; beat : Z; tick : Z; beats_per_measure : Z; ticks_per_beat : Z }.

(** [a, b, c = map(int, fields)] *)
Definition unpack_ints3 (fields : list string) : outcome triple :=
  match fields with
  | [a; b; c] =>
    x ← py_int a; y ← py_int b; z ← py_int c; Ok (x, y, z)
  | _ => Raise ValueError
  end.

Fixpoint parse_beat_info_loop (in_beat_info : bool) (lines : list string)
  : outcome (list beat_entry) :=
  match lines with
  | [] => Ok []
  | raw :: rest =>
    let line := strip raw in
    if startswith line "#BEAT INFO" then parse_beat_info_loop true rest
    else if startswith line "#END" && in_beat_info then parse_beat_info_loop false rest
    else if in_beat_info then
      match split tab line with
      | measure_info :: beats :: ticks :: _ =>
        '(m, b, t) ← unpack_ints3 (split comma measure_info);
        bpm ← py_int beats;
        tpb ← py_int ticks;
        more ← parse_beat_info_loop in_beat_info rest;
        Ok (BeatEntry m b t bpm tpb :: more)
      | _ => parse_beat_info_loop in_beat_info rest
      end
    else parse_beat_info_loop in_beat_info rest
  end.

Definition parse_beat_info (lines : list string) : outcome (list beat_entry) :=
  parse_beat_info_loop false lines.

(** [get_end_position] on the lines of the file: [Ok None] is the
    function's [return None]. *)
Fixpoint get_end_position (lines : list string) : outcome (option triple) :=
  match lines with
  | [] => Ok None
  | raw :: rest =>
    if startswith (strip raw) "#END POSITION" then
      match rest with
      | [] => Ok None
      | next_raw :: _ =>
        let next_line := strip next_raw in
        if startswith next_line "#END" then get_end_position rest
        else p ← unpack_ints3 (take 3 (split comma next_line)); Ok (Some p)
      end
    else get_end_position rest
  end.

Definition fmt (p : triple) : string :=
  let '(m, b, t) := p in
  format0 3 m +:+ "," +:+ format0 2 b +:+ "," +:+ format0 2 t.

(** The [while] loop that moves [current_beat_info_index]; [segs] is
    [beat_info[current_beat_info_index:]]. *)
Fixpoint advance (m : Z) (segs : list beat_entry) : list beat_entry :=
  match segs with
  | _ :: ((next :: _) as rest) =>
    if measure next <=? m then advance m rest else segs
  | _ => segs
  end.

(** The loops return the timestamps they append and whether the
    [return] inside them was taken. *)
Fixpoint ticks_loop (m b : Z) (end_position : triple) (ticks : list Z)
  : list string * bool :=
  match ticks with
  | [] => ([], false)
  | t :: rest =>
    if triple_gt (m, b, t) end_position then ([], true)
    else let '(ts, returned) := ticks_loop m b end_position rest in
         (fmt (m, b, t) :: ts, returned)
  end.

Fixpoint beats_loop (m : Z) (end_position : triple) (beats : list Z)
  : list string * bool :=
  match beats with
  | [] => ([], false)
  | b :: rest =>
    let '(ts, returned) := ticks_loop m b end_position (seqZ 0 48) in
    if returned then (ts, true)
    else let '(ts', returned') := beats_loop m end_position rest in
         (ts ++ ts', returned')
  end.

Fixpoint measures_loop (segs : list beat_entry) (end_position : triple)
    (measures : list Z) : outcome (list string) :=
  match measures with
  | [] => Ok []
  | m :: rest =>
    match advance m segs with
    | [] => Raise IndexError
    | (cur :: _) as segs' =>
      let '(ts, returned) :=
        beats_loop m end_position (seqZ 1 (beats_per_measure cur)) in
      if returned then Ok ts
      else more ← measures_loop segs' end_position rest; Ok (ts ++ more)
    end
  end.

Definition generate_timestamps (beat_info : list beat_entry) (end_position : triple)
  : outcome (list string) :=
  measures_loop beat_info end_position (seqZ 1 end_position.1.1).

(** ** [ran.py]: the chart document and its writer *)

(** [line.startswith("#TRACK") and line[6] in "12345678"]: indexing a
    line of six characters raises. *)
Definition is_track_header (line : string) : outcome bool :=
  if startswith line "#TRACK" then
    match String.get 6 line with
    | Some c => Ok (bool_decide (c ∈ list_ascii_of_string "12345678"))
    | None => Raise IndexError
    end
  else Ok false.

(** [line[1:]] *)
Definition after_first (line : string) : string :=
  match line with
  | EmptyString => EmptyString
  | String _ r => r
  end.

Definition empty_tracks : track_map :=
  list_to_map ((fun num => ("TRACK" +:+ dec num, [])) <$> seqZ 1 8).

(** The loop of [parse_file]. [current_track] is [None] or the key of a
    header line, which is never the empty string, so [elif current_track]
    tests for [Some]. *)
Fixpoint parse_file_loop (tracks : track_map) (current_track : option string)
    (lines : list string) : outcome track_map :=
  match lines with
  | [] => Ok tracks
  | raw :: rest =>
    let line := strip raw in
    match is_track_header line with
    | Raise e => Raise e
    | Ok true => parse_file_loop tracks (Some (after_first line)) rest
    | Ok false =>
      if startswith line "#END" then parse_file_loop tracks None rest
      else match current_track with
           | Some track =>
             buffer ← of_option KeyError (tracks !! track);
             parse_file_loop (<[track := buffer ++ [line]]> tracks) current_track rest
           | None => parse_file_loop tracks current_track rest
           end
    end
  end.

(** [parse_file]: [Ok None] is the [return None] of a missing file. *)
Definition parse_file (file : option string) : outcome (option track_map) :=
  match file with
  | None => Ok None
  | Some text => tracks ← parse_file_loop empty_tracks None (readlines text); Ok (Some tracks)
  end.

(** What a loop has written so far, and the exception that ended it. *)
Definition written : Type := list string * option exn.

Definition emit (ls : list string) (w : written) : written := (ls ++ w.1, w.2).

Fixpoint write_loop (track_data : track_map) (in_track_section : bool)
    (full_content : list string) : written :=
  match full_content with
  | [] => ([], None)
  | line :: rest =>
    match is_track_header line with
    | Raise e => ([], Some e)
    | Ok true =>
      match track_data !! after_first line with
      | None => ([line], Some KeyError)
      | Some track_lines => emit (line :: track_lines) (write_loop track_data true rest)
      end
    | Ok false =>
      if startswith line "#END" && in_track_section
      then emit [line] (write_loop track_data false rest)
      else if negb in_track_section
      then emit [line] (write_loop track_data in_track_section rest)
      else write_loop track_data in_track_section rest
    end
  end.

(** The text of a file whose lines were each written with ['\n']. *)
Definition file_text (ls : list string) : string := join ((fun l => l +:+ nl) <$> ls).

(** [write_to_file]: the text of the file at [new_file_path] when the
    function ends, and the exception if it ends by one. *)
Definition write_to_file (track_data : track_map) (full_content : list string)
  : string * option exn :=
  let w := write_loop track_data false full_content in (file_text w.1, w.2).

(** ** [ran.py]: lane orders *)

Definition generate_all_combinations (elements : list string) : list (list string) :=
  permutations elements.

(** [target[new_key] = source[original_key]] for every pair, in order. *)
Fixpoint fill (source target : track_map) (pairs : list (string * string))
  : outcome track_map :=
  match pairs with
  | [] => Ok target
  | (original_key, new_key) :: rest =>
    buffer ← of_option KeyError (source !! original_key);
    fill source (<[new_key := buffer]> target) rest
  end.

(** [randomize_tracks], with the two draws of the generator as arguments:
    [shuffled] is [tracks_to_randomize] after [random.shuffle], [swap] the
    value of [random.choice([True, False])]. *)
Definition randomize_tracks (shuffled : list string) (swap : bool)
    (track_data : track_map) : outcome (track_map * list string) :=
  let tracks_to_randomize := ["TRACK3"; "TRACK4"; "TRACK5"; "TRACK6"] in
  let kept := tracks_to_randomize ++ ["TRACK2"; "TRACK7"] in
  original_tracks ← fill track_data ∅ (zip kept kept);
  track_data ←
    fill original_tracks track_data
         (imap (fun i shuffled_track =>
                  ("TRACK" +:+ dec (Z.of_nat i + 3), shuffled_track)) shuffled);
  track_data ←
    (if swap then fill track_data track_data [("TRACK7", "TRACK2"); ("TRACK2", "TRACK7")]
     else Ok track_data);
  Ok (track_data,
      shuffled ++ (if swap then ["TRACK7"; "TRACK2"] else ["TRACK2"; "TRACK7"])).

Definition track_identifiers_inverse (item : string) : outcome string :=
  of_option KeyError
    (({[ "a" := "TRACK3"; "b" := "TRACK4"; "c" := "TRACK5"; "d" := "TRACK6";
         "L" := "TRACK2"; "R" := "TRACK7" ]} : gmap string string) !! item).

Fixpoint lookup_all (items : list string) : outcome (list string) :=
  match items with
  | [] => Ok []
  | item :: rest =>
    t ← track_identifiers_inverse item; ts ← lookup_all rest; Ok (t :: ts)
  end.

Definition original_keys : list string := ["TRACK1"; "TRACK8"].

Definition new_keys : list string :=
  original_keys ++ ["TRACK3"; "TRACK4"; "TRACK5"; "TRACK6"; "TRACK2"; "TRACK7"].

(** [new_track_data], filled by the loop over [zip(...)]. *)
Definition build_new_track_data (track_data : track_map) (specific_order : list string)
  : outcome track_map :=
  specific_track_order ← lookup_all specific_order;
  fill track_data ∅ (zip (original_keys ++ specific_track_order) new_keys).

(** The orders in which the two nested loops of [main] visit them. *)
Definition specific_orders : list (list string) :=
  let all_button_combinations := generate_all_combinations ["a"; "b"; "c"; "d"] in
  let all_fx_combinations := generate_all_combinations ["L"; "R"] in
  flat_map (fun button_combination =>
              (fun fx_combination => button_combination ++ fx_combination)
                <$> all_fx_combinations)
           all_button_combinations.

(** ** [ran.py]: [main] *)

Inductive ending : Set :=
| Finished
| FileNotFound
| NoEndPosition
| Crashed (e : exn).

(** A run of [main]: the files it leaves behind, by name, and how it ends. *)
Record run : Type := Run { files : list (string * string); how : ending }.

Definition new_file_name (base_file_name : string) (specific_order : list string) : string :=
  base_file_name +:+ "_ran_" +:+ join specific_order +:+ ".vox".

Fixpoint write_variants (base_file_name : string) (track_data : track_map)
    (full_content : list string) (orders : list (list string)) : run :=
  match orders with
  | [] => Run [] Finished
  | specific_order :: rest =>
    match build_new_track_data track_data specific_order with
    | Raise e => Run [] (Crashed e)
    | Ok new_track_data =>
      let name := new_file_name base_file_name specific_order in
      match write_to_file new_track_data full_content with
      | (text, Some e) => Run [(name, text)] (Crashed e)
      | (text, None) =>
        let r := write_variants base_file_name track_data full_content rest in
        Run ((name, text) :: files r) (how r)
      end
    end
  end.

(** Everything [main] computes before it writes: [Ok None] when the end
    position is [None]. *)
Definition analyse (text : string) : outcome (option track_map) :=
  let lines := readlines text in
  beat_info ← parse_beat_info lines;
  end_position ← get_end_position lines;
  match end_position with
  | None => Ok None
  | Some end_position =>
    timestamps ← generate_timestamps beat_info end_position;
    track_data ← parse_file_loop empty_tracks None lines;
    structured_notes ← parse_notes_in_tracks track_data;
    sorted_chip_timestamps ← identify_chip_timestamps structured_notes;
    sorted_hold_timestamps ← identify_hold_timestamps structured_notes;
    Ok (Some track_data)
  end.

(** [main]: [s_random] is the flag [-s], [file] the text at [file_path] if
    the path exists, [base_file_name] the name of the file without
    directory and extension. *)
Definition main (s_random : bool) (base_file_name : string) (file : option string) : run :=
  match file with
  | None => Run [] FileNotFound
  | Some text =>
    let full_content := strip <$> readlines text in
    match analyse text with
    | Raise e => Run [] (Crashed e)
    | Ok None => Run [] NoEndPosition
    | Ok (Some track_data) =>
      if bool_decide (track_data = ∅) then Run [] Finished
      else write_variants base_file_name track_data full_content specific_orders
    end
  end.

(** ** Notions used to state the properties *)

(** The strings that [f"{n:03}"] and [f"{n:02}"] give within their width. *)
Definition digits3 (n : Z) : string :=
  String (digit_char (n / 100)) (String (digit_char (n / 10 mod 10))
    (String (digit_char (n mod 10)) EmptyString)).

Definition digits2 (n : Z) : string :=
  String (digit_char (n / 10)) (String (digit_char (n mod 10)) EmptyString).

(** A position whose three numbers fit the widths 3, 2 and 2. *)
Definition in_width (p : triple) : Prop :=
  0 <= p.1.1 <= 999 /\ 0 <= p.1.2 <= 99 /\ 0 <= p.2 <= 99.

(** An aggregation item whose key is the canonical string of a position. *)
Definition keyed (pc : triple * Z) : string * Z := (fmt pc.1, pc.2).

Definition position_le (x y : triple * Z) : Prop := triple_compare x.1 y.1 <> Gt.

(** The logical lanes, and the eight keys of a track mapping. *)
Definition buttons : list string := ["a"; "b"; "c"; "d"].
Definition effects : list string := ["L"; "R"].

Definition track_keys : list string := (fun num => "TRACK" +:+ dec num) <$> seqZ 1 8.

(** The physical tracks of the button lanes and of the effect lanes, in
    the order in which [main] fills them. *)
Definition button_tracks : list string := ["TRACK3"; "TRACK4"; "TRACK5"; "TRACK6"].
Definition effect_tracks : list string := ["TRACK2"; "TRACK7"].

(** [new_track_data] holds under the keys [targets] the buffers that
    [track_data] holds under [sources]. *)
Definition receives (new_track_data track_data : track_map)
    (targets sources : list string) : Prop :=
  Forall2 (fun target source => new_track_data !! target = track_data !! source)
          targets sources.

#[export] Instance exn_eq_dec : EqDecision exn.
Proof. solve_decision. Defined.

#[export] Instance outcome_eq_dec {A} `{EqDecision A} : EqDecision (outcome A).
Proof. solve_decision. Defined.

Definition has_tracks (tracks : track_map) : Prop :=
  forall k, k ∈ track_keys -> is_Some (tracks !! k).

(** A small chart: one beat-info segment, the end position, and four
    of the eight track sections. *)
Definition sample_chart : string :=
  let T := String tab EmptyString in
  join ((fun l => l +:+ nl) <$>
    [ "#BEAT INFO"; "001,01,00" +:+ T +:+ "4" +:+ T +:+ "48"; "#END";
      "#END POSITION"; "001,01,05"; "#END";
      "#TRACK1"; "001,01,00" +:+ T +:+ "64" +:+ T +:+ "1" +:+ T +:+ "0"; "#END";
      "#TRACK2"; "001,01,00" +:+ T +:+ "0" +:+ T +:+ "2"; "#END";
      "#TRACK3"; "001,01,00" +:+ T +:+ "0" +:+ T +:+ "2";
                 "001,01,03" +:+ T +:+ "5" +:+ T +:+ "2"; "#END";
      "#TRACK8"; "001,01,00" +:+ T +:+ "64" +:+ T +:+ "1" +:+ T +:+ "0"; "#END" ]).

(** The physical tracks in the order in which [main] fills them. *)
Definition physical : list string :=
  ["TRACK3"; "TRACK4"; "TRACK5"; "TRACK6"; "TRACK2"; "TRACK7"].

(** The track mapping that [parse_file] gives for a chart whose six
    playable sections hold one distinct line each. *)
Definition sample_tracks : track_map :=
  list_to_map [("TRACK1", ["v1"]); ("TRACK2", ["l"]); ("TRACK3", ["a"]); ("TRACK4", ["b"]);
               ("TRACK5", ["c"]); ("TRACK6", ["d"]); ("TRACK7", ["r"]); ("TRACK8", ["v8"])].

(** A note line with a fourth tab-separated field, and [sample_chart]
    with that line as the only content of TRACK4. *)
Definition four_field_line : string :=
  let T := String tab EmptyString in
  "001,01,00" +:+ T +:+ "0" +:+ T +:+ "2" +:+ T +:+ "5".

Definition four_field_chart : string :=
  sample_chart +:+ "#TRACK4" +:+ nl +:+ four_field_line +:+ nl +:+ "#END" +:+ nl.

(** The eight well-formed section headers, and the condition on a line
    that starts with ["#TRACK"]: at least seven characters with the
    seventh outside ['1'..'8'], or exactly one of the eight headers. *)
Definition track_headers : list string := (fun num => "#TRACK" +:+ dec num) <$> seqZ 1 8.

Definition track_line_ok (line : string) : Prop :=
  startswith line "#TRACK" = true ->
  ((7 <= String.length line)%nat
   /\ forall c, String.get 6 line = Some c -> c ∉ list_ascii_of_string "12345678")
  \/ line ∈ track_headers.

(** A line that is no section header and whose test does not raise. *)
Definition ordinary (line : string) : Prop := is_track_header line = Ok false.

(** Lines that [get_end_position] tells apart. *)
Definition is_marker (raw : string) : bool := startswith (strip raw) "#END POSITION".
Definition is_END (raw : string) : bool := startswith (strip raw) "#END".

(** The conversion of the line after a marker. *)
Definition parse_position (raw : string) : outcome (option triple) :=
  p ← unpack_ints3 (take 3 (split comma (strip raw))); Ok (Some p).

(** Every marker among [lines] is followed by a line that starts with
    ["#END"]; [next] is the line after the last of [lines]. *)
Fixpoint passed (lines : list string) (next : string) : Prop :=
  match lines with
  | [] => True
  | raw :: rest => (is_marker raw = true -> is_END (hd next rest) = true) /\ passed rest next
  end.

(** The extraction as the specification words it: after the first marker, the
    first following line that does not start with ["#END"] is parsed; no
    marker, no such line or no three integers give [None]. *)
Fixpoint specified_end_position (lines : list string) : option triple :=
  match lines with
  | [] => None
  | raw :: rest =>
    if is_marker raw then
      match find (fun l => negb (is_END l)) rest with
      | Some l => match parse_position l with Ok p => p | Raise _ => None end
      | None => None
      end
    else specified_end_position rest
  end.

(** The grid as the specification describes it: for every measure from
    1 to the last, the beats 1 to [beatsPerMeasure] of the segment active
    at that measure, and for every beat the ticks 0 to 47; [up_to] cuts a
    list at its first position beyond the end position. *)
Definition beats_at (beat_info : list beat_entry) (m : Z) : Z :=
  match advance m beat_info with
  | cur :: _ => beats_per_measure cur
  | [] => 0
  end.

Definition grid_beats (m : Z) (beats : list Z) : list triple :=
  b ← beats; (fun t => (m, b, t)) <$> seqZ 0 48.

Definition grid (beat_info : list beat_entry) (last_measure : Z) : list triple :=
  m ← seqZ 1 last_measure; grid_beats m (seqZ 1 (beats_at beat_info m)).

Definition within (end_position p : triple) : bool := negb (triple_gt p end_position).

Fixpoint up_to (end_position : triple) (ps : list triple) : list triple :=
  match ps with
  | [] => []
  | p :: rest => if within end_position p then p :: up_to end_position rest else []
  end.

Definition on_grid (beat_info : list beat_entry) (p : triple) : Prop :=
  1 <= p.1.1 /\ 1 <= p.1.2 <= beats_at beat_info p.1.1 /\ 0 <= p.2 <= 47.

(** ** Notions for the round trip *)

(** The key that a line opens, if it is a section header. *)
Definition header_key (line : string) : option string :=
  match is_track_header line with
  | Ok true => Some (after_first line)
  | _ => None
  end.

Definition header_keys (lines : list string) : list string := omap header_key lines.

(** The lines of [lines] that belong to the sections of [track], when the
    scan starts inside the section of [current_track]. *)
Fixpoint collect (track : string) (current_track : option string) (lines : list string)
  : list string :=
  match lines with
  | [] => []
  | line :: rest =>
    match is_track_header line with
    | Ok true => collect track (Some (after_first line)) rest
    | Ok false =>
      if startswith line "#END" then collect track None rest
      else if bool_decide (current_track = Some track)
      then line :: collect track current_track rest
      else collect track current_track rest
    | Raise _ => []
    end
  end.

(** A line that can stand inside a section. *)
Definition content (line : string) : Prop :=
  is_track_header line = Ok false /\ startswith line "#END" = false.

(** A raw line that is its stripped text followed by one newline. *)
Definition canonical (raw : string) : Prop := raw = strip raw +:+ nl.

Definition prefix_of (track_cur : option string) (lines : list string) : list string :=
  match track_cur with
  | Some track => collect track track_cur lines
  | None => []
  end.

(** The lines outside the sections of the six playable tracks: of those
    sections only the header and the closing line are kept. *)
Fixpoint outside (skipping : bool) (lines : list string) : list string :=
  match lines with
  | [] => []
  | line :: rest =>
    match is_track_header line with
    | Ok true => line :: outside (bool_decide (after_first line ∈ relevant_tracks)) rest
    | Ok false =>
      if startswith line "#END" then line :: outside false rest
      else if skipping then outside skipping rest
      else line :: outside skipping rest
    | Raise _ => []
    end
  end.

(** [main] with the unmodified mapping: the text that [write_to_file]
    leaves when it is given what [parse_file] returned for the same file. *)
Definition identity_copy (text : string) : outcome (string * option exn) :=
  tracks ← parse_file_loop empty_tracks None (readlines text);
  Ok (write_to_file tracks (strip <$> readlines text)).

Definition twice_opened : string :=
  join ((fun l => l +:+ nl) <$> ["#TRACK1"; "x"; "#END"; "#TRACK1"; "y"; "#END"]).

(** ** Notions for the properties of the whole of [ran.py] *)

(** Strings all of whose characters pass a test. *)
Fixpoint all_chars (P : ascii -> bool) (s : string) : bool :=
  match s with
  | EmptyString => true
  | String c r => P c && all_chars P r
  end.

Definition is_digit (c : ascii) : bool :=
  let n := N_of_ascii c in ((48 <=? n) && (n <=? 57))%N.

(** A character of a written integer: a digit or the minus sign. *)
Definition is_numeric (c : ascii) : bool := is_digit c || Ascii.eqb c "-".

Definition not_space (c : ascii) : bool := negb (is_space c).
Definition is_not (sep c : ascii) : bool := negb (Ascii.eqb c sep).

(** The integer that a numeral without surrounding whitespace stands for,
    as [int] reads it. *)
Definition read_numeral (t : string) : option Z :=
  match t with
  | String "+"%char r => int_digits r 0 false
  | String "-"%char r => Z.opp <$> int_digits r 0 false
  | t => int_digits t 0 false
  end.

Definition triple_lt (p q : triple) : Prop := triple_compare p q = Lt.

(** The event that a note line with exactly three tab-separated fields
    stands for, and the lines with more fields than three. *)
Definition event_of (note_line : string) : option note :=
  match split tab note_line with
  | [timestamp; note_type; _] =>
    Some (Note timestamp (if String.eqb note_type "0" then chip else hold))
  | _ => None
  end.

Definition overlong (note_line : string) : bool :=
  (3 <? length (split tab note_line))%nat.

(** The notes of the six playable tracks, in the order in which the
    aggregation visits them, and the number of those of one kind at one
    timestamp. *)
Definition playable_notes (structured_notes : gmap string (list note)) : list note :=
  track ← relevant_tracks; structured_notes !!! track.

Definition is_kind (kind : note_type) (n : note) : bool :=
  match type n, kind with
  | chip, chip | hold, hold => true
  | _, _ => false
  end.

Definition occurrences (kind : note_type) (ts : string) (notes : list note) : Z :=
  Z.of_nat (length (List.filter (fun n => is_kind kind n && String.eqb (timestamp n) ts) notes)).

(** The count stored under a key of a counter dict, 0 for a missing key,
    and the sum of all counts. *)
Fixpoint get (k : string) (d : list (string * Z)) : Z :=
  match d with
  | [] => 0
  | (k', n) :: r => if String.eqb k' k then n else get k r
  end.

Definition total (d : list (string * Z)) : Z := foldr (fun x s => x.2 + s) 0 d.

(** The six playable tracks are keys of the mapping. *)
Definition has_playable (structured_notes : gmap string (list note)) : Prop :=
  forall track, track ∈ relevant_tracks -> is_Some (structured_notes !! track).

Definition key_lt (x y : string * Z) : Prop := String.compare x.1 y.1 = Lt.

(** Notes of two chips and a hold at one timestamp, over two tracks. *)
Definition sample_notes : gmap string (list note) :=
  list_to_map [("TRACK2", [Note "001,01,00" chip]);
               ("TRACK3", [Note "001,02,00" hold; Note "001,01,00" chip]);
               ("TRACK4", [Note "001,01,00" hold]); ("TRACK5", []); ("TRACK6", []);
               ("TRACK7", [Note "001,01,24" chip])].

(** A line of the beat-info section as the charts write it: the position,
    the beats per measure and the ticks per beat, separated by tabs. *)
Definition beat_line (e : beat_entry) : string :=
  fmt (measure e, beat e, tick e)
  +:+ String tab (format0 1 (beats_per_measure e)
  +:+ String tab (format0 1 (ticks_per_beat e))).

Definition opens_beat_info (raw : string) : bool := startswith (strip raw) "#BEAT INFO".

(** A text with no more digits than [int] accepts in one numeral. *)
Definition within_digit_limit (s : string) : Prop := digit_count s <= max_str_digits.

(** The sources of the two effect tracks after the draw of
    [random.choice]. *)
Definition effect_sources (swap : bool) : list string :=
  if swap then ["TRACK7"; "TRACK2"] else ["TRACK2"; "TRACK7"].

(** The two characters that end a line when a file is read in text
    mode: the reader turns a carriage return into a newline. *)
Definition carriage_return : ascii := ascii_of_nat 13.

Definition is_break (c : ascii) : bool :=
  Ascii.eqb c newline || Ascii.eqb c carriage_return.

Definition unbroken (s : string) : Prop := all_chars (fun c => negb (is_break c)) s = true.

(** A line as [main] keeps it in [full_content] and as [parse_file] keeps
    it in a buffer: without surrounding whitespace and without a line
    break inside. *)
Definition one_line (line : string) : Prop := strip line = line /\ unbroken line.

(** The lines that the sections of [track] receive when [track_data] is
    written along the headers of [lines]. *)
Definition gathered (track : string) (track_data : track_map) (lines : list string)
  : list string :=
  key ← header_keys lines;
  if bool_decide (key = track) then track_data !!! key else [].

(** Every step of [main] before the loop over the lane orders returns,
    and [parse_file] returns [track_data]. *)
Definition analysed (text : string) (track_data : track_map) : Prop :=
  exists beat_info end_position timestamps structured_notes,
    parse_beat_info (readlines text) = Ok beat_info
    /\ get_end_position (readlines text) = Ok (Some end_position)
    /\ generate_timestamps beat_info end_position = Ok timestamps
    /\ parse_file (Some text) = Ok (Some track_data)
    /\ parse_notes_in_tracks track_data = Ok structured_notes.

(** The first lane order that [main] visits. *)
Definition first_order : list string := ["a"; "b"; "c"; "d"; "L"; "R"].

(** A chart whose only section header has a digit after the track number. *)
Definition stray_header_chart : string :=
  let T := String tab EmptyString in
  join ((fun l => l +:+ nl) <$>
    [ "#BEAT INFO"; "001,01,00" +:+ T +:+ "4" +:+ T +:+ "48"; "#END";
      "#END POSITION"; "001,01,05"; "#END";
      "#TRACK21"; "#END" ]).

(** * Properties *)

Example startswith_track : startswith "#TRACK2" "#TRACK" = true.
Proof. reflexivity. Qed.
Example strip_line : strip (String tab "  a b " +:+ nl) = "a b".
Proof. reflexivity. Qed.
Example split_three : split tab ("001,01,00" +:+ String tab ("0" +:+ String tab "2"))
  = ["001,01,00"; "0"; "2"].
Proof. reflexivity. Qed.
Example readlines_two : readlines ("a" +:+ nl +:+ "b") = ["a" +:+ nl; "b"].
Proof. reflexivity. Qed.
Example py_int_ok : py_int " -1_000 " = Ok (-1000).
Proof. reflexivity. Qed.
Example py_int_bad : py_int "1__0" = Raise ValueError.
Proof. reflexivity. Qed.
Example py_int_separator :
  strip (String (ascii_of_nat 28) "2") = "2"
  /\ py_int (String (ascii_of_nat 28) "2") = Raise ValueError
  /\ py_int (String (ascii_of_nat 160) "2") = Ok 2.
Proof. repeat split; reflexivity. Qed.
Example format0_pad : format0 3 7 = "007" /\ format0 2 (-5) = "-5" /\ format0 3 1234 = "1234".
Proof. repeat split; reflexivity. Qed.
Example permutations_three : permutations [1; 2; 3]
  = [[1;2;3]; [1;3;2]; [2;1;3]; [2;3;1]; [3;1;2]; [3;2;1]].
Proof. reflexivity. Qed.

(** ** Fixed-width position strings *)

Section FixedWidth.

Lemma format0_3_digits n : 0 <= n <= 999 -> format0 3 n = digits3 n.
Proof.
  intros Hn.
  assert (H : Forall (fun k => format0 3 k = digits3 k) (seqZ 0 1000)).
  { apply (bool_decide_unpack _). vm_compute. exact I. }
  rewrite Forall_forall in H. apply H, elem_of_seqZ. lia.
Qed.

Lemma format0_2_digits n : 0 <= n <= 99 -> format0 2 n = digits2 n.
Proof.
  intros Hn.
  assert (H : Forall (fun k => format0 2 k = digits2 k) (seqZ 0 100)).
  { apply (bool_decide_unpack _). vm_compute. exact I. }
  rewrite Forall_forall in H. apply H, elem_of_seqZ. lia.
Qed.

Lemma digit_char_compare a b :
  0 <= a <= 9 -> 0 <= b <= 9 ->
  Ascii.compare (digit_char a) (digit_char b) = (a ?= b).
Proof.
  intros Ha Hb.
  assert (E : forall d, 0 <= d <= 9 -> N_of_ascii (digit_char d) = (48 + Z.to_N d)%N).
  { intros d Hd.
    assert (d = 0 \/ d = 1 \/ d = 2 \/ d = 3 \/ d = 4 \/ d = 5 \/ d = 6 \/ d = 7
            \/ d = 8 \/ d = 9) as Hc by lia.
    repeat (destruct Hc as [-> | Hc]; [reflexivity |]). subst d. reflexivity. }
  unfold Ascii.compare. rewrite !E by lia.
  destruct (Z.compare_spec a b) as [-> | Hlt | Hgt].
  - apply N.compare_refl.
  - apply N.compare_lt_iff. lia.
  - apply N.compare_gt_iff. lia.
Qed.

Lemma compare_digits3 m m' :
  0 <= m <= 999 -> 0 <= m' <= 999 ->
  String.compare (digits3 m) (digits3 m') = (m ?= m').
Proof.
  intros Hm Hm'. unfold digits3. cbn [String.compare].
  rewrite !digit_char_compare by (Z.div_mod_to_equations; lia).
  symmetry.
  destruct (Z.compare_spec (m / 100) (m' / 100));
    destruct (Z.compare_spec (m / 10 mod 10) (m' / 10 mod 10));
    destruct (Z.compare_spec (m mod 10) (m' mod 10));
    first [ apply Z.compare_eq_iff | apply Z.compare_lt_iff | apply Z.compare_gt_iff ];
    Z.div_mod_to_equations; lia.
Qed.

Lemma compare_digits2 m m' :
  0 <= m <= 99 -> 0 <= m' <= 99 ->
  String.compare (digits2 m) (digits2 m') = (m ?= m').
Proof.
  intros Hm Hm'. unfold digits2. cbn [String.compare].
  rewrite !digit_char_compare by (Z.div_mod_to_equations; lia).
  symmetry.
  destruct (Z.compare_spec (m / 10) (m' / 10));
    destruct (Z.compare_spec (m mod 10) (m' mod 10));
    first [ apply Z.compare_eq_iff | apply Z.compare_lt_iff | apply Z.compare_gt_iff ];
    Z.div_mod_to_equations; lia.
Qed.

Lemma compare_app s1 s2 t1 t2 :
  String.length s1 = String.length s2 ->
  String.compare (s1 +:+ t1) (s2 +:+ t2)
  = match String.compare s1 s2 with Eq => String.compare t1 t2 | c => c end.
Proof.
  revert s2. induction s1 as [| c s1 IH]; intros [| d s2] Hlen; simpl in *; try discriminate.
  - reflexivity.
  - destruct (Ascii.compare c d); auto.
Qed.

Lemma fmt_compare p q :
  in_width p -> in_width q -> String.compare (fmt p) (fmt q) = triple_compare p q.
Proof.
  destruct p as [[m b] t], q as [[m' b'] t']. unfold in_width; simpl.
  intros (Hm & Hb & Ht) (Hm' & Hb' & Ht').
  rewrite !format0_3_digits, !format0_2_digits by assumption.
  rewrite compare_app by reflexivity. rewrite compare_digits3 by assumption.
  destruct (m ?= m'); try reflexivity.
  rewrite (compare_app ","  "," ) by reflexivity. simpl String.compare at 1. cbn match.
  rewrite compare_app by reflexivity. rewrite compare_digits2 by assumption.
  destruct (b ?= b'); try reflexivity.
  rewrite (compare_app ","  "," ) by reflexivity. simpl String.compare at 1. cbn match.
  apply compare_digits2; assumption.
Qed.
End FixedWidth.

Section Sorting.

Lemma item_le_total x y : item_le y x = false -> item_le x y = true.
Proof.
  unfold item_le. rewrite (String.compare_antisym x.1 y.1).
  destruct (String.compare y.1 x.1); simpl; try discriminate; try reflexivity.
  intros H. apply Z.leb_gt in H. apply Z.leb_le. lia.
Qed.

Lemma insert_sorted_perm x l : Permutation (insert_sorted x l) (x :: l).
Proof.
  induction l as [| y r IH]; simpl.
  - reflexivity.
  - destruct (item_le y x).
    + rewrite IH. apply perm_swap.
    + reflexivity.
Qed.

Lemma insert_sorted_hd x y l :
  item_le y x = true -> HdRel (fun a b => item_le a b = true) y l ->
  HdRel (fun a b => item_le a b = true) y (insert_sorted x l).
Proof.
  intros Hyx Hl. destruct l as [| z r]; simpl.
  - constructor. exact Hyx.
  - inversion Hl; subst. destruct (item_le z x); constructor; assumption.
Qed.

Lemma insert_sorted_Sorted x l :
  Sorted (fun a b => item_le a b = true) l ->
  Sorted (fun a b => item_le a b = true) (insert_sorted x l).
Proof.
  induction 1 as [| y r Hr IH Hhd]; simpl.
  - repeat constructor.
  - destruct (item_le y x) eqn:E.
    + constructor; [exact IH | apply insert_sorted_hd; assumption].
    + constructor; [constructor; assumption |].
      constructor. apply item_le_total, E.
Qed.

Lemma sorted_from_perm l acc :
  Permutation (fold_left (fun acc x => insert_sorted x acc) l acc) (l ++ acc).
Proof.
  revert acc. induction l as [| x l IH]; intros acc; simpl.
  - reflexivity.
  - rewrite IH, insert_sorted_perm. symmetry. apply Permutation_middle.
Qed.

Lemma sorted_perm l : Permutation (sorted l) l.
Proof. unfold sorted. rewrite sorted_from_perm, app_nil_r. reflexivity. Qed.

Lemma sorted_from_Sorted l acc :
  Sorted (fun a b => item_le a b = true) acc ->
  Sorted (fun a b => item_le a b = true)
         (fold_left (fun acc x => insert_sorted x acc) l acc).
Proof.
  revert acc. induction l as [| x l IH]; intros acc Hacc; simpl.
  - exact Hacc.
  - apply IH, insert_sorted_Sorted, Hacc.
Qed.

Lemma sorted_Sorted l : Sorted (fun a b => item_le a b = true) (sorted l).
Proof. apply sorted_from_Sorted. constructor. Qed.

End Sorting.

(** C8. Within the widths 3, 2, 2 the canonical strings of two positions
    compare as strings exactly as the positions compare as triples, and
    sorting aggregation items whose keys are such strings puts them in
    the numeric order of their positions. *)
Theorem canonical_string_order (p q : triple) (pcs : list (triple * Z)) :
  in_width p -> in_width q -> Forall (fun pc => in_width pc.1) pcs ->
  String.compare (fmt p) (fmt q) = triple_compare p q
  /\ exists pcs', sorted (keyed <$> pcs) = keyed <$> pcs'
       /\ Permutation pcs' pcs /\ Sorted position_le pcs'.
Proof.
  intros Hp Hq Hall. split; [apply fmt_compare; assumption |].
  destruct (Permutation_map_inv keyed pcs (sorted_perm (keyed <$> pcs)))
    as (pcs' & Heq0 & Hperm).
  assert (Heq : sorted (keyed <$> pcs) = keyed <$> pcs') by exact Heq0. clear Heq0.
  exists pcs'. split; [exact Heq |]. split; [symmetry; exact Hperm |].
  assert (Hall' : Forall (fun pc => in_width pc.1) pcs').
  { rewrite <- Hperm. exact Hall. }
  pose proof (sorted_Sorted (keyed <$> pcs)) as Hs. rewrite Heq in Hs.
  clear Heq Hperm Hall. induction pcs' as [| x r IH]; [constructor |].
  inversion Hs as [| ? ? Hr Hhd]; subst. inversion Hall' as [| ? ? Hx Hrw]; subst.
  constructor; [apply IH; assumption |].
  destruct r as [| y r']; constructor.
  inversion Hhd as [| ? ? Hle]; subst. inversion Hrw as [| ? ? Hy _]; subst.
  unfold position_le. rewrite <- fmt_compare by assumption.
  unfold item_le, keyed in Hle. simpl in Hle.
  destruct (String.compare (fmt x.1) (fmt y.1)); congruence.
Qed.

Lemma canonical_string_order_witness :
  String.compare (fmt (2, 1, 0)) (fmt (1, 99, 99)) = triple_compare (2, 1, 0) (1, 99, 99)
  /\ exists pcs', sorted (keyed <$> [((10, 1, 0), 1); ((9, 4, 47), 2)]) = keyed <$> pcs'
       /\ Permutation pcs' [((10, 1, 0), 1); ((9, 4, 47), 2)] /\ Sorted position_le pcs'.
Proof.
  apply canonical_string_order; unfold in_width; simpl;
    repeat first [ apply Forall_cons; split | apply Forall_nil ]; simpl; lia.
Defined.

(** ** The lane orders of exhaustive mode *)

Section Orderings.
Context {A : Type}.

Lemma selects_middle (l1 l2 : list A) x : In (x, l1 ++ l2) (selects (l1 ++ x :: l2)).
Proof.
  induction l1 as [| y l1 IH]; simpl.
  - left. reflexivity.
  - right. apply in_map_iff. exists (x, l1 ++ l2). split; [reflexivity | exact IH].
Qed.

Lemma selects_inv (l : list A) x r :
  In (x, r) (selects l) -> exists l1 l2, l = l1 ++ x :: l2 /\ r = l1 ++ l2.
Proof.
  revert r. induction l as [| y l IH]; simpl; intros r H; [contradiction |].
  destruct H as [H | H].
  - injection H as -> ->. exists [], r. split; reflexivity.
  - apply in_map_iff in H. destruct H as ([z r'] & Heq & Hin). inversion Heq; subst.
    destruct (IH _ Hin) as (l1 & l2 & -> & ->).
    exists (y :: l1), l2. split; reflexivity.
Qed.

Lemma permutations_n_complete n (l l' : list A) :
  length l = n -> Permutation l l' -> In l' (permutations_n n l).
Proof.
  revert l l'. induction n as [| n IH]; intros l l' Hlen Hperm.
  - destruct l; [| discriminate]. apply Permutation_nil in Hperm. subst. left. reflexivity.
  - destruct l' as [| x l''].
    { apply Permutation_sym, Permutation_nil in Hperm. subst. discriminate. }
    assert (Hx : In x l).
    { eapply Permutation_in; [symmetry; exact Hperm | left; reflexivity]. }
    apply in_split in Hx. destruct Hx as (l1 & l2 & ->).
    simpl. apply in_flat_map. exists (x, l1 ++ l2). split; [apply selects_middle |].
    apply in_map. apply IH.
    + rewrite length_app in *. simpl in Hlen. lia.
    + apply Permutation_cons_inv with (a := x).
      rewrite <- Hperm. apply Permutation_middle.
Qed.

Lemma permutations_n_sound n (l l' : list A) :
  length l = n -> In l' (permutations_n n l) -> Permutation l l'.
Proof.
  revert l l'. induction n as [| n IH]; intros l l' Hlen Hin.
  - destruct l; [| discriminate]. destruct Hin as [<- | []]. constructor.
  - simpl in Hin. apply in_flat_map in Hin. destruct Hin as ([x r] & Hsel & Hin).
    apply in_map_iff in Hin. destruct Hin as (l'' & <- & Hin).
    apply selects_inv in Hsel. destruct Hsel as (l1 & l2 & -> & ->).
    rewrite <- Permutation_middle. constructor. apply IH; [| exact Hin].
    rewrite length_app in *. simpl in Hlen. lia.
Qed.

Lemma permutations_spec (l l' : list A) : In l' (permutations l) <-> Permutation l l'.
Proof.
  split; [apply permutations_n_sound | apply permutations_n_complete]; reflexivity.
Qed.
End Orderings.

Lemma specific_orders_spec o :
  In o specific_orders <->
  exists bs fs, o = bs ++ fs /\ Permutation buttons bs /\ Permutation effects fs.
Proof.
  unfold specific_orders, generate_all_combinations. rewrite in_flat_map. split.
  - intros (bs & Hbs & Hin). apply in_map_iff in Hin. destruct Hin as (fs & <- & Hfs).
    exists bs, fs. rewrite <- !permutations_spec. auto.
  - intros (bs & fs & -> & Hbs & Hfs). exists bs. rewrite permutations_spec.
    split; [exact Hbs |]. apply in_map_iff. exists fs. rewrite permutations_spec. auto.
Qed.

Lemma append_inj_r s t u : s +:+ t = s +:+ u -> t = u.
Proof. induction s; simpl; intros H; [exact H | inversion H; auto]. Qed.

Lemma append_inj_l s t u : String.length s = String.length t -> s +:+ u = t +:+ u -> s = t.
Proof.
  revert t. induction s as [| c s IH]; intros [| d t] Hlen H; simpl in *; try discriminate.
  - reflexivity.
  - inversion H; subst. f_equal. apply IH; [lia | assumption].
Qed.

Lemma suffixes_NoDup : NoDup (join <$> specific_orders).
Proof. apply (bool_decide_unpack _). vm_compute. exact I. Qed.

Lemma suffix_length o : In o specific_orders -> String.length (join o) = 6%nat.
Proof.
  intros H.
  assert (Hall : Forall (fun o => String.length (join o) = 6%nat) specific_orders).
  { apply (bool_decide_unpack _). vm_compute. exact I. }
  rewrite Forall_forall in Hall. apply Hall, list_elem_of_In, H.
Qed.

Lemma file_names_NoDup base : NoDup (new_file_name base <$> specific_orders).
Proof.
  pose proof suffixes_NoDup as Hs.
  assert (Hlen := suffix_length).
  induction specific_orders as [| o os IH]; [constructor |].
  rewrite fmap_cons in *. apply NoDup_cons in Hs. destruct Hs as [Hnotin Hs].
  apply NoDup_cons. split.
  - intros Hin. apply Hnotin. apply list_elem_of_fmap in Hin. destruct Hin as (o' & Heq & Ho').
    apply list_elem_of_fmap. exists o'. split; [| exact Ho'].
    unfold new_file_name in Heq. apply append_inj_r, append_inj_r in Heq.
    apply append_inj_l in Heq; [exact Heq |].
    rewrite !Hlen; [reflexivity | right; apply list_elem_of_In, Ho' | left; reflexivity].
  - apply IH; [exact Hs |]. intros o' Ho'. apply Hlen. right. exact Ho'.
Qed.

(** ** The run of [main] *)

Lemma bind_Ok {A B} (x : outcome A) (f : A -> outcome B) b :
  x ≫= f = Ok b -> exists a, x = Ok a /\ f a = Ok b.
Proof. destruct x; simpl; intros H; [eauto | discriminate]. Qed.

Lemma of_option_Ok {A} e (o : option A) a : of_option e o = Ok a -> o = Some a.
Proof. destruct o; simpl; congruence. Qed.

Lemma parse_file_loop_keeps tracks cur lines tracks' k :
  parse_file_loop tracks cur lines = Ok tracks' ->
  is_Some (tracks !! k) -> is_Some (tracks' !! k).
Proof.
  revert tracks cur. induction lines as [| raw rest IH]; intros tracks cur H Hk; simpl in H.
  - congruence.
  - destruct (is_track_header (strip raw)) as [[|] | e]; [eauto | | discriminate].
    destruct (startswith (strip raw) "#END"); [eauto |].
    destruct cur as [track |]; [| eauto].
    apply bind_Ok in H. destruct H as (buffer & Hb & H). apply of_option_Ok in Hb.
    eapply IH; [exact H |].
    destruct (decide (track = k)) as [-> | Hne].
    + rewrite lookup_insert_eq. eauto.
    + rewrite lookup_insert_ne by exact Hne. exact Hk.
Qed.

Lemma empty_tracks_has : has_tracks empty_tracks.
Proof.
  intros k Hk. 
  assert (H : Forall (fun k => is_Some (empty_tracks !! k)) track_keys).
  { vm_compute. repeat constructor; eauto. }
  rewrite Forall_forall in H. auto.
Qed.

Lemma analyse_tracks text track_data :
  analyse text = Ok (Some track_data) ->
  parse_file_loop empty_tracks None (readlines text) = Ok track_data.
Proof.
  unfold analyse. intros H.
  apply bind_Ok in H. destruct H as (beat_info & _ & H).
  apply bind_Ok in H. destruct H as ([end_position |] & _ & H); [| discriminate].
  apply bind_Ok in H. destruct H as (timestamps & _ & H).
  apply bind_Ok in H. destruct H as (td & Htd & H).
  apply bind_Ok in H. destruct H as (sn & _ & H).
  apply bind_Ok in H. destruct H as (sc & _ & H).
  apply bind_Ok in H. destruct H as (sh & _ & H).
  congruence.
Qed.

Lemma analyse_has_tracks text track_data :
  analyse text = Ok (Some track_data) -> has_tracks track_data.
Proof.
  intros H k Hk. eapply parse_file_loop_keeps; [apply analyse_tracks, H |].
  apply empty_tracks_has, Hk.
Qed.

Lemma has_tracks_nonempty tracks : has_tracks tracks -> tracks <> ∅.
Proof.
  intros H ->. destruct (H "TRACK1") as [b Hb].
  - vm_compute. constructor.
  - rewrite lookup_empty in Hb. discriminate.
Qed.

Lemma write_variants_names base track_data full_content orders :
  how (write_variants base track_data full_content orders) = Finished ->
  (files (write_variants base track_data full_content orders)).*1
  = new_file_name base <$> orders.
Proof.
  induction orders as [| o os IH]; simpl; [reflexivity |].
  destruct (build_new_track_data track_data o) as [ntd | e]; simpl; [| discriminate].
  destruct (write_loop ntd false full_content) as [ls [e |]]; simpl; [discriminate |].
  intros H. f_equal. apply IH, H.
Qed.

Lemma main_names s_random base text :
  how (main s_random base (Some text)) = Finished ->
  (files (main s_random base (Some text))).*1 = new_file_name base <$> specific_orders.
Proof.
  unfold main. destruct (analyse text) as [[track_data |] | e] eqn:E; cbn [how files]; try discriminate.
  rewrite bool_decide_eq_false_2 by (apply has_tracks_nonempty, (analyse_has_tracks text), E).
  apply write_variants_names.
Qed.

(** The mapping that the loop over [zip] fills from six source tracks. *)
Lemma fill_step (source target : track_map) k k' b rest :
  source !! k = Some b ->
  fill source target ((k, k') :: rest) = fill source (<[k' := b]> target) rest.
Proof. intros H. simpl. rewrite H. reflexivity. Qed.

Lemma has_tracks_buffers (track_data : track_map) :
  has_tracks track_data ->
  exists b1 b2 b3 b4 b5 b6 b7 b8,
    track_data !! "TRACK1" = Some b1 /\ track_data !! "TRACK2" = Some b2 /\
    track_data !! "TRACK3" = Some b3 /\ track_data !! "TRACK4" = Some b4 /\
    track_data !! "TRACK5" = Some b5 /\ track_data !! "TRACK6" = Some b6 /\
    track_data !! "TRACK7" = Some b7 /\ track_data !! "TRACK8" = Some b8.
Proof.
  intros H.
  assert (Hk : Forall (fun k => is_Some (track_data !! k)) track_keys).
  { apply Forall_forall. exact H. }
  change track_keys with ["TRACK1"; "TRACK2"; "TRACK3"; "TRACK4"; "TRACK5"; "TRACK6";
                          "TRACK7"; "TRACK8"] in Hk.
  repeat (apply Forall_cons in Hk; destruct Hk as [[? ?] Hk]).
  repeat eexists; eassumption.
Qed.

Ltac lookup_inserts :=
  repeat first [ rewrite lookup_insert_eq | rewrite lookup_insert_ne by discriminate ].

Lemma fill_from_sources (track_data : track_map) s3 s4 s5 s6 s2 s7 :
  has_tracks track_data ->
  Forall (fun s => is_Some (track_data !! s)) [s3; s4; s5; s6; s2; s7] ->
  exists new_track_data,
    fill track_data ∅ (zip (original_keys ++ [s3; s4; s5; s6; s2; s7]) new_keys)
      = Ok new_track_data
    /\ new_track_data !! "TRACK1" = track_data !! "TRACK1"
    /\ new_track_data !! "TRACK8" = track_data !! "TRACK8"
    /\ Forall2 (fun new_key source => new_track_data !! new_key = track_data !! source)
               physical [s3; s4; s5; s6; s2; s7].
Proof.
  intros Hhas Hs.
  destruct (has_tracks_buffers _ Hhas) as (b1 & ? & ? & ? & ? & ? & ? & b8 & H1 & _ & _ & _ & _ & _ & _ & H8).
  repeat (apply Forall_cons in Hs; destruct Hs as [[? ?] Hs]).
  cbn [original_keys new_keys app zip zip_with].
  repeat (erewrite fill_step by eassumption). cbn [fill].
  eexists. split; [reflexivity |].
  split; [lookup_inserts; symmetry; assumption |].
  split; [lookup_inserts; symmetry; assumption |].
  unfold physical. repeat constructor; lookup_inserts; symmetry; assumption.
Qed.

Lemma letters_to_tracks :
  lookup_all buttons = Ok button_tracks /\ lookup_all effects = Ok effect_tracks.
Proof. split; reflexivity. Qed.

Lemma order_assignment o :
  In o specific_orders ->
  exists sources,
    lookup_all o = Ok sources
    /\ Permutation button_tracks (take 4 sources)
    /\ Permutation effect_tracks (drop 4 sources).
Proof.
  intros Hin.
  assert (H : Forall (fun o => exists sources,
                        lookup_all o = Ok sources
                        /\ Permutation button_tracks (take 4 sources)
                        /\ Permutation effect_tracks (drop 4 sources))
                     specific_orders).
  { let r := eval vm_compute in specific_orders in change specific_orders with r.
    repeat (apply Forall_cons; split;
            [eexists; split; [vm_compute; reflexivity |];
             split; apply (bool_decide_unpack _); vm_compute; exact I |]).
    constructor. }
  rewrite Forall_forall in H. apply H, list_elem_of_In, Hin.
Qed.

Lemma assignments_NoDup : NoDup (lookup_all <$> specific_orders).
Proof. apply (bool_decide_unpack _). vm_compute. exact I. Qed.

Lemma assignments_complete bs fs :
  Permutation button_tracks bs -> Permutation effect_tracks fs ->
  exists o, In o specific_orders /\ lookup_all o = Ok (bs ++ fs).
Proof.
  intros Hbs Hfs.
  apply permutations_spec, list_elem_of_In in Hbs, Hfs.
  assert (H : Forall (fun bs => Forall (fun fs => Ok (bs ++ fs) ∈ lookup_all <$> specific_orders)
                                       (permutations effect_tracks))
                     (permutations button_tracks)).
  { apply (bool_decide_unpack _). vm_compute. exact I. }
  rewrite Forall_forall in H. specialize (H bs Hbs).
  rewrite Forall_forall in H. specialize (H fs Hfs).
  apply list_elem_of_fmap in H. destruct H as (o & Heq & Ho).
  exists o. split; [apply list_elem_of_In, Ho | symmetry; exact Heq].
Qed.

Lemma analyse_parse_file text track_data :
  analyse text = Ok (Some track_data) -> parse_file (Some text) = Ok (Some track_data).
Proof. intros H. unfold parse_file. rewrite (analyse_tracks _ _ H). reflexivity. Qed.

Lemma write_variants_files base track_data full_content orders :
  how (write_variants base track_data full_content orders) = Finished ->
  Forall2 (fun o file =>
             file.1 = new_file_name base o
             /\ exists new_track_data,
                  build_new_track_data track_data o = Ok new_track_data
                  /\ write_to_file new_track_data full_content = (file.2, None))
          orders (files (write_variants base track_data full_content orders)).
Proof.
  induction orders as [| o os IH]; cbn [write_variants]; [constructor |].
  destruct (build_new_track_data track_data o) as [ntd | e] eqn:Eb; cbn [how];
    [| discriminate].
  destruct (write_to_file ntd full_content) as [text [e |]] eqn:Ew; cbn [how files];
    [discriminate |].
  intros H. constructor; [| exact (IH H)].
  split; [reflexivity |]. exists ntd. split; [exact Eb | exact Ew].
Qed.

Lemma main_files s_random base text :
  how (main s_random base (Some text)) = Finished ->
  exists track_data,
    parse_file (Some text) = Ok (Some track_data)
    /\ has_tracks track_data
    /\ Forall2 (fun o file =>
                  file.1 = new_file_name base o
                  /\ exists new_track_data,
                       build_new_track_data track_data o = Ok new_track_data
                       /\ write_to_file new_track_data (strip <$> readlines text)
                          = (file.2, None))
               specific_orders (files (main s_random base (Some text))).
Proof.
  unfold main.
  destruct (analyse text) as [[track_data |] | e] eqn:E; cbn [how files]; try discriminate.
  pose proof (analyse_has_tracks text track_data E) as Hhas.
  rewrite bool_decide_eq_false_2 by (apply has_tracks_nonempty, Hhas).
  intros H. exists track_data. split; [apply analyse_parse_file, E |].
  split; [exact Hhas |]. apply write_variants_files, H.
Qed.

Lemma files_assigned base (track_data : track_map) full_content orders
    (written_files : list (string * string)) :
  has_tracks track_data ->
  Forall (fun o => In o specific_orders) orders ->
  Forall2 (fun o file =>
             file.1 = new_file_name base o
             /\ exists new_track_data,
                  build_new_track_data track_data o = Ok new_track_data
                  /\ write_to_file new_track_data full_content = (file.2, None))
          orders written_files ->
  Forall2 (fun o file =>
             file.1 = new_file_name base o
             /\ exists bs fs new_track_data,
                  lookup_all o = Ok (bs ++ fs)
                  /\ Permutation button_tracks bs
                  /\ Permutation effect_tracks fs
                  /\ build_new_track_data track_data o = Ok new_track_data
                  /\ receives new_track_data track_data button_tracks bs
                  /\ receives new_track_data track_data effect_tracks fs
                  /\ new_track_data !! "TRACK1" = track_data !! "TRACK1"
                  /\ new_track_data !! "TRACK8" = track_data !! "TRACK8"
                  /\ write_to_file new_track_data full_content = (file.2, None))
          orders written_files.
Proof.
  intros Hhas Hin Hfiles. induction Hfiles as [| o file os fs' Hfile _ IH]; [constructor |].
  destruct Hfile as [Hname (ntd & Hbuild & Hwrite)].
  apply Forall_cons in Hin. destruct Hin as [Ho Hos].
  constructor; [| apply IH; exact Hos].
  split; [exact Hname |].
  destruct (order_assignment o Ho) as (sources & Hlook & Hb & Hf).
  assert (Hlen4 : length (take 4 sources) = 4%nat) by (rewrite <- Hb; reflexivity).
  assert (Hlen2 : length (drop 4 sources) = 2%nat) by (rewrite <- Hf; reflexivity).
  destruct sources as [| s3 [| s4 [| s5 [| s6 [| s2 [| s7 [| ? ?]]]]]]]; try discriminate.
  cbn [take drop] in Hb, Hf.
  assert (Hs : Forall (fun s => is_Some (track_data !! s)) [s3; s4; s5; s6; s2; s7]).
  { change [s3; s4; s5; s6; s2; s7] with ([s3; s4; s5; s6] ++ [s2; s7]).
    apply Forall_app. split; [rewrite <- Hb | rewrite <- Hf];
      apply Forall_forall; intros k Hk; apply Hhas; revert k Hk; apply Forall_forall;
      vm_compute; repeat constructor. }
  destruct (fill_from_sources track_data s3 s4 s5 s6 s2 s7 Hhas Hs)
    as (ntd' & Hfill & H1 & H8 & Hall).
  assert (ntd' = ntd) as ->.
  { unfold build_new_track_data in Hbuild. rewrite Hlook in Hbuild.
    cbn [mbind outcome_bind] in Hbuild. congruence. }
  exists [s3; s4; s5; s6], [s2; s7], ntd.
  split; [exact Hlook |]. split; [exact Hb |]. split; [exact Hf |].
  split; [exact Hbuild |].
  unfold physical in Hall. unfold receives, button_tracks, effect_tracks.
  repeat match goal with
         | Hx : Forall2 _ (_ :: _) (_ :: _) |- _ =>
           apply Forall2_cons_1 in Hx; destruct Hx as [? Hx]
         end.
  split; [repeat constructor; assumption |].
  split; [repeat constructor; assumption |].
  split; [exact H1 |]. split; [exact H8 | exact Hwrite].
Qed.

(** C2. A run of [main] that finishes has written one file per lane
    order, in the order of [specific_orders]: 48 orders, which are exactly
    the orderings of the four button lanes followed by an ordering of the
    two effect lanes; their six-letter suffixes, and so the file names,
    are pairwise distinct. The letters a, b, c, d stand for the tracks
    3, 4, 5, 6 and L, R for the tracks 2, 7. The file of an order [o]
    holds what [write_to_file] writes for the mapping in which the
    physical tracks 3-6 receive the buffers of a rearrangement of the
    tracks 3-6, the tracks 2 and 7 the buffers of a rearrangement of the
    tracks 2 and 7, both as [o] names them, and the tracks 1 and 8 their
    own. The 48 orders give 48 different assignments, and every
    rearrangement of the button tracks together with every rearrangement
    of the effect tracks is the assignment of one of the orders. The
    orders are a constant of the program: no draw of a random generator
    enters them. *)
Theorem exhaustive_mode_enumerates (s_random : bool) (base text : string) :
  how (main s_random base (Some text)) = Finished ->
  (files (main s_random base (Some text))).*1 = new_file_name base <$> specific_orders
  /\ length specific_orders = 48%nat
  /\ (forall o, In o specific_orders <->
        exists bs fs, o = bs ++ fs /\ Permutation buttons bs /\ Permutation effects fs)
  /\ (forall o, In o specific_orders -> String.length (join o) = 6%nat)
  /\ NoDup (join <$> specific_orders)
  /\ NoDup (new_file_name base <$> specific_orders)
  /\ lookup_all buttons = Ok button_tracks
  /\ lookup_all effects = Ok effect_tracks
  /\ (exists track_data,
        parse_file (Some text) = Ok (Some track_data)
        /\ Forall2 (fun o file =>
                      file.1 = new_file_name base o
                      /\ exists bs fs new_track_data,
                           lookup_all o = Ok (bs ++ fs)
                           /\ Permutation button_tracks bs
                           /\ Permutation effect_tracks fs
                           /\ build_new_track_data track_data o = Ok new_track_data
                           /\ receives new_track_data track_data button_tracks bs
                           /\ receives new_track_data track_data effect_tracks fs
                           /\ new_track_data !! "TRACK1" = track_data !! "TRACK1"
                           /\ new_track_data !! "TRACK8" = track_data !! "TRACK8"
                           /\ write_to_file new_track_data (strip <$> readlines text)
                              = (file.2, None))
                   specific_orders (files (main s_random base (Some text))))
  /\ NoDup (lookup_all <$> specific_orders)
  /\ (forall bs fs,
        Permutation button_tracks bs -> Permutation effect_tracks fs ->
        exists o, In o specific_orders /\ lookup_all o = Ok (bs ++ fs)).
Proof.
  intros H. split; [apply main_names, H |]. split; [reflexivity |].
  split; [apply specific_orders_spec |]. split; [apply suffix_length |].
  split; [apply suffixes_NoDup |]. split; [apply file_names_NoDup |].
  split; [apply letters_to_tracks |]. split; [apply letters_to_tracks |].
  split; [| split; [apply assignments_NoDup | apply assignments_complete]].
  destruct (main_files s_random base text H) as (track_data & Hparse & Hhas & Hfiles).
  exists track_data. split; [exact Hparse |].
  apply (files_assigned base track_data _ specific_orders _ Hhas); [| exact Hfiles].
  apply Forall_forall. intros o Ho. apply list_elem_of_In, Ho.
Qed.

Lemma exhaustive_mode_enumerates_witness :
  (files (main false "chart" (Some sample_chart))).*1
    = new_file_name "chart" <$> specific_orders
  /\ length specific_orders = 48%nat
  /\ (forall o, In o specific_orders <->
        exists bs fs, o = bs ++ fs /\ Permutation buttons bs /\ Permutation effects fs)
  /\ (forall o, In o specific_orders -> String.length (join o) = 6%nat)
  /\ NoDup (join <$> specific_orders)
  /\ NoDup (new_file_name "chart" <$> specific_orders)
  /\ lookup_all buttons = Ok button_tracks
  /\ lookup_all effects = Ok effect_tracks
  /\ (exists track_data,
        parse_file (Some sample_chart) = Ok (Some track_data)
        /\ Forall2 (fun o file =>
                      file.1 = new_file_name "chart" o
                      /\ exists bs fs new_track_data,
                           lookup_all o = Ok (bs ++ fs)
                           /\ Permutation button_tracks bs
                           /\ Permutation effect_tracks fs
                           /\ build_new_track_data track_data o = Ok new_track_data
                           /\ receives new_track_data track_data button_tracks bs
                           /\ receives new_track_data track_data effect_tracks fs
                           /\ new_track_data !! "TRACK1" = track_data !! "TRACK1"
                           /\ new_track_data !! "TRACK8" = track_data !! "TRACK8"
                           /\ write_to_file new_track_data (strip <$> readlines sample_chart)
                              = (file.2, None))
                   specific_orders (files (main false "chart" (Some sample_chart))))
  /\ NoDup (lookup_all <$> specific_orders)
  /\ (forall bs fs,
        Permutation button_tracks bs -> Permutation effect_tracks fs ->
        exists o, In o specific_orders /\ lookup_all o = Ok (bs ++ fs)).
Proof. apply (exhaustive_mode_enumerates false "chart" sample_chart). vm_compute. reflexivity. Defined.

(** ** Lane conservation *)

Lemma order_sources order :
  In order specific_orders ->
  exists sources, lookup_all order = Ok sources /\ sources ≡ₚ relevant_tracks.
Proof.
  intros Hin.
  assert (H : Forall (fun o => exists sources,
                        lookup_all o = Ok sources /\ sources ≡ₚ relevant_tracks)
                     specific_orders).
  { let r := eval vm_compute in specific_orders in change specific_orders with r.
    repeat (apply Forall_cons; split;
            [eexists; split; [vm_compute; reflexivity | apply (bool_decide_unpack _); vm_compute; exact I] |]).
    constructor. }
  rewrite Forall_forall in H. apply H, list_elem_of_In, Hin.
Qed.

Lemma new_track_data_sources (track_data : track_map) (order : list string) :
  has_tracks track_data -> In order specific_orders ->
  exists new_track_data sources,
    build_new_track_data track_data order = Ok new_track_data
    /\ new_track_data !! "TRACK1" = track_data !! "TRACK1"
    /\ new_track_data !! "TRACK8" = track_data !! "TRACK8"
    /\ sources ≡ₚ relevant_tracks
    /\ Forall2 (fun new_key source => new_track_data !! new_key = track_data !! source)
               physical sources.
Proof.
  intros Hhas Hin.
  destruct (order_sources order Hin) as (sources & Hlook & Hperm).
  assert (Hlen : length sources = 6%nat) by (rewrite Hperm; reflexivity).
  destruct sources as [| s3 [| s4 [| s5 [| s6 [| s2 [| s7 [| ? ?]]]]]]]; try discriminate.
  assert (Hs : Forall (fun s => is_Some (track_data !! s)) [s3; s4; s5; s6; s2; s7]).
  { rewrite Hperm. apply Forall_forall. intros k Hk. apply Hhas.
    revert k Hk. apply Forall_forall. vm_compute. repeat constructor. }
  destruct (fill_from_sources track_data s3 s4 s5 s6 s2 s7 Hhas Hs)
    as (new_track_data & Hfill & H1 & H8 & Hall).
  exists new_track_data, [s3; s4; s5; s6; s2; s7].
  split; [unfold build_new_track_data; rewrite Hlook; exact Hfill |].
  split; [exact H1 |]. split; [exact H8 |]. split; [exact Hperm | exact Hall].
Qed.

Lemma lookup_total_sources (new_track_data track_data : track_map) keys sources :
  Forall2 (fun new_key source => new_track_data !! new_key = track_data !! source)
          keys sources ->
  (fun k => new_track_data !!! k) <$> keys = (fun k => track_data !!! k) <$> sources.
Proof.
  induction 1 as [| k s ks ss Hks _ IH]; [reflexivity |].
  rewrite !fmap_cons, IH. unfold lookup_total, map_lookup_total. rewrite Hks. reflexivity.
Qed.

(** C1. For every lane order of exhaustive mode and every track mapping
    with the eight keys, [new_track_data] is built without error; TRACK1
    and TRACK8 keep the buffers of the original; each physical track 3-6,
    2, 7 holds the buffer of one original playable track, the sources
    being a rearrangement of tracks 2-7; so the buffers of tracks 2-7 are,
    as a multiset, those of the original. *)
Theorem lane_conservation (track_data : track_map) (order : list string) :
  has_tracks track_data -> In order specific_orders ->
  exists new_track_data sources,
    build_new_track_data track_data order = Ok new_track_data
    /\ new_track_data !! "TRACK1" = track_data !! "TRACK1"
    /\ new_track_data !! "TRACK8" = track_data !! "TRACK8"
    /\ sources ≡ₚ relevant_tracks
    /\ Forall2 (fun new_key source => new_track_data !! new_key = track_data !! source)
               physical sources
    /\ (fun k => new_track_data !!! k) <$> relevant_tracks
       ≡ₚ (fun k => track_data !!! k) <$> relevant_tracks.
Proof.
  intros Hhas Hin.
  destruct (new_track_data_sources track_data order Hhas Hin)
    as (new_track_data & sources & Hbuild & H1 & H8 & Hperm & Hall).
  exists new_track_data, sources.
  repeat (split; [assumption |]).
  assert (Hphys : relevant_tracks ≡ₚ physical).
  { apply (bool_decide_unpack _). vm_compute. exact I. }
  rewrite Hphys at 1. rewrite (lookup_total_sources _ _ _ _ Hall).
  apply fmap_Permutation, Hperm.
Qed.

Lemma sample_tracks_has : has_tracks sample_tracks.
Proof.
  intros k Hk. revert k Hk. apply Forall_forall. vm_compute.
  repeat constructor; eexists; reflexivity.
Qed.

Lemma lane_conservation_witness :
  exists new_track_data sources,
    build_new_track_data sample_tracks ["c"; "a"; "d"; "b"; "R"; "L"] = Ok new_track_data
    /\ new_track_data !! "TRACK1" = sample_tracks !! "TRACK1"
    /\ new_track_data !! "TRACK8" = sample_tracks !! "TRACK8"
    /\ sources ≡ₚ relevant_tracks
    /\ Forall2 (fun new_key source => new_track_data !! new_key = sample_tracks !! source)
               physical sources
    /\ (fun k => new_track_data !!! k) <$> relevant_tracks
       ≡ₚ (fun k => sample_tracks !!! k) <$> relevant_tracks.
Proof.
  apply lane_conservation; [exact sample_tracks_has |].
  vm_compute. repeat first [left; reflexivity | right].
Defined.

(** ** The flag and the note classifier *)

(** C5. [main] never looks at [s_random]: with the flag set the run is
    the run without it, and on the sample chart it is the exhaustive run
    with its 48 files. [randomize_tracks] is not called by [main]. *)
Theorem s_random_is_ignored (base : string) (file : option string) :
  main true base file = main false base file
  /\ how (main true "chart" (Some sample_chart)) = Finished
  /\ length (files (main true "chart" (Some sample_chart))) = 48%nat.
Proof.
  split; [reflexivity |]. split; vm_compute; reflexivity.
Qed.

Lemma parse_note_line_three ts ty third :
  split tab (ts +:+ String tab (ty +:+ String tab third)) = [ts; ty; third] ->
  parse_note_line (ts +:+ String tab (ty +:+ String tab third))
  = Ok [Note ts (if String.eqb ty "0" then chip else hold)].
Proof. intros H. unfold parse_note_line. rewrite H. reflexivity. Qed.

Lemma parse_note_line_short note_line :
  (length (split tab note_line) < 3)%nat -> parse_note_line note_line = Ok [].
Proof.
  intros H. unfold parse_note_line.
  destruct (3 <=? length (split tab note_line))%nat eqn:E; [| reflexivity].
  apply Nat.leb_le in E. lia.
Qed.

(** C7. A line of a playable track with four tab-separated fields passes
    the test [len(note_info) >= 3] and then fails to unpack into three
    names: the classifier raises [ValueError], and so does the whole run,
    before any file is written. [parse_beat_info], which indexes the
    first three fields, accepts such a line. *)
Theorem four_fields_raise :
  split tab four_field_line = ["001,01,00"; "0"; "2"; "5"]
  /\ parse_note_line four_field_line = Raise ValueError
  /\ parse_notes_in_tracks (<["TRACK4" := [four_field_line]]> empty_tracks)
     = Raise ValueError
  /\ main false "chart" (Some four_field_chart) = Run [] (Crashed ValueError)
  /\ parse_beat_info ["#BEAT INFO"; four_field_line; "#END"]
     = Ok [BeatEntry 1 1 0 0 2].
Proof. repeat split; vm_compute; reflexivity. Qed.

(** ** Section headers and section ends *)

Lemma startswith_app s p : startswith s p = true -> exists r, s = p +:+ r.
Proof.
  revert s. induction p as [| c p IH]; intros s H; simpl in *.
  - exists s. reflexivity.
  - destruct s as [| d s]; cbn in H; [discriminate H |].
    destruct (Ascii.eqb c d) eqn:E; [| discriminate H].
    apply Ascii.eqb_eq in E. subst d. destruct (IH _ H) as [r ->]. exists r. reflexivity.
Qed.

Lemma END_not_header line : startswith line "#END" = true -> is_track_header line = Ok false.
Proof.
  intros H. apply startswith_app in H. destruct H as [r ->]. reflexivity.
Qed.

Lemma END_POSITION_is_END line :
  startswith line "#END POSITION" = true -> startswith line "#END" = true.
Proof. intros H. apply startswith_app in H. destruct H as [r ->]. reflexivity. Qed.

Lemma parse_file_loop_ordinary tracks body rest :
  Forall (fun raw => ordinary (strip raw)) body ->
  parse_file_loop tracks None (body ++ rest) = parse_file_loop tracks None rest.
Proof.
  induction 1 as [| raw body Hraw _ IH]; [reflexivity |].
  cbn [app parse_file_loop]. unfold ordinary in Hraw. rewrite Hraw.
  destruct (startswith (strip raw) "#END"); exact IH.
Qed.

Lemma write_loop_ordinary track_data body rest :
  Forall ordinary body ->
  write_loop track_data false (body ++ rest) = emit body (write_loop track_data false rest).
Proof.
  induction 1 as [| line body Hline _ IH].
  - unfold emit. simpl. destruct (write_loop track_data false rest); reflexivity.
  - cbn [app write_loop]. unfold ordinary in Hline. rewrite Hline.
    rewrite andb_false_r. cbn [negb]. rewrite IH. unfold emit. reflexivity.
Qed.

(** C10. In [parse_file] and in [write_to_file] a line that starts with
    ["#END"] closes the open track section, whatever follows the four
    characters; ["#END POSITION"] is such a line. After it the parser adds
    nothing to any buffer until the next header, and the writer emits the
    line itself and then every line up to the next header as it is. *)
Theorem END_closes_section (tracks track_data : track_map) (current_track : option string)
    (marker : string) (body rest : list string) :
  startswith (strip marker) "#END" = true ->
  Forall (fun raw => ordinary (strip raw)) body ->
  parse_file_loop tracks current_track (marker :: body ++ rest)
    = parse_file_loop tracks None rest
  /\ write_loop track_data true (strip marker :: (strip <$> body) ++ (strip <$> rest))
     = emit (strip marker :: (strip <$> body)) (write_loop track_data false (strip <$> rest))
  /\ (forall line, startswith line "#END POSITION" = true -> startswith line "#END" = true).
Proof.
  intros Hend Hbody. split; [| split; [| exact END_POSITION_is_END]].
  - cbn [parse_file_loop]. rewrite (END_not_header _ Hend), Hend.
    apply parse_file_loop_ordinary, Hbody.
  - cbn [write_loop]. rewrite (END_not_header _ Hend), Hend. cbn [andb].
    rewrite write_loop_ordinary by (apply Forall_fmap; exact Hbody).
    unfold emit. reflexivity.
Qed.

Lemma END_closes_section_witness :
  parse_file_loop sample_tracks (Some "TRACK3")
                  ("#END POSITION" :: ["001,01,05"] ++ ["#END"; "#TRACK3"; "late"])
    = parse_file_loop sample_tracks None ["#END"; "#TRACK3"; "late"]
  /\ write_loop sample_tracks true
       (strip "#END POSITION" :: (strip <$> ["001,01,05"])
          ++ (strip <$> ["#END"; "#TRACK3"; "late"]))
     = emit (strip "#END POSITION" :: (strip <$> ["001,01,05"]))
            (write_loop sample_tracks false (strip <$> ["#END"; "#TRACK3"; "late"]))
  /\ (forall line, startswith line "#END POSITION" = true -> startswith line "#END" = true).
Proof.
  apply (END_closes_section sample_tracks sample_tracks (Some "TRACK3")
           "#END POSITION" ["001,01,05"] ["#END"; "#TRACK3"; "late"]).
  - reflexivity.
  - repeat constructor.
Defined.

Lemma get_None_length n s : String.get n s = None -> (String.length s <= n)%nat.
Proof.
  revert n. induction s as [| c s IH]; intros n H; simpl; [lia |].
  destruct n as [| n]; [discriminate H |]. simpl in H. apply IH in H. lia.
Qed.

Lemma header_cases line :
  track_line_ok line ->
  is_track_header line = Ok false
  \/ (is_track_header line = Ok true /\ after_first line ∈ track_keys).
Proof.
  intros Hok. unfold is_track_header.
  destruct (startswith line "#TRACK") eqn:Hs; [| left; reflexivity].
  destruct (Hok Hs) as [[Hlen Hc] | Hin].
  - destruct (String.get 6 line) as [c |] eqn:G.
    + left. f_equal. apply bool_decide_eq_false_2. apply Hc. reflexivity.
    + apply get_None_length in G. lia.
  - apply list_elem_of_In in Hin. vm_compute in Hin.
    repeat (destruct Hin as [<- | Hin]; [right; split; [reflexivity | apply (bool_decide_unpack _); vm_compute; exact I] |]).
    contradiction.
Qed.

Lemma parse_file_loop_safe lines :
  Forall (fun raw => track_line_ok (strip raw)) lines ->
  forall tracks current_track,
    has_tracks tracks ->
    (forall k, current_track = Some k -> k ∈ track_keys) ->
    exists tracks', parse_file_loop tracks current_track lines = Ok tracks'.
Proof.
  induction 1 as [| raw rest Hraw _ IH]; intros tracks cur Hhas Hcur.
  - exists tracks. reflexivity.
  - cbn [parse_file_loop].
    destruct (header_cases _ Hraw) as [-> | [-> Hkey]].
    + destruct (startswith (strip raw) "#END").
      * apply IH; [exact Hhas | discriminate].
      * destruct cur as [track |]; [| apply IH; [exact Hhas | discriminate]].
        destruct (Hhas track (Hcur _ eq_refl)) as [buffer Hb]. rewrite Hb. cbn.
        apply IH; [| exact Hcur].
        intros k Hk. destruct (decide (track = k)) as [-> | Hne].
        -- rewrite lookup_insert_eq. eauto.
        -- rewrite lookup_insert_ne by exact Hne. apply Hhas, Hk.
    + apply IH; [exact Hhas |]. intros k [= <-]. exact Hkey.
Qed.

Lemma write_loop_safe track_data full_content :
  has_tracks track_data ->
  Forall track_line_ok full_content ->
  forall in_track_section, (write_loop track_data in_track_section full_content).2 = None.
Proof.
  intros Hhas. induction 1 as [| line rest Hline _ IH]; intros in_sec; [reflexivity |].
  cbn [write_loop].
  destruct (header_cases _ Hline) as [-> | [-> Hkey]].
  - destruct (startswith line "#END" && in_sec); [apply IH |].
    destruct (negb in_sec); apply IH.
  - destruct (Hhas _ Hkey) as [buffer ->]. apply IH.
Qed.

Lemma get_Some_length n s c : String.get n s = Some c -> (n < String.length s)%nat.
Proof.
  revert n. induction s as [| d s IH]; intros n H; simpl in *; [discriminate H |].
  destruct n as [| n]; [lia |]. apply IH in H. lia.
Qed.

Lemma header_of_key line :
  startswith line "#TRACK" = true -> after_first line ∈ track_keys -> line ∈ track_headers.
Proof.
  intros Hs Hin. apply startswith_app in Hs. destruct Hs as [r ->].
  apply list_elem_of_In in Hin. vm_compute in Hin.
  repeat (destruct Hin as [Hin | Hin];
          [injection Hin as <-; apply (bool_decide_unpack _); vm_compute; exact I |]).
  contradiction.
Qed.

Lemma write_loop_needs track_data full_content :
  (forall k, is_Some (track_data !! k) -> k ∈ track_keys) ->
  forall in_track_section,
    (write_loop track_data in_track_section full_content).2 = None ->
    Forall track_line_ok full_content.
Proof.
  intros Hkeys. induction full_content as [| line rest IH]; intros in_sec H; [constructor |].
  cbn [write_loop] in H. unfold is_track_header in H.
  destruct (startswith line "#TRACK") eqn:Hs.
  - destruct (String.get 6 line) as [c |] eqn:G; [| discriminate H].
    destruct (bool_decide (c ∈ list_ascii_of_string "12345678")) eqn:Hc.
    + destruct (track_data !! after_first line) as [buffer |] eqn:Hb; [| discriminate H].
      constructor; [| eapply IH; exact H].
      intros _. right. apply header_of_key; [exact Hs |]. apply Hkeys. eauto.
    + assert (Hrest : Forall track_line_ok rest).
      { destruct (startswith line "#END" && in_sec); [eapply IH; exact H |].
        destruct (negb in_sec); eapply IH; exact H. }
      constructor; [| exact Hrest].
      intros _. left. split; [apply get_Some_length in G; lia |].
      intros c' Hc'. rewrite G in Hc'. injection Hc' as <-. eapply bool_decide_eq_false_1. exact Hc.
  - assert (Hrest : Forall track_line_ok rest).
    { destruct (startswith line "#END" && in_sec); [eapply IH; exact H |].
      destruct (negb in_sec); eapply IH; exact H. }
    constructor; [| exact Hrest]. intros Habs. congruence.
Qed.

(** C9. When every stripped line that starts with ["#TRACK"] is
    [track_line_ok], [parse_file] returns a mapping and [write_to_file],
    given a mapping with the eight keys, ends without exception; a writer
    whose mapping has no other key ends without exception only then. The
    line ["#TRACK"] makes both raise [IndexError]; the header
    ["#TRACK21"] followed by a content line makes both raise [KeyError]. *)
Theorem headers_precondition (lines : list string) (track_data : track_map) :
  Forall (fun raw => track_line_ok (strip raw)) lines ->
  has_tracks track_data ->
  (exists tracks, parse_file_loop empty_tracks None lines = Ok tracks)
  /\ (write_loop track_data false (strip <$> lines)).2 = None
  /\ (forall (full_content : list string) (other : track_map),
        (forall k, is_Some (other !! k) -> k ∈ track_keys) ->
        (write_loop other false full_content).2 = None ->
        Forall track_line_ok full_content)
  /\ parse_file (Some "#TRACK") = Raise IndexError
  /\ (write_to_file sample_tracks ["#TRACK"]).2 = Some IndexError
  /\ parse_file (Some ("#TRACK21" +:+ nl +:+ "001,01,00" +:+ nl)) = Raise KeyError
  /\ (write_to_file sample_tracks ["#TRACK21"; "001,01,00"]).2 = Some KeyError.
Proof.
  intros Hok Hhas. split.
  { apply parse_file_loop_safe; [exact Hok | apply empty_tracks_has | discriminate]. }
  split.
  { apply write_loop_safe; [exact Hhas | apply Forall_fmap; exact Hok]. }
  split.
  { intros full_content other Hkeys. apply write_loop_needs, Hkeys. }
  repeat split; vm_compute; reflexivity.
Qed.

Lemma headers_precondition_witness :
  (exists tracks, parse_file_loop empty_tracks None (readlines sample_chart) = Ok tracks)
  /\ (write_loop sample_tracks false (strip <$> readlines sample_chart)).2 = None
  /\ (forall (full_content : list string) (other : track_map),
        (forall k, is_Some (other !! k) -> k ∈ track_keys) ->
        (write_loop other false full_content).2 = None ->
        Forall track_line_ok full_content)
  /\ parse_file (Some "#TRACK") = Raise IndexError
  /\ (write_to_file sample_tracks ["#TRACK"]).2 = Some IndexError
  /\ parse_file (Some ("#TRACK21" +:+ nl +:+ "001,01,00" +:+ nl)) = Raise KeyError
  /\ (write_to_file sample_tracks ["#TRACK21"; "001,01,00"]).2 = Some KeyError.
Proof.
  apply (headers_precondition (readlines sample_chart) sample_tracks).
  - let r := eval vm_compute in (readlines sample_chart) in
    change (readlines sample_chart) with r.
    repeat (apply Forall_cons; split;
            [intros H; first [discriminate H
                             | right; apply (bool_decide_unpack _); vm_compute; exact I] |]).
    constructor.
  - exact sample_tracks_has.
Defined.

(** ** The end position *)

Lemma get_end_position_at pre m nxt post :
  passed pre m -> is_marker m = true -> is_END nxt = false ->
  get_end_position (pre ++ m :: nxt :: post) = parse_position nxt.
Proof.
  intros Hpre Hm Hn. induction pre as [| raw pre IH].
  - cbn [app get_end_position]. unfold is_marker in Hm. unfold is_END in Hn.
    rewrite Hm, Hn. reflexivity.
  - destruct Hpre as [Hraw Hpre]. cbn [app get_end_position].
    destruct (startswith (strip raw) "#END POSITION") eqn:E; [| apply IH, Hpre].
    specialize (Hraw E).
    destruct pre as [| raw' pre']; cbn [app hd] in *; unfold is_END in Hraw;
      rewrite Hraw; apply IH, Hpre.
Qed.

Lemma get_end_position_inv lines r :
  get_end_position lines = r -> r <> Ok None ->
  exists pre m nxt post,
    lines = pre ++ m :: nxt :: post /\ passed pre m /\ is_marker m = true
    /\ is_END nxt = false /\ parse_position nxt = r.
Proof.
  intros H Hr. induction lines as [| raw rest IH]; [simpl in H; congruence |].
  cbn [get_end_position] in H.
  destruct (startswith (strip raw) "#END POSITION") eqn:E.
  - destruct rest as [| n rest']; [congruence |].
    destruct (startswith (strip n) "#END") eqn:En.
    + destruct (IH H) as (pre & m & nxt & post & Heq & Hp & Hm & Hn & Hparse).
      exists (raw :: pre), m, nxt, post. rewrite Heq. repeat split; try assumption.
      intros _. destruct pre as [| raw' pre']; injection Heq as -> _; exact En.
    + exists [], raw, n, rest'. repeat split; assumption.
  - destruct (IH H) as (pre & m & nxt & post & Heq & Hp & Hm & Hn & Hparse).
    exists (raw :: pre), m, nxt, post. rewrite Heq. repeat split; try assumption.
    unfold is_marker. rewrite E. discriminate.
Qed.

Lemma main_without_end_position s_random base text :
  (forall p, get_end_position (readlines text) <> Ok (Some p)) ->
  files (main s_random base (Some text)) = []
  /\ how (main s_random base (Some text)) <> Finished.
Proof.
  intros H. unfold main, analyse.
  destruct (parse_beat_info (readlines text)) as [beat_info | e]; cbn [mbind outcome_bind];
    [| split; [reflexivity | discriminate]].
  destruct (get_end_position (readlines text)) as [[p |] | e]; cbn [mbind outcome_bind].
  - exfalso. eapply H. reflexivity.
  - split; [reflexivity | discriminate].
  - split; [reflexivity | discriminate].
Qed.

Lemma bind_Raise {A B} (x : outcome A) (f : A -> outcome B) e :
  x ≫= f = Raise e -> x = Raise e \/ exists a, x = Ok a /\ f a = Raise e.
Proof.
  destruct x as [a | e']; simpl; intros H; [right; eauto | left; congruence].
Qed.

Lemma py_int_ValueError s e : py_int s = Raise e -> e = ValueError.
Proof.
  unfold py_int, of_option.
  destruct (max_str_digits <? _); [congruence |].
  match goal with
  | |- context [match ?x with Some _ => _ | None => _ end] => destruct x
  end; congruence.
Qed.

Lemma unpack_ints3_ValueError fields e : unpack_ints3 fields = Raise e -> e = ValueError.
Proof.
  unfold unpack_ints3.
  destruct fields as [| a [| b [| c [| d r]]]]; try congruence.
  intros H.
  apply bind_Raise in H. destruct H as [H | (x & _ & H)]; [eapply py_int_ValueError, H |].
  apply bind_Raise in H. destruct H as [H | (y & _ & H)]; [eapply py_int_ValueError, H |].
  apply bind_Raise in H. destruct H as [H | (z & _ & H)]; [eapply py_int_ValueError, H |].
  discriminate H.
Qed.

Lemma parse_beat_info_ValueError lines :
  forall in_beat_info e,
    parse_beat_info_loop in_beat_info lines = Raise e -> e = ValueError.
Proof.
  induction lines as [| raw rest IH]; intros inb e H; [discriminate H |].
  cbn [parse_beat_info_loop] in H.
  destruct (startswith (strip raw) "#BEAT INFO"); [eapply IH, H |].
  destruct (startswith (strip raw) "#END" && inb); [eapply IH, H |].
  destruct inb; [| eapply IH, H].
  destruct (split tab (strip raw)) as [| a [| b [| c r]]];
    [eapply IH, H | eapply IH, H | eapply IH, H |].
  apply bind_Raise in H. destruct H as [H | ([[m b'] t] & _ & H)];
    [eapply unpack_ints3_ValueError, H |].
  apply bind_Raise in H. destruct H as [H | (bpm & _ & H)]; [eapply py_int_ValueError, H |].
  apply bind_Raise in H. destruct H as [H | (tpb & _ & H)]; [eapply py_int_ValueError, H |].
  apply bind_Raise in H. destruct H as [H | (more & _ & H)]; [eapply IH, H | discriminate H].
Qed.

Lemma write_variants_ending base track_data full_content orders :
  how (write_variants base track_data full_content orders) <> NoEndPosition.
Proof.
  induction orders as [| o os IH]; cbn [write_variants]; [discriminate |].
  destruct (build_new_track_data track_data o) as [ntd | e]; [| discriminate].
  destruct (write_to_file ntd full_content) as [text [e |]]; [discriminate | exact IH].
Qed.

Lemma analyse_None text :
  analyse text = Ok None
  <-> (exists beat_info, parse_beat_info (readlines text) = Ok beat_info)
      /\ get_end_position (readlines text) = Ok None.
Proof.
  unfold analyse. split.
  - intros H. apply bind_Ok in H. destruct H as (beat_info & Hb & H).
    apply bind_Ok in H. destruct H as ([p |] & Hp & H); [| eauto].
    exfalso.
    apply bind_Ok in H. destruct H as (timestamps & _ & H).
    apply bind_Ok in H. destruct H as (td & _ & H).
    apply bind_Ok in H. destruct H as (sn & _ & H).
    apply bind_Ok in H. destruct H as (sc & _ & H).
    apply bind_Ok in H. destruct H as (sh & _ & H).
    discriminate H.
  - intros [[beat_info Hb] Hp]. rewrite Hb, Hp. reflexivity.
Qed.

Lemma main_reports_no_end_position s_random base text :
  main s_random base (Some text) = Run [] NoEndPosition
  <-> (exists beat_info, parse_beat_info (readlines text) = Ok beat_info)
      /\ get_end_position (readlines text) = Ok None.
Proof.
  rewrite <- analyse_None. unfold main.
  destruct (analyse text) as [[track_data |] | e] eqn:E.
  - split; [| discriminate]. intros H. exfalso.
    destruct (bool_decide (track_data = ∅)); [discriminate H |].
    apply (write_variants_ending base track_data (strip <$> readlines text) specific_orders).
    rewrite H. reflexivity.
  - split; reflexivity.
  - split; discriminate.
Qed.

Lemma main_crashes_on_end_position s_random base text beat_info :
  parse_beat_info (readlines text) = Ok beat_info ->
  get_end_position (readlines text) = Raise ValueError ->
  main s_random base (Some text) = Run [] (Crashed ValueError).
Proof. intros Hb Hp. unfold main, analyse. rewrite Hb, Hp. reflexivity. Qed.

Lemma main_crashes_on_beat_info s_random base text e :
  parse_beat_info (readlines text) = Raise e ->
  e = ValueError /\ main s_random base (Some text) = Run [] (Crashed ValueError).
Proof.
  intros Hb. assert (e = ValueError) as -> by (eapply parse_beat_info_ValueError, Hb).
  split; [reflexivity |]. unfold main, analyse. rewrite Hb. reflexivity.
Qed.

(** C6 (amended). [get_end_position] returns a position exactly when some
    ["#END POSITION"] line, all markers before it being directly followed
    by a line that starts with ["#END"], is directly followed by a line
    that does not start with ["#END"] and whose first three
    comma-separated fields are three integers: those are returned. It
    raises exactly when the fields of that line are not three integers,
    and the exception is [ValueError]. In every other case (no marker, a
    marker on the last line, only markers followed by ["#END"] lines) it
    returns [None]. Whenever no position is returned, [main] writes no
    file and does not finish. [main] reads the beat info first: it ends
    with the report that the end position could not be found exactly
    when [parse_beat_info] returns and [get_end_position] returns [None];
    a [ValueError] of [get_end_position] is not caught and ends the run,
    and so does one of [parse_beat_info], which can raise no other
    exception. *)
Theorem end_position_extraction (lines : list string) :
  (forall p, get_end_position lines = Ok (Some p) <->
     exists pre m nxt post,
       lines = pre ++ m :: nxt :: post /\ passed pre m /\ is_marker m = true
       /\ is_END nxt = false /\ parse_position nxt = Ok (Some p))
  /\ (forall e, get_end_position lines = Raise e <->
        e = ValueError /\
        exists pre m nxt post,
          lines = pre ++ m :: nxt :: post /\ passed pre m /\ is_marker m = true
          /\ is_END nxt = false /\ parse_position nxt = Raise ValueError)
  /\ (forall s_random base text,
        lines = readlines text ->
        (forall p, get_end_position lines <> Ok (Some p)) ->
        files (main s_random base (Some text)) = []
        /\ how (main s_random base (Some text)) <> Finished)
  /\ (forall s_random base text,
        lines = readlines text ->
        (main s_random base (Some text) = Run [] NoEndPosition
         <-> (exists beat_info, parse_beat_info lines = Ok beat_info)
             /\ get_end_position lines = Ok None)
        /\ (forall beat_info,
              parse_beat_info lines = Ok beat_info ->
              get_end_position lines = Raise ValueError ->
              main s_random base (Some text) = Run [] (Crashed ValueError))
        /\ (forall e,
              parse_beat_info lines = Raise e ->
              e = ValueError
              /\ main s_random base (Some text) = Run [] (Crashed ValueError))).
Proof.
  split; [| split; [| split]].
  - intros p. split.
    + intros H. apply get_end_position_inv; [exact H | discriminate].
    + intros (pre & m & nxt & post & -> & Hp & Hm & Hn & <-).
      apply get_end_position_at; assumption.
  - intros e. split.
    + intros H.
      destruct (get_end_position_inv _ _ H) as (pre & m & nxt & post & Heq & Hp & Hm & Hn & Hparse);
        [discriminate |].
      assert (e = ValueError) as ->.
      { unfold parse_position in Hparse. apply bind_Raise in Hparse.
        destruct Hparse as [Hparse | (p & _ & Hparse)]; [| discriminate Hparse].
        eapply unpack_ints3_ValueError, Hparse. }
      split; [reflexivity |]. exists pre, m, nxt, post. auto.
    + intros (-> & pre & m & nxt & post & -> & Hp & Hm & Hn & <-).
      apply get_end_position_at; assumption.
  - intros s_random base text -> H. apply main_without_end_position, H.
  - intros s_random base text ->. split; [apply main_reports_no_end_position |].
    split; [intros beat_info; apply main_crashes_on_end_position |].
    intros e. apply main_crashes_on_beat_info.
Qed.

(** C6 as stated fails: a marker followed by ["#END"] and then by a
    line with three integers gives [None], not that position; and fields
    that are not three integers raise [ValueError] instead of giving the
    reported [None]. *)
Lemma end_position_counterexample :
  get_end_position ["#END POSITION"; "#END"; "001,01,00"] = Ok None
  /\ specified_end_position ["#END POSITION"; "#END"; "001,01,00"] = Some (1, 1, 0)
  /\ get_end_position ["#END POSITION"; "1,2"] = Raise ValueError
  /\ main false "chart" (Some ("#END POSITION" +:+ nl +:+ "1,2" +:+ nl))
     = Run [] (Crashed ValueError).
Proof. repeat split; vm_compute; reflexivity. Qed.

Lemma end_position_extraction_witness :
  get_end_position ["#END POSITION"; "#END"; "#END POSITION"; "001,01,05"; "#END"]
  = Ok (Some (1, 1, 5)).
Proof.
  apply (proj1 (end_position_extraction _)).
  exists ["#END POSITION"; "#END"], "#END POSITION", "001,01,05", ["#END"].
  split; [reflexivity |]. split; [| repeat split; reflexivity].
  repeat split; intros _; reflexivity.
Defined.

(** ** The timestamp grid *)

Section Grid.
Variable e : triple.

Lemma up_to_app l1 l2 :
  up_to e (l1 ++ l2)
  = if forallb (within e) l1 then l1 ++ up_to e l2 else up_to e l1.
Proof.
  induction l1 as [| p l1 IH]; simpl; [reflexivity |].
  destruct (within e p); simpl; [| reflexivity].
  rewrite IH. destruct (forallb (within e) l1); reflexivity.
Qed.

Lemma up_to_all l : forallb (within e) l = true -> up_to e l = l.
Proof.
  induction l as [| p l IH]; simpl; [reflexivity |].
  destruct (within e p); simpl; [| discriminate]. intros H. rewrite IH by exact H. reflexivity.
Qed.

Lemma ticks_loop_spec m b ticks :
  ticks_loop m b e ticks
  = (fmt <$> up_to e ((fun t => (m, b, t)) <$> ticks),
     negb (forallb (within e) ((fun t => (m, b, t)) <$> ticks))).
Proof.
  induction ticks as [| t rest IH]; [reflexivity |].
  cbn [ticks_loop fmap list_fmap up_to forallb]. unfold within.
  destruct (triple_gt (m, b, t) e); cbn [negb andb]; [reflexivity |].
  rewrite IH. reflexivity.
Qed.

Lemma beats_loop_spec m beats :
  beats_loop m e beats
  = (fmt <$> up_to e (grid_beats m beats), negb (forallb (within e) (grid_beats m beats))).
Proof.
  induction beats as [| b rest IH]; [reflexivity |].
  cbn [beats_loop]. rewrite ticks_loop_spec, IH. unfold grid_beats.
  rewrite bind_cons, up_to_app, forallb_app. cbv beta.
  destruct (forallb (within e) ((fun t => (m, b, t)) <$> seqZ 0 48)) eqn:E; cbn [negb andb].
  - rewrite (up_to_all _ E), fmap_app. reflexivity.
  - reflexivity.
Qed.
End Grid.

Lemma advance_cons2 m x next r :
  advance m (x :: next :: r)
  = if measure next <=? m then advance m (next :: r) else x :: next :: r.
Proof. reflexivity. Qed.

Lemma advance_nonempty m segs : segs <> [] -> advance m segs <> [].
Proof.
  induction segs as [| x segs IH]; intros H; [congruence |].
  destruct segs as [| next r]; [simpl; congruence |].
  rewrite advance_cons2. destruct (measure next <=? m); [apply IH |]; congruence.
Qed.

Lemma advance_advance k m segs : k <= m -> advance m (advance k segs) = advance m segs.
Proof.
  intros Hkm. induction segs as [| x segs IH]; [reflexivity |].
  destruct segs as [| next r]; [reflexivity |].
  rewrite (advance_cons2 k). destruct (measure next <=? k) eqn:Ek; [| reflexivity].
  apply Z.leb_le in Ek. rewrite IH, (advance_cons2 m).
  destruct (measure next <=? m) eqn:Em; [reflexivity | apply Z.leb_gt in Em; lia].
Qed.

(** The measures loop, with the segment list it threads through. *)
Lemma measures_loop_spec e beat_info measures :
  StronglySorted Z.le measures ->
  forall segs,
    segs <> [] ->
    (forall m, m ∈ measures -> advance m segs = advance m beat_info) ->
    measures_loop segs e measures
    = Ok (fmt <$> up_to e (m ← measures; grid_beats m (seqZ 1 (beats_at beat_info m)))).
Proof.
  induction 1 as [| m rest Hsorted IH Hle]; intros segs Hne Hsegs; [reflexivity |].
  cbn [measures_loop]. rewrite bind_cons, up_to_app. cbv beta.
  assert (Hm : advance m segs = advance m beat_info) by (apply Hsegs; left).
  pose proof (advance_nonempty m segs Hne) as Hne'.
  destruct (advance m segs) as [| cur more] eqn:Eadv; [congruence |].
  assert (Hb : beats_at beat_info m = beats_per_measure cur).
  { unfold beats_at. rewrite <- Hm. reflexivity. }
  rewrite Hb, beats_loop_spec.
  destruct (forallb (within e) (grid_beats m (seqZ 1 (beats_per_measure cur)))) eqn:E;
    cbn [negb]; [| reflexivity].
  rewrite (IH (cur :: more)).
  - cbn [mbind outcome_bind]. rewrite (up_to_all _ _ E), fmap_app. reflexivity.
  - congruence.
  - intros m' Hm'. rewrite <- Eadv. rewrite Forall_forall in Hle.
    rewrite advance_advance by (apply Hle, Hm'). apply Hsegs. right. exact Hm'.
Qed.

Lemma seqZ_sorted a n : StronglySorted Z.le (seqZ a n).
Proof.
  destruct (Z.le_gt_cases n 0) as [Hn | Hn]; [rewrite seqZ_nil by exact Hn; constructor |].
  rewrite <- (Z2Nat.id n) by lia. generalize (Z.to_nat n) as k. clear. intros k. revert a.
  induction k as [| k IH]; intros a; [constructor |].
  rewrite seqZ_cons by lia. replace (Z.pred (Z.of_nat (S k))) with (Z.of_nat k) by lia.
  constructor; [apply IH |]. apply Forall_forall. intros x Hx.
  apply elem_of_seqZ in Hx. lia.
Qed.

Lemma generate_timestamps_spec beat_info end_position :
  beat_info <> [] ->
  generate_timestamps beat_info end_position
  = Ok (fmt <$> up_to end_position (grid beat_info end_position.1.1)).
Proof.
  intros Hne. unfold generate_timestamps, grid.
  apply measures_loop_spec; [apply seqZ_sorted | exact Hne | reflexivity].
Qed.

Lemma up_to_keep e A R :
  Forall (fun p => within e p = true) A -> up_to e (A ++ R) = A ++ up_to e R.
Proof.
  induction 1 as [| p A Hp _ IH]; [reflexivity |].
  cbn [app up_to]. rewrite Hp, IH. reflexivity.
Qed.

Lemma up_to_stop e X : Forall (fun p => within e p = false) X -> up_to e X = [].
Proof. intros [| p X' Hp _]; [reflexivity |]. cbn [up_to]. rewrite Hp. reflexivity. Qed.

Lemma within_spec M B T m b t :
  within (M, B, T) (m, b, t) = true
  <-> m < M \/ (m = M /\ (b < B \/ (b = B /\ t <= T))).
Proof.
  unfold within, triple_gt, triple_compare.
  destruct (Z.compare_spec m M); destruct (Z.compare_spec b B);
    destruct (Z.compare_spec t T); simpl; split; intros; try lia; try reflexivity;
    try discriminate.
Qed.

Lemma exceeds_spec M B T m b t :
  within (M, B, T) (m, b, t) = false
  <-> M < m \/ (m = M /\ (B < b \/ (b = B /\ T < t))).
Proof.
  unfold within, triple_gt, triple_compare.
  destruct (Z.compare_spec m M); destruct (Z.compare_spec b B);
    destruct (Z.compare_spec t T); simpl; split; intros; try lia; try reflexivity;
    try discriminate.
Qed.

Lemma seqZ_split a n k :
  0 <= k < n -> seqZ a n = seqZ a k ++ (a + k) :: seqZ (a + k + 1) (n - k - 1).
Proof.
  intros H. transitivity (seqZ a (k + (1 + (n - k - 1)))); [f_equal; lia |].
  rewrite seqZ_app by lia. rewrite (seqZ_cons (a + k)) by lia.
  f_equal. f_equal. f_equal; lia.
Qed.

Lemma grid_beats_elem m beats p :
  p ∈ grid_beats m beats <-> exists b t, p = (m, b, t) /\ b ∈ beats /\ 0 <= t < 48.
Proof.
  unfold grid_beats. rewrite list_elem_of_bind. split.
  - intros (b & Hp & Hb). apply list_elem_of_fmap in Hp. destruct Hp as (t & -> & Ht).
    apply elem_of_seqZ in Ht. exists b, t. repeat split; [exact Hb | lia | lia].
  - intros (b & t & -> & Hb & Ht). exists b. split; [| exact Hb].
    apply list_elem_of_fmap. exists t. split; [reflexivity |]. apply elem_of_seqZ. lia.
Qed.

Lemma grid_ends_at_terminal beat_info e :
  on_grid beat_info e ->
  exists before, up_to e (grid beat_info e.1.1) = before ++ [e].
Proof.
  destruct e as [[M B] T]. unfold on_grid. cbn [fst snd]. intros (HM & HB & HT).
  unfold grid.
  rewrite (seqZ_split 1 M (M - 1)) by lia.
  replace (1 + (M - 1)) with M by lia.
  rewrite (seqZ_nil _ (M - (M - 1) - 1)) by lia.
  rewrite bind_app, bind_cons. cbn [mbind list_bind]. rewrite app_nil_r.
  rewrite (seqZ_split 1 (beats_at beat_info M) (B - 1)) by lia.
  replace (1 + (B - 1)) with B by lia.
  unfold grid_beats at 2. rewrite bind_app, bind_cons. cbv beta.
  set (G1 := seqZ 1 (M - 1) ≫= _).
  set (G2 := seqZ 1 (B - 1) ≫= _).
  set (X2 := seqZ (B + 1) _ ≫= _).
  rewrite (seqZ_split 0 48 T) by lia. rewrite !Z.add_0_l.
  rewrite fmap_app, fmap_cons.
  set (G3 := (fun t => (M, B, t)) <$> seqZ 0 T).
  set (X1 := (fun t => (M, B, t)) <$> seqZ (T + 1) _).
  exists (G1 ++ G2 ++ G3).
  rewrite up_to_keep.
  2:{ apply Forall_forall. intros p Hp. subst G1. apply list_elem_of_bind in Hp.
      destruct Hp as (m & Hp & Hm). apply elem_of_seqZ in Hm.
      apply grid_beats_elem in Hp. destruct Hp as (b & t & -> & _ & _).
      apply within_spec. lia. }
  rewrite up_to_keep.
  2:{ apply Forall_forall. intros p Hp. subst G2. apply list_elem_of_bind in Hp.
      destruct Hp as (b & Hp & Hb). apply elem_of_seqZ in Hb.
      apply list_elem_of_fmap in Hp. destruct Hp as (t & -> & _).
      apply within_spec. lia. }
  assert (E : (G3 ++ (M, B, T) :: X1) ++ X2 = (G3 ++ [(M, B, T)]) ++ (X1 ++ X2))
    by (rewrite <- !app_assoc; reflexivity).
  rewrite E. clear E. rewrite up_to_keep.
  2:{ apply Forall_app. split; [| constructor; [apply within_spec; lia | constructor]].
      apply Forall_forall. intros p Hp. subst G3.
      apply list_elem_of_fmap in Hp. destruct Hp as (t & -> & Ht). apply elem_of_seqZ in Ht.
      apply within_spec. lia. }
  rewrite up_to_stop.
  2:{ apply Forall_app. split; apply Forall_forall; intros p Hp.
      - subst X1. apply list_elem_of_fmap in Hp. destruct Hp as (t & -> & Ht).
        apply elem_of_seqZ in Ht. apply exceeds_spec. lia.
      - subst X2. apply list_elem_of_bind in Hp. destruct Hp as (b & Hp & Hb).
        apply elem_of_seqZ in Hb. apply list_elem_of_fmap in Hp. destruct Hp as (t & -> & _).
        apply exceeds_spec. lia. }
  rewrite app_nil_r, !app_assoc. reflexivity.
Qed.

Lemma grid_starts_at_origin beat_info e :
  on_grid beat_info e -> 1 <= beats_at beat_info 1 ->
  exists rest, up_to e (grid beat_info e.1.1) = (1, 1, 0) :: rest.
Proof.
  destruct e as [[M B] T]. unfold on_grid. cbn [fst snd]. intros (HM & HB & HT) H1.
  unfold grid. rewrite seqZ_cons by lia. rewrite bind_cons.
  rewrite (seqZ_cons 1 (beats_at beat_info 1)) by lia.
  unfold grid_beats at 1. rewrite bind_cons.
  rewrite (seqZ_cons 0 48) by lia. rewrite fmap_cons. cbn [app up_to].
  assert (within (M, B, T) (1, 1, 0) = true) as -> by (apply within_spec; lia).
  eexists. reflexivity.
Qed.

(** C3 (amended). For a non-empty beat-info list, [generate_timestamps]
    returns the strings of the grid positions (measures 1 to the end
    measure, beats 1 to the active [beats_per_measure], ticks 0 to 47,
    whatever [ticks_per_beat] says), in order, cut at the first position
    beyond the end position. When the end position is itself on the grid
    the list ends with it, and it then starts with (1,1,0) if measure 1
    has a beat. *)
Theorem timestamps_up_to_terminal (beat_info : list beat_entry) (end_position : triple) :
  beat_info <> [] ->
  generate_timestamps beat_info end_position
    = Ok (fmt <$> up_to end_position (grid beat_info end_position.1.1))
  /\ (on_grid beat_info end_position ->
      exists before,
        generate_timestamps beat_info end_position = Ok (before ++ [fmt end_position]))
  /\ (on_grid beat_info end_position -> 1 <= beats_at beat_info 1 ->
      exists rest,
        generate_timestamps beat_info end_position = Ok (fmt (1, 1, 0) :: rest)).
Proof.
  intros Hne. rewrite generate_timestamps_spec by exact Hne.
  split; [reflexivity |]. split.
  - intros Hon. destruct (grid_ends_at_terminal _ _ Hon) as [before ->].
    exists (fmt <$> before). rewrite fmap_app. reflexivity.
  - intros Hon H1. destruct (grid_starts_at_origin _ _ Hon H1) as [rest ->].
    exists (fmt <$> rest). reflexivity.
Qed.

(** C3 as stated fails: the end position (1,1,50) is on no grid of 48
    ticks, so the list ends at "001,01,47" and never holds it. *)
Lemma timestamps_counterexample :
  exists ts, generate_timestamps [BeatEntry 1 1 0 4 48] (1, 1, 50) = Ok ts
    /\ last ts = Some "001,01,47" /\ ~ In (fmt (1, 1, 50)) ts.
Proof.
  eexists. split; [vm_compute; reflexivity |]. split; [reflexivity |].
  intros H. vm_compute in H. repeat (destruct H as [H | H]; [discriminate H |]). exact H.
Qed.

Lemma timestamps_up_to_terminal_witness :
  generate_timestamps [BeatEntry 1 1 0 4 48; BeatEntry 3 1 0 3 12] (3, 2, 5)
    = Ok (fmt <$> up_to (3, 2, 5) (grid [BeatEntry 1 1 0 4 48; BeatEntry 3 1 0 3 12] 3))
  /\ (exists before,
        generate_timestamps [BeatEntry 1 1 0 4 48; BeatEntry 3 1 0 3 12] (3, 2, 5)
        = Ok (before ++ [fmt (3, 2, 5)]))
  /\ (exists rest,
        generate_timestamps [BeatEntry 1 1 0 4 48; BeatEntry 3 1 0 3 12] (3, 2, 5)
        = Ok (fmt (1, 1, 0) :: rest)).
Proof.
  destruct (timestamps_up_to_terminal
              [BeatEntry 1 1 0 4 48; BeatEntry 3 1 0 3 12] (3, 2, 5))
    as (H1 & H2 & H3); [discriminate |].
  assert (Hon : on_grid [BeatEntry 1 1 0 4 48; BeatEntry 3 1 0 3 12] (3, 2, 5)).
  { unfold on_grid. vm_compute. intuition discriminate. }
  split; [exact H1 |]. split; [exact (H2 Hon) |]. apply (H3 Hon). vm_compute. discriminate.
Defined.

Example grid_sizing :
  generate_timestamps [BeatEntry 1 1 0 4 48] (1, 1, 5)
  = Ok ["001,01,00"; "001,01,01"; "001,01,02"; "001,01,03"; "001,01,04"; "001,01,05"].
Proof. reflexivity. Qed.

(** ** The round trip through [parse_file] and [write_to_file] *)

Lemma parse_collect raws :
  forall tracks current_track tracks',
    parse_file_loop tracks current_track raws = Ok tracks' ->
    forall track,
      tracks' !! track
      = (fun b => b ++ collect track current_track (strip <$> raws)) <$> tracks !! track.
Proof.
  induction raws as [| raw rest IH]; intros tracks cur tracks' H track.
  - simpl in H. injection H as <-. cbn. destruct (tracks !! track); cbn; [| reflexivity].
    rewrite app_nil_r. reflexivity.
  - cbn [parse_file_loop] in H. rewrite fmap_cons. cbn [collect].
    destruct (is_track_header (strip raw)) as [[|] | e]; [eauto | | discriminate].
    destruct (startswith (strip raw) "#END"); [eauto |].
    destruct cur as [k |].
    + apply bind_Ok in H. destruct H as (buffer & Hb & H). apply of_option_Ok in Hb.
      rewrite (IH _ _ _ H). destruct (decide (k = track)) as [-> | Hne].
      * rewrite lookup_insert_eq, Hb, bool_decide_eq_true_2 by reflexivity. cbn.
        rewrite <- app_assoc. reflexivity.
      * rewrite lookup_insert_ne by exact Hne.
        rewrite bool_decide_eq_false_2 by congruence. reflexivity.
    + rewrite (IH _ _ _ H). rewrite bool_decide_eq_false_2 by discriminate. reflexivity.
Qed.

Lemma header_keys_cons line rest :
  header_keys (line :: rest)
  = match is_track_header line with
    | Ok true => after_first line :: header_keys rest
    | _ => header_keys rest
    end.
Proof.
  unfold header_keys. cbn [omap list_omap]. unfold header_key at 1.
  destruct (is_track_header line) as [[|] | e]; reflexivity.
Qed.

Lemma collect_absent track cur lines :
  track ∉ header_keys lines -> cur <> Some track -> collect track cur lines = [].
Proof.
  revert cur. induction lines as [| line rest IH]; intros cur Hnot Hcur; [reflexivity |].
  cbn [collect]. rewrite header_keys_cons in Hnot.
  destruct (is_track_header line) as [[|] | e]; [| | reflexivity].
  - apply not_elem_of_cons in Hnot. destruct Hnot as [Hne Hnot].
    apply IH; [exact Hnot | congruence].
  - destruct (startswith line "#END"); [apply IH; [exact Hnot | discriminate] |].
    rewrite bool_decide_eq_false_2 by exact Hcur. apply IH; assumption.
Qed.

Lemma collect_content track cur lines : Forall content (collect track cur lines).
Proof.
  revert cur. induction lines as [| line rest IH]; intros cur; [constructor |].
  cbn [collect]. destruct (is_track_header line) as [[|] | e] eqn:Eh; [apply IH | | constructor].
  destruct (startswith line "#END") eqn:Ee; [apply IH |].
  destruct (bool_decide (cur = Some track)); [| apply IH].
  constructor; [split; assumption | apply IH].
Qed.

Lemma collect_header track cur line rest :
  is_track_header line = Ok true ->
  collect track cur (line :: rest) = collect track (Some (after_first line)) rest.
Proof. intros H. cbn [collect]. rewrite H. reflexivity. Qed.

Lemma collect_end track cur line rest :
  is_track_header line = Ok false -> startswith line "#END" = true ->
  collect track cur (line :: rest) = collect track None rest.
Proof. intros H He. cbn [collect]. rewrite H, He. reflexivity. Qed.

Lemma collect_line track cur line rest :
  is_track_header line = Ok false -> startswith line "#END" = false ->
  collect track cur (line :: rest)
  = if bool_decide (cur = Some track) then line :: collect track cur rest
    else collect track cur rest.
Proof. intros H He. cbn [collect]. rewrite H, He. reflexivity. Qed.

Lemma write_identity lines :
  forall track_data cur,
    Forall (fun line => is_track_header line <> Raise IndexError) lines ->
    NoDup (header_keys lines) ->
    (forall track, cur = Some track -> track ∉ header_keys lines) ->
    (forall track, track ∈ header_keys lines ->
                   track_data !! track = Some (collect track cur lines)) ->
    (write_loop track_data (bool_decide (is_Some cur)) lines).2 = None
    /\ prefix_of cur lines ++ (write_loop track_data (bool_decide (is_Some cur)) lines).1
       = lines.
Proof.
  induction lines as [| line rest IH]; intros td cur Hok Hnodup Hcur Htd.
  - split; [reflexivity |]. destruct cur; reflexivity.
  - inversion Hok as [| ? ? Hline Hrest]; subst.
    rewrite header_keys_cons in Hnodup, Hcur, Htd.
    cbn [write_loop]. unfold prefix_of. cbn [collect].
    destruct (is_track_header line) as [[|] | e] eqn:Eh.
    + (* a header *)
      apply NoDup_cons in Hnodup. destruct Hnodup as [Hfresh Hnodup].
      rewrite (Htd (after_first line)), (collect_header _ _ _ _ Eh) by left.
      destruct (IH td (Some (after_first line)) Hrest Hnodup) as [IH2 IH1].
      { intros track [= <-]. exact Hfresh. }
      { intros track Htrack. rewrite (Htd track) by (right; exact Htrack).
        rewrite (collect_header _ _ _ _ Eh). reflexivity. }
      rewrite bool_decide_eq_true_2 in IH1, IH2 by eauto.
      unfold emit. cbn [fst snd]. split; [exact IH2 |].
      assert (Hpre : match cur with
                     | Some track => collect track (Some (after_first line)) rest
                     | None => []
                     end = []).
      { destruct cur as [track |]; [| reflexivity]. apply collect_absent.
        - intros Hin. apply (Hcur track eq_refl). right. exact Hin.
        - intros [= Heq]. apply (Hcur _ eq_refl). rewrite <- Heq. left. }
      rewrite Hpre. cbn [app]. f_equal. exact IH1.
    + (* no header *)
      destruct (startswith line "#END") eqn:Ee.
      * (* a section end *)
        destruct (IH td None Hrest Hnodup) as [IH2 IH1];
          [discriminate
          | intros track Htrack; rewrite (Htd track Htrack), (collect_end _ _ _ _ Eh Ee);
            reflexivity |].
        rewrite bool_decide_eq_false_2 in IH1, IH2 by (intros [? ?]; discriminate).
        assert (Hpre : match cur with
                       | Some track => collect track None rest
                       | None => []
                       end = []).
        { destruct cur as [track |]; [| reflexivity]. apply collect_absent;
            [apply Hcur; reflexivity | discriminate]. }
        rewrite Hpre. cbn [app prefix_of] in *.
        destruct (bool_decide (is_Some cur)); cbn [andb negb]; unfold emit; cbn [fst snd];
          (split; [exact IH2 | f_equal; exact IH1]).
      * (* a content line *)
        rewrite andb_false_l.
        destruct cur as [track |].
        -- rewrite bool_decide_eq_true_2 by eauto. cbn [negb].
           rewrite bool_decide_eq_true_2 by reflexivity.
           destruct (IH td (Some track) Hrest Hnodup) as [IH2 IH1]; [exact Hcur | |].
           { intros k Hk. rewrite (Htd k Hk), (collect_line _ _ _ _ Eh Ee).
             rewrite bool_decide_eq_false_2; [reflexivity |].
             intros [= ->]. apply (Hcur _ eq_refl), Hk. }
           rewrite bool_decide_eq_true_2 in IH1, IH2 by eauto.
           split; [exact IH2 |]. cbn [app]. f_equal. exact IH1.
        -- rewrite bool_decide_eq_false_2 by (intros [? ?]; discriminate). cbn [negb].
           destruct (IH td None Hrest Hnodup) as [IH2 IH1]; [discriminate | |].
           { intros k Hk. rewrite (Htd k Hk), (collect_line _ _ _ _ Eh Ee).
             rewrite bool_decide_eq_false_2 by discriminate. reflexivity. }
           rewrite bool_decide_eq_false_2 in IH1, IH2 by (intros [? ?]; discriminate).
           unfold emit. cbn [fst snd app prefix_of] in *.
           split; [exact IH2 | f_equal; exact IH1].
    + (* the test raises *)
      exfalso. apply Hline. unfold is_track_header in Eh.
      destruct (startswith line "#TRACK"); [| discriminate].
      destruct (String.get 6 line); [discriminate | congruence].
Qed.

Lemma readlines_nil text : readlines text = [] -> text = EmptyString.
Proof.
  destruct text as [| c r]; [reflexivity |]. simpl.
  destruct (Ascii.eqb c newline); [discriminate |].
  destruct (readlines r); discriminate.
Qed.

Lemma readlines_join text : join (readlines text) = text.
Proof.
  induction text as [| c r IH]; [reflexivity |]. simpl.
  destruct (Ascii.eqb c newline) eqn:E.
  - apply Ascii.eqb_eq in E. subst c. simpl. rewrite IH. reflexivity.
  - destruct (readlines r) as [| l ls] eqn:Er.
    + apply readlines_nil in Er. subst r. reflexivity.
    + rewrite <- IH. reflexivity.
Qed.

Lemma canonical_text text :
  Forall canonical (readlines text) -> file_text (strip <$> readlines text) = text.
Proof.
  intros H. rewrite <- (readlines_join text) at 2. unfold file_text. f_equal.
  induction H as [| raw raws Hraw _ IH]; [reflexivity |].
  rewrite !fmap_cons, IH. f_equal. symmetry. exact Hraw.
Qed.

Lemma outside_content skipping body rest :
  Forall content body ->
  outside skipping (body ++ rest)
  = if skipping then outside skipping rest else body ++ outside skipping rest.
Proof.
  induction 1 as [| line body [Hh He] _ IH]; [destruct skipping; reflexivity |].
  cbn [app outside]. rewrite Hh, He, IH. destruct skipping; reflexivity.
Qed.

Lemma track_key_kind k :
  k ∈ track_keys -> k ∈ relevant_tracks \/ k = "TRACK1" \/ k = "TRACK8".
Proof.
  intros Hk. apply list_elem_of_In in Hk. vm_compute in Hk.
  repeat (destruct Hk as [<- | Hk];
          [first [right; left; reflexivity | right; right; reflexivity
                 | left; apply (bool_decide_unpack _); vm_compute; exact I] |]).
  contradiction.
Qed.

Lemma outside_write td1 td2 lines :
  Forall track_line_ok lines ->
  td1 !! "TRACK1" = td2 !! "TRACK1" -> td1 !! "TRACK8" = td2 !! "TRACK8" ->
  (forall k b, td1 !! k = Some b -> Forall content b) ->
  (forall k b, td2 !! k = Some b -> Forall content b) ->
  forall in_track_section skipping,
    (write_loop td1 in_track_section lines).2 = None ->
    (write_loop td2 in_track_section lines).2 = None ->
    outside skipping (write_loop td1 in_track_section lines).1
    = outside skipping (write_loop td2 in_track_section lines).1.
Proof.
  intros Hok H1 H8 Hc1 Hc2.
  induction Hok as [| line rest Hline _ IH]; intros in_sec sk Hw1 Hw2; [reflexivity |].
  cbn [write_loop] in *.
  destruct (header_cases _ Hline) as [Eh | [Eh Hkey]]; rewrite Eh in *.
  - destruct (startswith line "#END") eqn:Ee.
    + destruct in_sec; cbn [andb negb] in *; unfold emit in *; cbn [fst snd app] in *;
        cbn [outside]; rewrite Eh, Ee; f_equal; apply IH; assumption.
    + cbn [andb] in *. destruct in_sec; cbn [negb] in *; [apply IH; assumption |].
      unfold emit in *. cbn [fst snd app] in *. cbn [outside]. rewrite Eh, Ee.
      destruct sk; [| f_equal]; apply IH; assumption.
  - destruct (td1 !! after_first line) as [b1 |] eqn:E1; [| discriminate].
    destruct (td2 !! after_first line) as [b2 |] eqn:E2; [| discriminate].
    unfold emit in *. cbn [fst snd app] in *. cbn [outside]. rewrite Eh. f_equal.
    rewrite !outside_content by eauto.
    destruct (bool_decide (after_first line ∈ relevant_tracks)) eqn:Er.
    + apply IH; assumption.
    + assert (b1 = b2) as ->.
      { apply bool_decide_eq_false_1 in Er.
        destruct (track_key_kind _ Hkey) as [Hk | [Hk | Hk]]; [contradiction | |];
          rewrite Hk in E1, E2; congruence. }
      f_equal. apply IH; assumption.
Qed.

Lemma fill_origin source pairs :
  forall target target' k b,
    fill source target pairs = Ok target' ->
    target' !! k = Some b ->
    target !! k = Some b \/ exists k', source !! k' = Some b.
Proof.
  induction pairs as [| [original_key new_key] rest IH]; intros target target' k b H Hk.
  - simpl in H. injection H as <-. left. exact Hk.
  - cbn [fill] in H. apply bind_Ok in H. destruct H as (buffer & Hb & H).
    apply of_option_Ok in Hb. destruct (IH _ _ _ _ H Hk) as [Hin | Hsrc]; [| right; exact Hsrc].
    destruct (decide (new_key = k)) as [-> | Hne].
    + rewrite lookup_insert_eq in Hin. injection Hin as <-. right. eauto.
    + rewrite lookup_insert_ne in Hin by exact Hne. left. exact Hin.
Qed.

Lemma new_track_data_origin track_data order new_track_data k b :
  build_new_track_data track_data order = Ok new_track_data ->
  new_track_data !! k = Some b -> exists k', track_data !! k' = Some b.
Proof.
  unfold build_new_track_data. intros H Hk.
  apply bind_Ok in H. destruct H as (specific_track_order & _ & H).
  destruct (fill_origin _ _ _ _ _ _ H Hk) as [Habs | Hsrc]; [| exact Hsrc].
  rewrite lookup_empty in Habs. discriminate.
Qed.

Lemma Forall2_elem_l {A B} (P : A -> B -> Prop) l1 l2 x :
  Forall2 P l1 l2 -> x ∈ l1 -> exists y, y ∈ l2 /\ P x y.
Proof.
  induction 1 as [| a b l1 l2 Hab _ IH]; intros Hx.
  - apply elem_of_nil in Hx. contradiction.
  - apply elem_of_cons in Hx. destruct Hx as [-> | Hx].
    + exists b. split; [left | exact Hab].
    + destruct (IH Hx) as (y & Hy & HP). exists y. split; [right; exact Hy | exact HP].
Qed.

Lemma relevant_in_keys k : k ∈ relevant_tracks -> k ∈ track_keys.
Proof.
  intros Hk. apply list_elem_of_In in Hk. vm_compute in Hk.
  repeat (destruct Hk as [<- | Hk]; [apply (bool_decide_unpack _); vm_compute; exact I |]).
  contradiction.
Qed.

Lemma new_track_data_has track_data order new_track_data :
  has_tracks track_data -> In order specific_orders ->
  build_new_track_data track_data order = Ok new_track_data ->
  has_tracks new_track_data
  /\ new_track_data !! "TRACK1" = track_data !! "TRACK1"
  /\ new_track_data !! "TRACK8" = track_data !! "TRACK8".
Proof.
  intros Hhas Hin Hbuild.
  destruct (new_track_data_sources track_data order Hhas Hin)
    as (ntd & sources & Hb & H1 & H8 & Hperm & Hall).
  rewrite Hbuild in Hb. injection Hb as <-.
  split; [| split; assumption].
  intros k Hk. destruct (track_key_kind k Hk) as [Hrel | [-> | ->]].
  - assert (Hphys : k ∈ physical).
    { assert (Hp : physical ≡ₚ relevant_tracks)
        by (apply (bool_decide_unpack _); vm_compute; exact I).
      rewrite Hp. exact Hrel. }
    destruct (Forall2_elem_l _ _ _ _ Hall Hphys) as (src & Hsrc & ->).
    apply Hhas, relevant_in_keys. rewrite <- Hperm. exact Hsrc.
  - rewrite H1. apply Hhas. apply (bool_decide_unpack _). vm_compute. exact I.
  - rewrite H8. apply Hhas. apply (bool_decide_unpack _). vm_compute. exact I.
Qed.

Lemma empty_tracks_buffer k b : empty_tracks !! k = Some b -> b = [].
Proof.
  intros H. unfold empty_tracks in H. apply elem_of_list_to_map_2 in H.
  apply list_elem_of_fmap in H. destruct H as (num & [= _ ->] & _). reflexivity.
Qed.

Lemma header_keys_in lines track :
  Forall track_line_ok lines -> track ∈ header_keys lines -> track ∈ track_keys.
Proof.
  induction 1 as [| line rest Hline _ IH]; intros Hin.
  - apply elem_of_nil in Hin. contradiction.
  - rewrite header_keys_cons in Hin.
    destruct (header_cases _ Hline) as [Eh | [Eh Hkey]]; rewrite Eh in Hin; [auto |].
    apply elem_of_cons in Hin. destruct Hin as [-> | Hin]; auto.
Qed.

Lemma track_line_ok_no_raise lines :
  Forall track_line_ok lines ->
  Forall (fun line => is_track_header line <> Raise IndexError) lines.
Proof.
  intros H. eapply Forall_impl; [exact H |]. intros line Hline.
  destruct (header_cases _ Hline) as [-> | [-> _]]; discriminate.
Qed.

(** C4 (amended). For a file whose lines each are their stripped text
    followed by one newline, whose lines that start with ["#TRACK"] are
    well formed, and in which no track section is opened twice: writing
    with the mapping that [parse_file] returned reproduces the text of
    the file; and for every lane order of exhaustive mode the written
    lines agree with the lines of the input outside the sections of the
    six playable tracks. *)
Theorem identity_round_trip (text : string) :
  Forall canonical (readlines text) ->
  Forall track_line_ok (strip <$> readlines text) ->
  NoDup (header_keys (strip <$> readlines text)) ->
  exists track_data,
    parse_file (Some text) = Ok (Some track_data)
    /\ write_to_file track_data (strip <$> readlines text) = (text, None)
    /\ forall order, In order specific_orders ->
         exists new_track_data out,
           build_new_track_data track_data order = Ok new_track_data
           /\ write_to_file new_track_data (strip <$> readlines text) = (file_text out, None)
           /\ outside false out = outside false (strip <$> readlines text).
Proof.
  intros Hcanon Hok Hnodup.
  set (raws := readlines text) in *. set (lines := strip <$> raws) in *.
  destruct (parse_file_loop_safe raws) with (tracks := empty_tracks) (current_track := @None string)
    as [td Htd]; [apply (proj1 (Forall_fmap _ _ _) Hok) | apply empty_tracks_has | discriminate |].
  assert (Hhas : has_tracks td).
  { intros k Hk. eapply parse_file_loop_keeps; [exact Htd | apply empty_tracks_has, Hk]. }
  assert (Hlook : forall k, td !! k = (fun b => b ++ collect k None lines) <$> empty_tracks !! k).
  { intros k. apply (parse_collect raws _ _ _ Htd). }
  assert (Hcontent : forall k b, td !! k = Some b -> Forall content b).
  { intros k b Hk. rewrite Hlook in Hk.
    destruct (empty_tracks !! k) as [b0 |] eqn:E0; [| discriminate].
    apply empty_tracks_buffer in E0. subst b0. injection Hk as <-. apply collect_content. }
  destruct (write_identity lines td None) as [Hw2 Hw1].
  { apply track_line_ok_no_raise, Hok. }
  { exact Hnodup. }
  { discriminate. }
  { intros k Hk. rewrite Hlook.
    destruct (empty_tracks_has k (header_keys_in _ _ Hok Hk)) as [b0 E0].
    rewrite E0. apply empty_tracks_buffer in E0. subst b0. reflexivity. }
  rewrite bool_decide_eq_false_2 in Hw1, Hw2 by (intros [? ?]; discriminate).
  cbn [prefix_of app] in Hw1.
  exists td. split; [unfold parse_file; fold raws; rewrite Htd; reflexivity |].
  split.
  { unfold write_to_file. rewrite Hw1, Hw2. f_equal. apply canonical_text, Hcanon. }
  intros order Horder.
  destruct (new_track_data_sources td order Hhas Horder) as (ntd & sources & Hbuild & _).
  destruct (new_track_data_has td order ntd Hhas Horder Hbuild) as (Hhas' & H1 & H8).
  exists ntd, (write_loop ntd false lines).1.
  split; [exact Hbuild |].
  pose proof (write_loop_safe ntd lines Hhas' Hok false) as Hsafe.
  split; [unfold write_to_file; rewrite Hsafe; reflexivity |].
  rewrite <- Hw1 at 2.
  apply outside_write; try assumption.
  intros k b Hk. destruct (new_track_data_origin _ _ _ _ _ Hbuild Hk) as [k' Hk'].
  eapply Hcontent, Hk'.
Qed.

(** C4 as stated fails: leading whitespace is dropped and a missing last
    newline is added, and a track that is opened twice gets the lines of
    both sections in each of them. *)
Lemma round_trip_counterexample :
  identity_copy (" a" +:+ nl) = Ok ("a" +:+ nl, None)
  /\ identity_copy "a" = Ok ("a" +:+ nl, None)
  /\ identity_copy twice_opened
     = Ok (join ((fun l => l +:+ nl) <$>
                   ["#TRACK1"; "x"; "y"; "#END"; "#TRACK1"; "x"; "y"; "#END"]), None)
  /\ " a" +:+ nl <> "a" +:+ nl.
Proof. repeat split; try (vm_compute; reflexivity). discriminate. Qed.

Lemma identity_round_trip_witness :
  exists track_data,
    parse_file (Some sample_chart) = Ok (Some track_data)
    /\ write_to_file track_data (strip <$> readlines sample_chart) = (sample_chart, None)
    /\ forall order, In order specific_orders ->
         exists new_track_data out,
           build_new_track_data track_data order = Ok new_track_data
           /\ write_to_file new_track_data (strip <$> readlines sample_chart)
              = (file_text out, None)
           /\ outside false out = outside false (strip <$> readlines sample_chart).
Proof.
  apply (identity_round_trip sample_chart).
  - let r := eval vm_compute in (readlines sample_chart) in
    change (readlines sample_chart) with r.
    repeat (apply Forall_cons; split; [vm_compute; reflexivity |]). constructor.
  - let r := eval vm_compute in (strip <$> readlines sample_chart) in
    change (strip <$> readlines sample_chart) with r.
    repeat (apply Forall_cons; split;
            [intros H; first [discriminate H
                             | right; apply (bool_decide_unpack _); vm_compute; exact I] |]).
    constructor.
  - apply (bool_decide_unpack _). vm_compute. exact I.
Defined.

(** * Further properties of [ran.py] *)

Lemma digit_cases d :
  0 <= d <= 9 ->
  d = 0 \/ d = 1 \/ d = 2 \/ d = 3 \/ d = 4 \/ d = 5 \/ d = 6 \/ d = 7 \/ d = 8 \/ d = 9.
Proof. lia. Qed.

Ltac by_digit d H :=
  let Hc := fresh in
  pose proof (digit_cases d H) as Hc;
  repeat (destruct Hc as [-> | Hc]; [reflexivity |]); subst d; reflexivity.

Lemma is_digit_digit_char d : 0 <= d <= 9 -> is_digit (digit_char d) = true.
Proof. intros Hd. by_digit d Hd. Qed.

Lemma digit_val_digit_char d : 0 <= d <= 9 -> digit_val (digit_char d) = Some d.
Proof. intros Hd. by_digit d Hd. Qed.

Lemma underscore_digit_char d : 0 <= d <= 9 -> Ascii.eqb (digit_char d) "_" = false.
Proof. intros Hd. by_digit d Hd. Qed.

Lemma int_digits_digit d r acc b :
  0 <= d <= 9 ->
  int_digits (String (digit_char d) r) acc b = int_digits r (10 * acc + d) true.
Proof.
  intros Hd. cbn [int_digits].
  rewrite underscore_digit_char, digit_val_digit_char by exact Hd. reflexivity.
Qed.

Lemma mod10_digit n : 0 <= n mod 10 <= 9.
Proof. pose proof (Z.mod_pos_bound n 10). lia. Qed.

Lemma append_cons c s t : String c s +:+ t = String c (s +:+ t).
Proof. reflexivity. Qed.

Lemma append_empty_r s : s +:+ EmptyString = s.
Proof. induction s as [| c s IH]; [reflexivity |]. rewrite append_cons, IH. reflexivity. Qed.

Lemma append_String s c r : (s +:+ String c EmptyString) +:+ r = s +:+ String c r.
Proof. induction s as [| d s IH]; [reflexivity |]. rewrite !append_cons, IH. reflexivity. Qed.

Lemma all_chars_app P s t : all_chars P (s +:+ t) = all_chars P s && all_chars P t.
Proof.
  induction s as [| c s IH]; [reflexivity |].
  rewrite append_cons. cbn [all_chars]. rewrite IH. apply andb_assoc.
Qed.

(** The digits that [dec_go] puts before its accumulator: they are
    digits, at least one, and they read back as the number. *)
Lemma dec_go_spec fuel : forall n acc,
  0 <= n < 2 ^ (Z.of_nat fuel + 1) ->
  exists ds k,
    dec_go (S fuel) n acc = ds +:+ acc
    /\ ds <> EmptyString
    /\ all_chars is_digit ds = true
    /\ 0 <= k
    /\ forall rest a b, int_digits (ds +:+ rest) a b = int_digits rest (a * 10 ^ k + n) true.
Proof.
  assert (Hone : forall n acc, 0 <= n -> n / 10 = 0 ->
            exists ds k,
              String (digit_char (n mod 10)) acc = ds +:+ acc
              /\ ds <> EmptyString
              /\ all_chars is_digit ds = true
              /\ 0 <= k
              /\ forall rest a b,
                   int_digits (ds +:+ rest) a b = int_digits rest (a * 10 ^ k + n) true).
  { intros n acc Hn Hd. exists (String (digit_char (n mod 10)) ""), 1.
    split; [reflexivity |]. split; [discriminate |].
    split; [cbn [all_chars]; rewrite is_digit_digit_char by (apply mod10_digit); reflexivity |].
    split; [lia |]. intros rest a b. rewrite append_cons. change ("" +:+ rest) with rest.
    rewrite int_digits_digit by (apply mod10_digit).
    f_equal. Z.div_mod_to_equations; lia. }
  induction fuel as [| fuel IH]; intros n acc Hn.
  - assert (Hd : n / 10 = 0).
    { change (2 ^ (Z.of_nat 0 + 1)) with 2 in Hn. Z.div_mod_to_equations; lia. }
    cbn [dec_go]. rewrite Hd. cbn [Z.eqb]. apply Hone; [lia | exact Hd].
  - remember (S fuel) as f eqn:Ef. cbn [dec_go].
    destruct (n / 10 =? 0) eqn:E.
    + apply Z.eqb_eq in E. apply Hone; [lia | exact E].
    + subst f.
      destruct (IH (n / 10) (String (digit_char (n mod 10)) acc))
        as (ds & k & Hds & Hne & Hall & Hk0 & Hk).
      { replace (Z.of_nat (S fuel) + 1) with (Z.succ (Z.of_nat fuel + 1)) in Hn by lia.
        rewrite Z.pow_succ_r in Hn by lia. Z.div_mod_to_equations; lia. }
      exists (ds +:+ String (digit_char (n mod 10)) ""), (k + 1).
      split; [rewrite Hds, append_String; reflexivity |].
      split; [destruct ds; [congruence | discriminate] |].
      split.
      { rewrite all_chars_app, Hall. cbn [all_chars].
        rewrite is_digit_digit_char by (apply mod10_digit). reflexivity. }
      split; [lia |].
      intros rest a b. rewrite append_String, Hk.
      rewrite int_digits_digit by (apply mod10_digit).
      f_equal. rewrite Z.pow_add_r by lia. Z.div_mod_to_equations; lia.
Qed.

Lemma dec_spec n :
  0 <= n ->
  dec n <> EmptyString
  /\ all_chars is_digit (dec n) = true
  /\ forall rest b, int_digits (dec n +:+ rest) 0 b = int_digits rest n true.
Proof.
  intros Hn. unfold dec.
  destruct (dec_go_spec (Z.to_nat (Z.log2 n)) n "") as (ds & k & Hds & Hne & Hall & Hk0 & Hk).
  { rewrite Z2Nat.id by apply Z.log2_nonneg.
    destruct (Z.eq_dec n 0) as [-> | Hpos]; [cbn; lia |].
    pose proof (Z.log2_spec n ltac:(lia)) as Hs.
    replace (Z.log2 n + 1) with (Z.succ (Z.log2 n)) by lia. lia. }
  rewrite Hds, append_empty_r. split; [exact Hne |]. split; [exact Hall |].
  intros rest b. rewrite Hk. f_equal.
Qed.

Lemma all_chars_impl (P Q : ascii -> bool) s :
  (forall c, P c = true -> Q c = true) -> all_chars P s = true -> all_chars Q s = true.
Proof.
  intros HPQ. induction s as [| c s IH]; [reflexivity |]. cbn [all_chars].
  intros H. apply andb_true_iff in H. destruct H as [Hc Hs].
  rewrite (HPQ _ Hc), (IH Hs). reflexivity.
Qed.

Lemma is_digit_cases c : is_digit c = true -> exists d, 0 <= d <= 9 /\ c = digit_char d.
Proof.
  unfold is_digit. intros H. apply andb_true_iff in H. destruct H as [H1 H2].
  apply N.leb_le in H1, H2.
  exists (Z.of_N (N_of_ascii c) - 48). split; [lia |].
  unfold digit_char.
  replace (48 + Z.to_N (Z.of_N (N_of_ascii c) - 48))%N with (N_of_ascii c) by lia.
  symmetry. apply ascii_N_embedding.
Qed.

Lemma is_numeric_cases c :
  is_numeric c = true -> (exists d, 0 <= d <= 9 /\ c = digit_char d) \/ c = "-"%char.
Proof.
  unfold is_numeric. intros H. apply orb_true_iff in H. destruct H as [H | H].
  - left. apply is_digit_cases, H.
  - right. apply Ascii.eqb_eq in H. exact H.
Qed.

Lemma numeric_not_space c : is_numeric c = true -> not_space c = true.
Proof.
  intros H. destruct (is_numeric_cases c H) as [(d & Hd & ->) | ->]; [| reflexivity].
  by_digit d Hd.
Qed.

Lemma numeric_is_not sep c :
  is_numeric sep = false -> is_numeric c = true -> is_not sep c = true.
Proof.
  intros Hsep Hc. unfold is_not. destruct (Ascii.eqb c sep) eqn:E; [| reflexivity].
  apply Ascii.eqb_eq in E. congruence.
Qed.

(** [strip], [split] and [startswith] on strings without the characters
    they look for. *)
Lemma rstrip_clean s : all_chars not_space s = true -> rstrip s = s.
Proof.
  induction s as [| c s IH]; [reflexivity |]. cbn [all_chars rstrip].
  intros H. apply andb_true_iff in H. destruct H as [Hc Hs]. rewrite (IH Hs).
  unfold not_space in Hc. apply negb_true_iff in Hc. rewrite Hc.
  destruct s; reflexivity.
Qed.

Lemma strip_clean s : all_chars not_space s = true -> strip s = s.
Proof.
  intros H. unfold strip. rewrite (rstrip_clean s H).
  destruct s as [| c s]; [reflexivity |]. cbn [all_chars] in H.
  apply andb_true_iff in H. destruct H as [Hc _].
  unfold not_space in Hc. apply negb_true_iff in Hc. cbn [lstrip]. rewrite Hc. reflexivity.
Qed.

Lemma split_whole sep s : all_chars (is_not sep) s = true -> split sep s = [s].
Proof.
  induction s as [| c s IH]; [reflexivity |]. cbn [all_chars split].
  intros H. apply andb_true_iff in H. destruct H as [Hc Hs].
  unfold is_not in Hc. apply negb_true_iff in Hc. rewrite Hc, (IH Hs). reflexivity.
Qed.

Lemma split_field sep s r :
  all_chars (is_not sep) s = true -> split sep (s +:+ String sep r) = s :: split sep r.
Proof.
  induction s as [| c s IH].
  - intros _. change ("" +:+ String sep r) with (String sep r). cbn [split].
    rewrite Ascii.eqb_refl. reflexivity.
  - cbn [all_chars]. intros H. apply andb_true_iff in H. destruct H as [Hc Hs].
    unfold is_not in Hc. apply negb_true_iff in Hc.
    rewrite append_cons. cbn [split]. rewrite Hc, (IH Hs). reflexivity.
Qed.

Lemma zeros_digits k : all_chars is_digit (zeros k) = true.
Proof. induction k as [| k IH]; [reflexivity |]. cbn [zeros all_chars]. rewrite IH. reflexivity. Qed.

Lemma int_digits_zeros k s b :
  int_digits (zeros k +:+ s) 0 b = int_digits s 0 (if k is O then b else true).
Proof.
  revert b. induction k as [| k IH]; intros b; [reflexivity |].
  cbn [zeros]. rewrite append_cons. change "0"%char with (digit_char 0).
  rewrite int_digits_digit by lia. rewrite IH. destruct k; reflexivity.
Qed.

Lemma zfill_spec w n :
  0 <= n ->
  all_chars is_digit (zfill w (dec n)) = true
  /\ (exists d r, 0 <= d <= 9 /\ zfill w (dec n) = String (digit_char d) r)
  /\ int_digits (zfill w (dec n)) 0 false = Some n.
Proof.
  intros Hn. destruct (dec_spec n Hn) as (Hne & Hall & Hread). unfold zfill.
  split; [rewrite all_chars_app, zeros_digits, Hall; reflexivity |]. split.
  - destruct (w - String.length (dec n))%nat as [| k].
    + change (zeros 0 +:+ dec n) with (dec n).
      destruct (dec n) as [| c r]; [congruence |]. cbn [all_chars] in Hall.
      apply andb_true_iff in Hall. destruct Hall as [Hc _].
      destruct (is_digit_cases c Hc) as (d & Hd & ->). eauto.
    + exists 0, (zeros k +:+ dec n). split; [lia | reflexivity].
  - rewrite int_digits_zeros. rewrite <- (append_empty_r (dec n)), Hread. reflexivity.
Qed.

Lemma read_numeral_unsigned d r :
  0 <= d <= 9 ->
  read_numeral (String (digit_char d) r) = int_digits (String (digit_char d) r) 0 false.
Proof. intros Hd. by_digit d Hd. Qed.

Lemma format0_spec w n :
  all_chars is_numeric (format0 w n) = true
  /\ startswith (format0 w n) "#END" = false
  /\ read_numeral (format0 w n) = Some n.
Proof.
  unfold format0. destruct (n <? 0) eqn:E.
  - apply Z.ltb_lt in E.
    destruct (zfill_spec (w - 1) (- n)) as (Hall & _ & Hread); [lia |].
    split; [| split; [reflexivity |]].
    + cbn [all_chars]. change (is_numeric "-") with true. cbn [andb].
      eapply all_chars_impl; [| exact Hall]. intros c Hc. unfold is_numeric. rewrite Hc. reflexivity.
    + change (read_numeral (String "-" (zfill (w - 1) (dec (- n)))))
        with (Z.opp <$> int_digits (zfill (w - 1) (dec (- n))) 0 false).
      rewrite Hread. cbn. f_equal. lia.
  - apply Z.ltb_ge in E.
    destruct (zfill_spec w n E) as (Hall & (d & r & Hd & Heq) & Hread).
    split; [| split].
    + eapply all_chars_impl; [| exact Hall]. intros c Hc. unfold is_numeric. rewrite Hc. reflexivity.
    + rewrite Heq. by_digit d Hd.
    + rewrite Heq in *. rewrite read_numeral_unsigned by assumption. exact Hread.
Qed.

Lemma fmt_fields p :
  split comma (fmt p) = [format0 3 p.1.1; format0 2 p.1.2; format0 2 p.2].
Proof.
  destruct p as [[m b] t]. cbn [fmt fst snd].
  change ("," +:+ format0 2 b +:+ "," +:+ format0 2 t)
    with (String comma (format0 2 b +:+ String comma (format0 2 t))).
  assert (Hsep : forall w n, all_chars (is_not comma) (format0 w n) = true).
  { intros w n. eapply all_chars_impl; [| apply format0_spec].
    intros c. apply numeric_is_not. reflexivity. }
  rewrite !split_field, split_whole by apply Hsep. reflexivity.
Qed.

Lemma format0_inj w n n' : format0 w n = format0 w n' -> n = n'.
Proof.
  intros H. pose proof (proj2 (proj2 (format0_spec w n))) as Hn.
  rewrite H, (proj2 (proj2 (format0_spec w n'))) in Hn. congruence.
Qed.

Lemma fmt_inj p q : fmt p = fmt q -> p = q.
Proof.
  intros H. pose proof (fmt_fields p) as Hp. rewrite H, fmt_fields in Hp.
  destruct p as [[m b] t], q as [[m' b'] t']. cbn [fst snd] in Hp.
  injection Hp as H1 H2 H3.
  apply format0_inj in H1, H2, H3. congruence.
Qed.

(** [int] on a written integer of at most 4300 digits. *)
Lemma lstrip_by_clean space s :
  all_chars (fun c => negb (space c)) s = true -> lstrip_by space s = s.
Proof.
  destruct s as [| c s]; [reflexivity |]. cbn [all_chars lstrip_by].
  intros H. apply andb_true_iff in H. destruct H as [Hc _].
  apply negb_true_iff in Hc. rewrite Hc. reflexivity.
Qed.

Lemma rstrip_by_clean space s :
  all_chars (fun c => negb (space c)) s = true -> rstrip_by space s = s.
Proof.
  induction s as [| c s IH]; [reflexivity |]. cbn [all_chars rstrip_by].
  intros H. apply andb_true_iff in H. destruct H as [Hc Hs]. rewrite (IH Hs).
  apply negb_true_iff in Hc. rewrite Hc. destruct s; reflexivity.
Qed.

Lemma numeric_not_int_space c : is_numeric c = true -> negb (is_int_space c) = true.
Proof.
  intros H. destruct (is_numeric_cases c H) as [(d & Hd & ->) | ->]; [| reflexivity].
  by_digit d Hd.
Qed.

Lemma digit_count_nonneg s : 0 <= digit_count s.
Proof.
  induction s as [| c s IH]; [reflexivity |]. cbn [digit_count].
  destruct (digit_val c); lia.
Qed.

Lemma digit_count_app s t : digit_count (s +:+ t) = digit_count s + digit_count t.
Proof.
  induction s as [| c s IH]; [reflexivity |].
  rewrite append_cons. cbn [digit_count]. rewrite IH. lia.
Qed.

Lemma py_int_numeral s n :
  all_chars is_numeric s = true -> read_numeral s = Some n ->
  digit_count s <= max_str_digits -> py_int s = Ok n.
Proof.
  intros Hall Hread Hlen. unfold py_int.
  assert (Hclean : all_chars (fun c => negb (is_int_space c)) s = true).
  { eapply all_chars_impl; [apply numeric_not_int_space | exact Hall]. }
  rewrite (rstrip_by_clean _ _ Hclean), (lstrip_by_clean _ _ Hclean).
  destruct (Z.ltb_spec max_str_digits (digit_count s)) as [Hlt | _]; [lia |].
  change (of_option ValueError (read_numeral s) = Ok n). rewrite Hread. reflexivity.
Qed.

Lemma py_int_format0 w n :
  digit_count (format0 w n) <= max_str_digits -> py_int (format0 w n) = Ok n.
Proof. intros H. apply py_int_numeral; [apply format0_spec | apply format0_spec | exact H]. Qed.

Lemma fmt_digit_count p :
  digit_count (fmt p)
  = digit_count (format0 3 p.1.1) + digit_count (format0 2 p.1.2)
    + digit_count (format0 2 p.2).
Proof.
  destruct p as [[m b] t]. cbn [fmt fst snd]. rewrite !digit_count_app.
  change (digit_count ",") with 0. lia.
Qed.

Lemma fmt_reads_back p :
  digit_count (fmt p) <= max_str_digits -> unpack_ints3 (split comma (fmt p)) = Ok p.
Proof.
  intros H. rewrite fmt_digit_count in H.
  pose proof (digit_count_nonneg (format0 3 p.1.1)).
  pose proof (digit_count_nonneg (format0 2 p.1.2)).
  pose proof (digit_count_nonneg (format0 2 p.2)).
  rewrite fmt_fields. destruct p as [[m b] t]. cbn [unpack_ints3 fst snd] in *.
  rewrite !py_int_format0 by lia. reflexivity.
Qed.

Lemma fmt_numeric p : all_chars (fun c => is_numeric c || Ascii.eqb c comma) (fmt p) = true.
Proof.
  destruct p as [[m b] t]. cbn [fmt].
  assert (H : forall w n, all_chars (fun c => is_numeric c || Ascii.eqb c comma) (format0 w n) = true).
  { intros w n. eapply all_chars_impl; [| apply format0_spec]. intros c ->. reflexivity. }
  rewrite !all_chars_app, !H. reflexivity.
Qed.

Lemma rstrip_nl s : rstrip (s +:+ nl) = rstrip s.
Proof.
  induction s as [| c s IH]; [reflexivity |].
  rewrite append_cons. cbn [rstrip]. rewrite IH. reflexivity.
Qed.

Lemma strip_nl s : strip (s +:+ nl) = strip s.
Proof. unfold strip. rewrite rstrip_nl. reflexivity. Qed.

Lemma fmt_strip p : strip (fmt p +:+ nl) = fmt p.
Proof.
  rewrite strip_nl. apply strip_clean.
  eapply all_chars_impl; [| apply fmt_numeric]. intros c Hc.
  apply orb_true_iff in Hc. destruct Hc as [Hc | Hc]; [apply numeric_not_space, Hc |].
  apply Ascii.eqb_eq in Hc. subst c. reflexivity.
Qed.

Lemma fmt_not_END p : startswith (fmt p) "#END" = false.
Proof.
  destruct p as [[m b] t]. cbn [fmt].
  destruct (format0_spec 3 m) as (Hall & _ & Hint).
  destruct (format0 3 m) as [| c r]; [discriminate Hint |].
  cbn [all_chars] in Hall. apply andb_true_iff in Hall. destruct Hall as [Hc _].
  rewrite append_cons.
  destruct (is_numeric_cases c Hc) as [(d & Hd & ->) | ->]; [| reflexivity].
  by_digit d Hd.
Qed.

Lemma StronglySorted_app {A} (R : A -> A -> Prop) l1 l2 :
  StronglySorted R l1 -> StronglySorted R l2 ->
  (forall a b, a ∈ l1 -> b ∈ l2 -> R a b) ->
  StronglySorted R (l1 ++ l2).
Proof.
  induction 1 as [| x l1 Hs IH Hx]; intros H2 Hcross; [exact H2 |].
  cbn [app]. constructor.
  - apply IH; [exact H2 |]. intros a b Ha Hb. apply Hcross; [right; exact Ha | exact Hb].
  - apply Forall_app. split; [exact Hx |].
    apply Forall_forall. intros b Hb. apply Hcross; [left | exact Hb].
Qed.

Lemma StronglySorted_bind {A B} (S : A -> A -> Prop) (R : B -> B -> Prop)
    (f : A -> list B) l :
  StronglySorted S l ->
  (forall x, x ∈ l -> StronglySorted R (f x)) ->
  (forall x y a b, S x y -> a ∈ f x -> b ∈ f y -> R a b) ->
  StronglySorted R (l ≫= f).
Proof.
  induction 1 as [| x l Hs IH Hx]; intros Hf Hcross; [constructor |].
  rewrite bind_cons. apply StronglySorted_app.
  - apply Hf. left.
  - apply IH; [| exact Hcross]. intros y Hy. apply Hf. right. exact Hy.
  - intros a b Ha Hb. apply list_elem_of_bind in Hb. destruct Hb as (y & Hb & Hy).
    rewrite Forall_forall in Hx. eapply Hcross; [apply Hx, Hy | exact Ha | exact Hb].
Qed.

Lemma StronglySorted_fmap_mono {A B} (S : A -> A -> Prop) (R : B -> B -> Prop)
    (f : A -> B) l :
  (forall x y, S x y -> R (f x) (f y)) ->
  StronglySorted S l -> StronglySorted R (f <$> l).
Proof.
  intros Hmono. induction 1 as [| x l Hs IH Hx]; [constructor |].
  rewrite fmap_cons. constructor; [exact IH |].
  apply Forall_fmap. eapply Forall_impl; [exact Hx |]. intros y. apply Hmono.
Qed.

Lemma seqZ_increasing a n : StronglySorted Z.lt (seqZ a n).
Proof.
  destruct (Z.le_gt_cases n 0) as [Hn | Hn]; [rewrite seqZ_nil by exact Hn; constructor |].
  rewrite <- (Z2Nat.id n) by lia. generalize (Z.to_nat n) as k. clear. intros k. revert a.
  induction k as [| k IH]; intros a; [constructor |].
  rewrite seqZ_cons by lia. replace (Z.pred (Z.of_nat (S k))) with (Z.of_nat k) by lia.
  constructor; [apply IH |]. apply Forall_forall. intros x Hx.
  apply elem_of_seqZ in Hx. lia.
Qed.

Lemma triple_lt_spec m b t m' b' t' :
  triple_lt (m, b, t) (m', b', t') <-> m < m' \/ (m = m' /\ (b < b' \/ (b = b' /\ t < t'))).
Proof.
  unfold triple_lt, triple_compare.
  destruct (Z.compare_spec m m'); destruct (Z.compare_spec b b');
    destruct (Z.compare_spec t t'); split; intros; try lia; try reflexivity;
    try discriminate.
Qed.

Lemma grid_beats_sorted m beats :
  StronglySorted Z.lt beats -> StronglySorted triple_lt (grid_beats m beats).
Proof.
  intros Hb. unfold grid_beats.
  apply (StronglySorted_bind Z.lt triple_lt); [exact Hb | |].
  - intros b _. apply (StronglySorted_fmap_mono Z.lt); [| apply seqZ_increasing].
    intros t t' Ht. apply triple_lt_spec. lia.
  - intros b b' p q Hbb Hp Hq.
    apply list_elem_of_fmap in Hp, Hq. destruct Hp as (t & -> & _), Hq as (t' & -> & _).
    apply triple_lt_spec. lia.
Qed.

Lemma grid_sorted beat_info last_measure :
  StronglySorted triple_lt (grid beat_info last_measure).
Proof.
  unfold grid. apply (StronglySorted_bind Z.lt triple_lt); [apply seqZ_increasing | |].
  - intros m _. apply grid_beats_sorted, seqZ_increasing.
  - intros m m' p q Hmm Hp Hq. apply grid_beats_elem in Hp, Hq.
    destruct Hp as (b & t & -> & _), Hq as (b' & t' & -> & _).
    apply triple_lt_spec. lia.
Qed.

Lemma up_to_prefix e ps : exists rest, ps = up_to e ps ++ rest.
Proof.
  induction ps as [| p ps [rest IH]]; [exists []; reflexivity |].
  cbn [up_to]. destruct (within e p).
  - exists rest. cbn [app]. f_equal. exact IH.
  - exists (p :: ps). reflexivity.
Qed.

Lemma up_to_within e ps : Forall (fun p => triple_gt p e = false) (up_to e ps).
Proof.
  induction ps as [| p ps IH]; [constructor |]. cbn [up_to].
  destruct (within e p) eqn:E; [| constructor].
  constructor; [| exact IH]. unfold within in E. apply negb_true_iff in E. exact E.
Qed.

Lemma StronglySorted_prefix {A} (R : A -> A -> Prop) l1 l2 :
  StronglySorted R (l1 ++ l2) -> StronglySorted R l1.
Proof.
  induction l1 as [| x l1 IH]; [constructor |]. cbn [app]. intros H.
  inversion H as [| ? ? Hs Hx]; subst. constructor; [apply IH, Hs |].
  apply Forall_app in Hx. apply Hx.
Qed.

Lemma triple_lt_irrefl p : ~ triple_lt p p.
Proof. destruct p as [[m b] t]. rewrite triple_lt_spec. lia. Qed.

Lemma StronglySorted_NoDup {A} (R : A -> A -> Prop) l :
  (forall x, ~ R x x) -> StronglySorted R l -> NoDup l.
Proof.
  intros Hirr. induction 1 as [| x l Hs IH Hx]; [constructor |].
  constructor; [| exact IH]. intros Hin. rewrite Forall_forall in Hx.
  apply (Hirr x), Hx, Hin.
Qed.

Lemma generate_timestamps_empty end_position :
  generate_timestamps [] end_position
  = if 1 <=? end_position.1.1 then Raise IndexError else Ok [].
Proof.
  unfold generate_timestamps. destruct (1 <=? end_position.1.1) eqn:E.
  - apply Z.leb_le in E. rewrite seqZ_cons by lia. reflexivity.
  - apply Z.leb_gt in E. rewrite seqZ_nil by lia. reflexivity.
Qed.

Lemma generate_timestamps_positions beat_info end_position ts :
  generate_timestamps beat_info end_position = Ok ts ->
  exists rest, grid beat_info end_position.1.1 = up_to end_position (grid beat_info end_position.1.1) ++ rest
    /\ ts = fmt <$> up_to end_position (grid beat_info end_position.1.1).
Proof.
  intros H. destruct (up_to_prefix end_position (grid beat_info end_position.1.1)) as [rest Hrest].
  exists rest. split; [exact Hrest |].
  destruct beat_info as [| x r].
  - rewrite generate_timestamps_empty in H.
    destruct (1 <=? end_position.1.1) eqn:E; [discriminate |].
    apply Z.leb_gt in E. injection H as <-. unfold grid. rewrite seqZ_nil by lia. reflexivity.
  - rewrite generate_timestamps_spec in H by discriminate. congruence.
Qed.

(** X2. Whatever the beat info and the end position, the timestamps that
    [generate_timestamps] returns are the texts of positions that
    increase strictly in the order of tuples and of which none lies
    beyond the end position; no timestamp occurs twice. *)
Theorem timestamps_strictly_increasing (beat_info : list beat_entry) (end_position : triple)
    (timestamps : list string) :
  generate_timestamps beat_info end_position = Ok timestamps ->
  exists positions,
    timestamps = fmt <$> positions
    /\ StronglySorted triple_lt positions
    /\ Forall (fun p => triple_gt p end_position = false) positions
    /\ NoDup timestamps.
Proof.
  intros H. destruct (generate_timestamps_positions _ _ _ H) as (rest & Hrest & ->).
  exists (up_to end_position (grid beat_info end_position.1.1)).
  assert (Hs : StronglySorted triple_lt (up_to end_position (grid beat_info end_position.1.1))).
  { apply (StronglySorted_prefix _ _ rest). rewrite <- Hrest. apply grid_sorted. }
  split; [reflexivity |]. split; [exact Hs |]. split; [apply up_to_within |].
  apply NoDup_fmap_2; [intros p q; apply fmt_inj |].
  eapply StronglySorted_NoDup; [apply triple_lt_irrefl | exact Hs].
Qed.

(** X3. [generate_timestamps] raises exactly when the beat info is empty
    and the end position has a measure of at least 1, and the exception
    is the [IndexError] of indexing the empty list; with an end measure
    below 1 it returns the empty list, whatever the beat info. *)
Theorem generate_timestamps_raises (beat_info : list beat_entry) (end_position : triple) :
  (forall e, generate_timestamps beat_info end_position = Raise e
             <-> e = IndexError /\ beat_info = [] /\ 1 <= end_position.1.1)
  /\ (end_position.1.1 <= 0 -> generate_timestamps beat_info end_position = Ok []).
Proof.
  split.
  - intros e. destruct beat_info as [| x r].
    + rewrite generate_timestamps_empty. destruct (1 <=? end_position.1.1) eqn:E.
      * apply Z.leb_le in E. split; [intros [= <-]; auto | intros (-> & _); reflexivity].
      * apply Z.leb_gt in E. split; [discriminate | intros (_ & _ & ?); lia].
    + rewrite generate_timestamps_spec by discriminate.
      split; [discriminate | intros (_ & ? & _); discriminate].
  - intros H. unfold generate_timestamps. rewrite seqZ_nil by lia. reflexivity.
Qed.

(** X1. The text that [generate_timestamps] writes for a position reads
    back as that position: the three comma-separated fields of [fmt p]
    are integers that [int] reads as the measure, the beat and the tick
    of [p], and a file in which an end-position marker is directly
    followed by the line [fmt p] has the end position [p]. Two positions
    with the same text are equal. The text may hold at most 4300 digits,
    the limit of [int]. *)
Theorem position_text_round_trip (p : triple) (pre post : list string) (marker : string) :
  digit_count (fmt p) <= max_str_digits ->
  passed pre marker -> is_marker marker = true ->
  unpack_ints3 (split comma (fmt p)) = Ok p
  /\ get_end_position (pre ++ marker :: (fmt p +:+ nl) :: post) = Ok (Some p)
  /\ (forall q, fmt p = fmt q -> p = q).
Proof.
  intros Hlen Hpre Hm. split; [apply fmt_reads_back, Hlen |].
  split; [| intros q; apply fmt_inj].
  rewrite get_end_position_at; [| exact Hpre | exact Hm |].
  - unfold parse_position. rewrite fmt_strip, fmt_fields. cbn [take].
    rewrite <- fmt_fields, fmt_reads_back by exact Hlen. reflexivity.
  - unfold is_END. rewrite fmt_strip. apply fmt_not_END.
Qed.

Lemma position_text_round_trip_witness :
  unpack_ints3 (split comma (fmt (12, 3, 47))) = Ok (12, 3, 47)
  /\ get_end_position (["#FORMAT VERSION"; "#END POSITION"; "#END"] ++ "#END POSITION"
                         :: (fmt (12, 3, 47) +:+ nl) :: ["#END"]) = Ok (Some (12, 3, 47))
  /\ (forall q, fmt (12, 3, 47) = fmt q -> (12, 3, 47) = q).
Proof.
  apply (position_text_round_trip (12, 3, 47) ["#FORMAT VERSION"; "#END POSITION"; "#END"]
           ["#END"] "#END POSITION").
  - vm_compute. discriminate.
  - repeat split; intros H; first [discriminate H | reflexivity].
  - reflexivity.
Defined.

Lemma timestamps_strictly_increasing_witness :
  exists positions,
    ["001,01,00"; "001,01,01"; "001,01,02"] = fmt <$> positions
    /\ StronglySorted triple_lt positions
    /\ Forall (fun p => triple_gt p (1, 1, 2) = false) positions
    /\ NoDup ["001,01,00"; "001,01,01"; "001,01,02"].
Proof.
  apply (timestamps_strictly_increasing [BeatEntry 1 1 0 4 48] (1, 1, 2)). reflexivity.
Defined.

(** ** The note classifier on every input *)

Lemma parse_note_line_cases note_line :
  parse_note_line note_line
  = if overlong note_line then Raise ValueError else Ok (option_list (event_of note_line)).
Proof.
  unfold parse_note_line, overlong, event_of.
  destruct (split tab note_line) as [| a [| b [| c [| d r]]]]; reflexivity.
Qed.

Lemma parse_note_lines_spec notes :
  parse_note_lines notes
  = if existsb overlong notes then Raise ValueError else Ok (omap event_of notes).
Proof.
  induction notes as [| l rest IH]; [reflexivity |].
  cbn [parse_note_lines existsb omap list_omap]. rewrite parse_note_line_cases, IH.
  destruct (overlong l); [reflexivity |]. cbn [orb mbind outcome_bind].
  destruct (existsb overlong rest); [reflexivity |]. cbn [mbind outcome_bind].
  destruct (event_of l); reflexivity.
Qed.

Lemma parse_notes_in_tracks_spec (track_data : track_map) :
  match parse_notes_in_tracks track_data with
  | Ok structured_notes =>
    (forall track,
        structured_notes !! track
        = if non_playable track then None else omap event_of <$> track_data !! track)
    /\ (forall track notes,
           track_data !! track = Some notes -> non_playable track = false ->
           existsb overlong notes = false)
  | Raise e =>
    e = ValueError
    /\ exists track notes,
         track_data !! track = Some notes /\ non_playable track = false
         /\ existsb overlong notes = true
  end.
Proof.
  unfold parse_notes_in_tracks.
  apply (map_fold_weak_ind
           (fun (r : outcome (gmap string (list note))) (m : track_map) =>
              match r with
              | Ok structured_notes =>
                (forall track,
                    structured_notes !! track
                    = if non_playable track then None else omap event_of <$> m !! track)
                /\ (forall track notes,
                       m !! track = Some notes -> non_playable track = false ->
                       existsb overlong notes = false)
              | Raise e =>
                e = ValueError
                /\ exists track notes,
                     m !! track = Some notes /\ non_playable track = false
                     /\ existsb overlong notes = true
              end)).
  - split.
    + intros track. rewrite !lookup_empty. destruct (non_playable track); reflexivity.
    + intros track notes H. rewrite lookup_empty in H. discriminate.
  - intros i x m r Hi Hr. destruct r as [sn | e]; cbn [mbind outcome_bind].
    + destruct Hr as [Hlook Hshort].
      destruct (non_playable i) eqn:Ei.
      * split.
        -- intros track. rewrite Hlook. destruct (decide (i = track)) as [<- | Hne].
           ++ rewrite Ei. reflexivity.
           ++ rewrite lookup_insert_ne by exact Hne. reflexivity.
        -- intros track notes Ht Hp. destruct (decide (i = track)) as [<- | Hne];
             [congruence |]. rewrite lookup_insert_ne in Ht by exact Hne. eauto.
      * rewrite parse_note_lines_spec. destruct (existsb overlong x) eqn:Ex;
          cbn [mbind outcome_bind].
        -- split; [reflexivity |]. exists i, x. rewrite lookup_insert_eq. auto.
        -- split.
           ++ intros track. destruct (decide (i = track)) as [<- | Hne].
              ** rewrite !lookup_insert_eq, Ei. reflexivity.
              ** rewrite !lookup_insert_ne by exact Hne. apply Hlook.
           ++ intros track notes Ht Hp. destruct (decide (i = track)) as [<- | Hne].
              ** rewrite lookup_insert_eq in Ht. congruence.
              ** rewrite lookup_insert_ne in Ht by exact Hne. eauto.
    + destruct Hr as (-> & track & notes & Ht & Hp & Hex).
      split; [reflexivity |]. exists track, notes.
      rewrite lookup_insert_ne by congruence. auto.
Qed.

(** X4. [parse_notes_in_tracks] on every track mapping. It raises
    exactly when some line of a track other than TRACK1 and TRACK8 has
    more than three tab-separated fields, and the exception is
    [ValueError]. Otherwise its result has the keys of the mapping except
    TRACK1 and TRACK8, and holds under each the events of the lines with
    exactly three fields, in line order; lines with fewer fields are
    dropped, and every line of those tracks has at most three fields. *)
Theorem note_classifier_outcome (track_data : track_map) :
  match parse_notes_in_tracks track_data with
  | Ok structured_notes =>
    (forall track,
        structured_notes !! track
        = if non_playable track then None else omap event_of <$> track_data !! track)
    /\ (forall track notes note_line,
           track_data !! track = Some notes -> non_playable track = false ->
           note_line ∈ notes -> (length (split tab note_line) <= 3)%nat)
  | Raise e =>
    e = ValueError
    /\ exists track notes note_line,
         track_data !! track = Some notes /\ non_playable track = false
         /\ note_line ∈ notes /\ (3 < length (split tab note_line))%nat
  end.
Proof.
  pose proof (parse_notes_in_tracks_spec track_data) as H.
  destruct (parse_notes_in_tracks track_data) as [sn | e].
  - destruct H as [Hlook Hshort]. split; [exact Hlook |].
    intros track notes l Ht Hp Hl. specialize (Hshort _ _ Ht Hp).
    destruct (Nat.ltb_spec 3 (length (split tab l))) as [Hlt | Hge]; [| exact Hge].
    assert (existsb overlong notes = true); [| congruence].
    apply existsb_exists. exists l. split; [apply list_elem_of_In, Hl |].
    unfold overlong. apply Nat.ltb_lt, Hlt.
  - destruct H as (-> & track & notes & Ht & Hp & Hex). split; [reflexivity |].
    apply existsb_exists in Hex. destruct Hex as (l & Hl & Ho).
    exists track, notes, l. repeat split; try assumption.
    + apply list_elem_of_In, Hl.
    + unfold overlong in Ho. apply Nat.ltb_lt, Ho.
Qed.

(** ** The density counters *)

Lemma count_tracks_spec kind (structured_notes : gmap string (list note)) tracks d :
  count_tracks kind structured_notes tracks d
  = if forallb (fun track => bool_decide (is_Some (structured_notes !! track))) tracks
    then Ok (count_notes kind (track ← tracks; structured_notes !!! track) d)
    else Raise KeyError.
Proof.
  revert d. induction tracks as [| track rest IH]; intros d; [reflexivity |].
  cbn [count_tracks forallb]. rewrite bind_cons.
  unfold lookup_total at 1, map_lookup_total at 1.
  destruct (structured_notes !! track) as [notes |] eqn:E; cbn [mbind outcome_bind of_option].
  - rewrite bool_decide_eq_true_2 by eauto. cbn [andb default]. rewrite IH.
    destruct (forallb _ rest); [| reflexivity].
    unfold count_notes. rewrite fold_left_app. reflexivity.
  - rewrite bool_decide_eq_false_2 by (intros [? ?]; discriminate). reflexivity.
Qed.

Lemma get_bump k k' d :
  get k' (bump k d) = get k' d + (if String.eqb k k' then 1 else 0).
Proof.
  induction d as [| [k0 n] r IH]; cbn [bump get].
  - destruct (String.eqb k k'); lia.
  - destruct (String.eqb k0 k) eqn:E0; cbn [get].
    + apply String.eqb_eq in E0. subst k0. destruct (String.eqb k k'); lia.
    + destruct (String.eqb k0 k') eqn:E1; [| exact IH].
      apply String.eqb_eq in E1. subst k0. rewrite String.eqb_sym, E0. lia.
Qed.

Lemma bump_keys k d :
  (bump k d).*1 = if bool_decide (k ∈ d.*1) then d.*1 else d.*1 ++ [k].
Proof.
  induction d as [| [k0 n] r IH]; [reflexivity |].
  cbn [bump]. destruct (String.eqb k0 k) eqn:E0.
  - apply String.eqb_eq in E0. subst k0. rewrite fmap_cons. cbn [fst].
    rewrite bool_decide_eq_true_2 by left. reflexivity.
  - apply String.eqb_neq in E0. rewrite !fmap_cons, IH. cbn [fst].
    destruct (bool_decide (k ∈ r.*1)) eqn:Er.
    + apply bool_decide_eq_true_1 in Er. rewrite bool_decide_eq_true_2 by (right; exact Er).
      reflexivity.
    + apply bool_decide_eq_false_1 in Er.
      rewrite bool_decide_eq_false_2; [reflexivity |].
      intros Hin. apply elem_of_cons in Hin. destruct Hin as [-> | Hin]; congruence.
Qed.

Lemma bump_NoDup k d : NoDup d.*1 -> NoDup (bump k d).*1.
Proof.
  intros H. rewrite bump_keys. destruct (bool_decide (k ∈ d.*1)) eqn:E; [exact H |].
  apply bool_decide_eq_false_1 in E. apply NoDup_app. split; [exact H |].
  split; [| apply NoDup_singleton].
  intros x Hx Hk. apply list_elem_of_singleton in Hk. subst x. contradiction.
Qed.

Lemma bump_positive k d : Forall (fun x => 1 <= x.2) d -> Forall (fun x => 1 <= x.2) (bump k d).
Proof.
  induction 1 as [| [k0 n] r Hn Hr IH]; cbn [bump].
  - constructor; [cbn [snd]; lia | constructor].
  - destruct (String.eqb k0 k); constructor; cbn [snd] in *; try assumption; lia.
Qed.

Lemma total_bump k d : total (bump k d) = total d + 1.
Proof.
  unfold total. induction d as [| [k0 n] r IH]; [reflexivity |].
  cbn [bump]. destruct (String.eqb k0 k); cbn [foldr snd] in *; lia.
Qed.

Lemma count_notes_cons kind n notes d :
  count_notes kind (n :: notes) d
  = count_notes kind notes (if is_kind kind n then bump (timestamp n) d else d).
Proof.
  unfold count_notes, is_kind. cbn [fold_left].
  destruct (type n), kind; reflexivity.
Qed.

Lemma occurrences_cons kind ts n notes :
  occurrences kind ts (n :: notes)
  = occurrences kind ts notes
    + (if is_kind kind n && String.eqb (timestamp n) ts then 1 else 0).
Proof.
  unfold occurrences. cbn [List.filter].
  destruct (is_kind kind n && String.eqb (timestamp n) ts); cbn [length]; lia.
Qed.

(** What [count_notes] keeps and adds. *)
Lemma count_notes_spec kind notes : forall d,
  NoDup d.*1 -> Forall (fun x => 1 <= x.2) d ->
  NoDup (count_notes kind notes d).*1
  /\ Forall (fun x => 1 <= x.2) (count_notes kind notes d)
  /\ (forall ts, get ts (count_notes kind notes d) = get ts d + occurrences kind ts notes)
  /\ total (count_notes kind notes d)
     = total d + Z.of_nat (length (List.filter (is_kind kind) notes)).
Proof.
  induction notes as [| n notes IH]; intros d Hnd Hpos.
  - change (count_notes kind [] d) with d.
    split; [exact Hnd |]. split; [exact Hpos |]. split.
    + intros ts. unfold occurrences. cbn [List.filter length]. lia.
    + cbn [List.filter length]. lia.
  - rewrite count_notes_cons. destruct (is_kind kind n) eqn:Ek.
    + destruct (IH (bump (timestamp n) d)) as (H1 & H2 & H3 & H4);
        [apply bump_NoDup, Hnd | apply bump_positive, Hpos |].
      split; [exact H1 |]. split; [exact H2 |]. split.
      * intros ts. rewrite H3, get_bump, occurrences_cons, Ek. cbn [andb]. lia.
      * rewrite H4, total_bump. cbn [List.filter]. rewrite Ek. cbn [length]. lia.
    + destruct (IH d Hnd Hpos) as (H1 & H2 & H3 & H4).
      split; [exact H1 |]. split; [exact H2 |]. split.
      * intros ts. rewrite H3, occurrences_cons, Ek. cbn [andb]. lia.
      * rewrite H4. cbn [List.filter]. rewrite Ek. reflexivity.
Qed.

Lemma get_elem d :
  NoDup d.*1 -> Forall (fun x => 1 <= x.2) d ->
  forall k n, (k, n) ∈ d <-> get k d = n /\ 1 <= n.
Proof.
  induction d as [| [k0 n0] r IH]; intros Hnd Hpos k n.
  - cbn [get]. split; [intros H; apply elem_of_nil in H; contradiction | lia].
  - rewrite fmap_cons in Hnd. cbn [fst] in Hnd. apply NoDup_cons in Hnd.
    destruct Hnd as [Hfresh Hnd]. apply Forall_cons in Hpos. destruct Hpos as [Hn0 Hpos].
    cbn [snd] in Hn0. cbn [get]. rewrite elem_of_cons, (IH Hnd Hpos).
    destruct (String.eqb k0 k) eqn:E.
    + apply String.eqb_eq in E. subst k0. split.
      * intros [[= ->] | [Hg Hn]]; [lia |].
        exfalso. apply Hfresh. apply list_elem_of_fmap. exists (k, n). split; [reflexivity |].
        apply (IH Hnd Hpos). auto.
      * intros [-> _]. left. reflexivity.
    + apply String.eqb_neq in E. split.
      * intros [[= -> ->] | H]; [congruence | exact H].
      * intros H. right. exact H.
Qed.

Lemma total_perm d d' : d ≡ₚ d' -> total d = total d'.
Proof.
  unfold total. induction 1 as [| x l l' _ IH | x y l | l l' l'' _ IH1 _ IH2]; cbn [foldr];
    lia.
Qed.

Lemma get_not_in k d : k ∉ d.*1 -> get k d = 0.
Proof.
  induction d as [| [k0 n] r IH]; [reflexivity |]. rewrite fmap_cons. cbn [fst get].
  intros H. apply not_elem_of_cons in H. destruct H as [Hne H].
  destruct (String.eqb k0 k) eqn:E; [apply String.eqb_eq in E; congruence | apply IH, H].
Qed.

Lemma sorted_keys_strict d :
  NoDup d.*1 -> Sorted (fun x y => String.compare x.1 y.1 = Lt) (sorted d).
Proof.
  intros Hnd.
  assert (Hnd' : NoDup (sorted d).*1).
  { rewrite (fmap_Permutation fst _ _ (sorted_perm d)). exact Hnd. }
  pose proof (sorted_Sorted d) as Hs. revert Hs Hnd'.
  generalize (sorted d) as l. clear. intros l.
  induction 1 as [| x l Hs IH Hhd]; intros Hnd; [constructor |].
  rewrite fmap_cons in Hnd. apply NoDup_cons in Hnd. destruct Hnd as [Hfresh Hnd].
  constructor; [apply IH, Hnd |].
  destruct Hhd as [| y l' Hle]; constructor.
  unfold item_le in Hle. destruct (String.compare x.1 y.1) eqn:E; try reflexivity.
  - exfalso. apply String.compare_eq_iff in E. apply Hfresh. rewrite E, fmap_cons. left.
  - discriminate.
Qed.

Lemma forallb_false {A} (f : A -> bool) l :
  forallb f l = false -> exists x, x ∈ l /\ f x = false.
Proof.
  induction l as [| x l IH]; [discriminate |]. cbn [forallb].
  destruct (f x) eqn:E; cbn [andb].
  - intros H. destruct (IH H) as (y & Hy & Hf). exists y. split; [right; exact Hy | exact Hf].
  - intros _. exists x. split; [left | exact E].
Qed.

Lemma forallb_present (structured_notes : gmap string (list note)) tracks :
  forallb (fun track => bool_decide (is_Some (structured_notes !! track))) tracks = true
  <-> forall track, track ∈ tracks -> is_Some (structured_notes !! track).
Proof.
  rewrite forallb_forall. split.
  - intros H track Hin. apply list_elem_of_In in Hin. apply H in Hin.
    apply bool_decide_eq_true_1 in Hin. exact Hin.
  - intros H track Hin. apply bool_decide_eq_true_2, H, list_elem_of_In, Hin.
Qed.

Lemma count_relevant kind (structured_notes : gmap string (list note)) :
  count_tracks kind structured_notes relevant_tracks []
  = if forallb (fun track => bool_decide (is_Some (structured_notes !! track))) relevant_tracks
    then Ok (count_notes kind (playable_notes structured_notes) [])
    else Raise KeyError.
Proof. apply count_tracks_spec. Qed.

Lemma counted kind structured_notes :
  has_playable structured_notes ->
  exists d,
    count_tracks kind structured_notes relevant_tracks [] = Ok d
    /\ NoDup d.*1 /\ Forall (fun x => 1 <= x.2) d
    /\ (forall ts, get ts d = occurrences kind ts (playable_notes structured_notes))
    /\ total d = Z.of_nat (length (List.filter (is_kind kind) (playable_notes structured_notes))).
Proof.
  intros Hhas. rewrite count_relevant.
  rewrite (proj2 (forallb_present structured_notes relevant_tracks) Hhas).
  destruct (count_notes_spec kind (playable_notes structured_notes) [])
    as (H1 & H2 & H3 & H4); [constructor | constructor |].
  exists (count_notes kind (playable_notes structured_notes) []).
  split; [reflexivity |]. split; [exact H1 |]. split; [exact H2 |].
  split; [intros ts; rewrite (H3 ts); cbn [get]; lia | rewrite H4; change (total []) with 0; lia].
Qed.

Lemma sorted_entries kind structured_notes d :
  count_tracks kind structured_notes relevant_tracks [] = Ok d ->
  NoDup d.*1 -> Forall (fun x => 1 <= x.2) d ->
  (forall ts, get ts d = occurrences kind ts (playable_notes structured_notes)) ->
  forall ts n, (ts, n) ∈ sorted d
               <-> n = occurrences kind ts (playable_notes structured_notes) /\ 1 <= n.
Proof.
  intros _ Hnd Hpos Hget ts n. rewrite (sorted_perm d), (get_elem d Hnd Hpos), Hget.
  intuition congruence.
Qed.

(** X5. When the six playable tracks are keys of the structured notes,
    [identify_chip_timestamps] and [identify_hold_timestamps] return, and
    the result holds a timestamp exactly when a chip (a hold) of the six
    tracks has it, with the number of those notes as its count. *)
Theorem density_counts (structured_notes : gmap string (list note)) :
  has_playable structured_notes ->
  exists chips holds,
    identify_chip_timestamps structured_notes = Ok chips
    /\ identify_hold_timestamps structured_notes = Ok holds
    /\ (forall ts n, (ts, n) ∈ chips
          <-> n = occurrences chip ts (playable_notes structured_notes) /\ 1 <= n)
    /\ (forall ts n, (ts, n) ∈ holds
          <-> n = occurrences hold ts (playable_notes structured_notes) /\ 1 <= n).
Proof.
  intros Hhas.
  destruct (counted chip structured_notes Hhas) as (dc & Hc & Hc1 & Hc2 & Hc3 & _).
  destruct (counted hold structured_notes Hhas) as (dh & Hh & Hh1 & Hh2 & Hh3 & _).
  exists (sorted dc), (sorted dh). unfold identify_chip_timestamps, identify_hold_timestamps.
  rewrite Hc, Hh. split; [reflexivity |]. split; [reflexivity |].
  split; [eapply sorted_entries | eapply sorted_entries]; eassumption.
Qed.

Lemma sample_notes_has : has_playable sample_notes.
Proof.
  intros k Hk. revert k Hk. apply Forall_forall. vm_compute.
  repeat constructor; eexists; reflexivity.
Qed.

Lemma density_counts_witness :
  exists chips holds,
    identify_chip_timestamps sample_notes = Ok chips
    /\ identify_hold_timestamps sample_notes = Ok holds
    /\ (forall ts n, (ts, n) ∈ chips
          <-> n = occurrences chip ts (playable_notes sample_notes) /\ 1 <= n)
    /\ (forall ts n, (ts, n) ∈ holds
          <-> n = occurrences hold ts (playable_notes sample_notes) /\ 1 <= n).
Proof. apply density_counts, sample_notes_has. Defined.

(** X6. The items that [identify_chip_timestamps] and
    [identify_hold_timestamps] return are in strictly ascending string
    order of their timestamps: no timestamp occurs twice. *)
Theorem density_sorted (structured_notes : gmap string (list note)) (kind : note_type)
    (counts : list (string * Z)) :
  (match kind with
   | chip => identify_chip_timestamps structured_notes
   | hold => identify_hold_timestamps structured_notes
   end) = Ok counts ->
  Sorted key_lt counts /\ NoDup counts.*1.
Proof.
  intros H.
  assert (Hd : exists d, count_tracks kind structured_notes relevant_tracks [] = Ok d
                         /\ counts = sorted d).
  { destruct kind; apply bind_Ok in H; destruct H as (d & Hd & [= <-]); eauto. }
  destruct Hd as (d & Hd & ->). rewrite count_relevant in Hd.
  destruct (forallb _ relevant_tracks); [| discriminate]. injection Hd as <-.
  destruct (count_notes_spec kind (playable_notes structured_notes) [])
    as (H1 & _); [constructor | constructor |].
  split; [apply sorted_keys_strict, H1 |].
  rewrite (fmap_Permutation fst _ _ (sorted_perm _)). exact H1.
Qed.

Lemma density_sorted_witness :
  Sorted key_lt [("001,01,00", 2); ("001,01,24", 1)]
  /\ NoDup [("001,01,00", 2); ("001,01,24", 1)].*1.
Proof. apply (density_sorted sample_notes chip). vm_compute. reflexivity. Defined.

(** X7. Every note of the six playable tracks is counted once, as a chip
    or as a hold: the counts of the two results add up to the number of
    those notes. *)
Theorem density_partition (structured_notes : gmap string (list note))
    (chips holds : list (string * Z)) :
  identify_chip_timestamps structured_notes = Ok chips ->
  identify_hold_timestamps structured_notes = Ok holds ->
  total chips + total holds = Z.of_nat (length (playable_notes structured_notes)).
Proof.
  intros Hc Hh.
  apply bind_Ok in Hc, Hh. destruct Hc as (dc & Hc & [= <-]), Hh as (dh & Hh & [= <-]).
  rewrite count_relevant in Hc, Hh.
  destruct (forallb _ relevant_tracks); [| discriminate]. injection Hc as <-. injection Hh as <-.
  rewrite (total_perm _ _ (sorted_perm _)), (total_perm _ _ (sorted_perm _)).
  destruct (count_notes_spec chip (playable_notes structured_notes) []) as (_ & _ & _ & ->);
    [constructor | constructor |].
  destruct (count_notes_spec hold (playable_notes structured_notes) []) as (_ & _ & _ & ->);
    [constructor | constructor |].
  generalize (playable_notes structured_notes) as notes. clear. intros notes.
  change (total []) with 0.
  induction notes as [| n notes IH]; [reflexivity |].
  destruct n as [ts [|]]; cbn [List.filter is_kind type length]; lia.
Qed.

Lemma density_partition_witness :
  total [("001,01,00", 2); ("001,01,24", 1)] + total [("001,01,00", 1); ("001,02,00", 1)]
  = Z.of_nat (length (playable_notes sample_notes)).
Proof. apply (density_partition sample_notes); vm_compute; reflexivity. Defined.

(** X8. [identify_chip_timestamps] raises exactly when one of TRACK2 to
    TRACK7 is no key of the structured notes, and the exception is
    [KeyError]; [identify_hold_timestamps] raises on the same inputs. *)
Theorem density_missing_track (structured_notes : gmap string (list note)) (e : exn) :
  (identify_chip_timestamps structured_notes = Raise e
   <-> e = KeyError /\ exists track, track ∈ relevant_tracks /\ structured_notes !! track = None)
  /\ (identify_hold_timestamps structured_notes = Raise e
      <-> identify_chip_timestamps structured_notes = Raise e).
Proof.
  assert (H : forall kind,
             (count_tracks kind structured_notes relevant_tracks [] ≫= (fun d => Ok (sorted d)))
             = Raise e
             <-> e = KeyError
                 /\ exists track, track ∈ relevant_tracks /\ structured_notes !! track = None).
  { intros kind. rewrite count_relevant.
    destruct (forallb _ relevant_tracks) eqn:E; cbn [mbind outcome_bind].
    - split; [discriminate |]. intros (_ & track & Hin & Hnone).
      destruct (proj1 (forallb_present _ _) E track Hin) as [? ?]. congruence.
    - split; [| intros (-> & _); reflexivity]. intros [= <-]. split; [reflexivity |].
      destruct (forallb_false _ _ E) as (track & Hin & Hf). exists track. split; [exact Hin |].
      apply bool_decide_eq_false_1 in Hf.
      destruct (structured_notes !! track); [exfalso; apply Hf; eauto | reflexivity]. }
  split; [apply (H chip) |]. unfold identify_chip_timestamps, identify_hold_timestamps.
  rewrite (H chip), (H hold). reflexivity.
Qed.

Lemma relevant_playable track : track ∈ relevant_tracks -> non_playable track = false.
Proof.
  intros Hk. apply list_elem_of_In in Hk. vm_compute in Hk.
  repeat (destruct Hk as [<- | Hk]; [reflexivity |]). contradiction.
Qed.

Lemma bind_ext_in {A B} (f g : A -> list B) l :
  (forall x, x ∈ l -> f x = g x) -> l ≫= f = l ≫= g.
Proof.
  induction l as [| x l IH]; intros H; [reflexivity |].
  rewrite !bind_cons, (H x) by left. f_equal. apply IH. intros y Hy. apply H. right. exact Hy.
Qed.

(** X9. The classifier and the counters compose: on a track mapping with
    the eight keys, as [parse_file] returns it, the structured notes that
    [parse_notes_in_tracks] returns hold the six playable tracks, so that
    both counters return; the notes they count are the events of the
    lines of TRACK2 to TRACK7, in track and line order. *)
Theorem density_after_classifier (track_data : track_map)
    (structured_notes : gmap string (list note)) :
  has_tracks track_data ->
  parse_notes_in_tracks track_data = Ok structured_notes ->
  playable_notes structured_notes
    = (track ← relevant_tracks; omap event_of (track_data !!! track))
  /\ exists chips holds,
       identify_chip_timestamps structured_notes = Ok chips
       /\ identify_hold_timestamps structured_notes = Ok holds.
Proof.
  intros Hhas Hparse. pose proof (parse_notes_in_tracks_spec track_data) as H.
  rewrite Hparse in H. destruct H as [Hlook _].
  assert (Hrel : forall track, track ∈ relevant_tracks ->
                   structured_notes !! track = omap event_of <$> track_data !! track).
  { intros track Hin. rewrite Hlook, (relevant_playable _ Hin). reflexivity. }
  split.
  - unfold playable_notes. apply bind_ext_in. intros track Hin.
    unfold lookup_total, map_lookup_total. rewrite (Hrel _ Hin).
    destruct (Hhas track (relevant_in_keys _ Hin)) as [b ->]. reflexivity.
  - assert (Hp : has_playable structured_notes).
    { intros track Hin. rewrite (Hrel _ Hin).
      destruct (Hhas track (relevant_in_keys _ Hin)) as [b ->]. eauto. }
    destruct (counted chip structured_notes Hp) as (dc & Hc & _).
    destruct (counted hold structured_notes Hp) as (dh & Hh & _).
    exists (sorted dc), (sorted dh). unfold identify_chip_timestamps, identify_hold_timestamps.
    rewrite Hc, Hh. split; reflexivity.
Qed.

Lemma density_after_classifier_witness :
  exists structured_notes,
    parse_notes_in_tracks sample_tracks = Ok structured_notes
    /\ playable_notes structured_notes
       = (track ← relevant_tracks; omap event_of (sample_tracks !!! track))
    /\ exists chips holds,
         identify_chip_timestamps structured_notes = Ok chips
         /\ identify_hold_timestamps structured_notes = Ok holds.
Proof.
  destruct (parse_notes_in_tracks sample_tracks) as [structured_notes | e] eqn:E;
    [| vm_compute in E; discriminate E].
  exists structured_notes. split; [reflexivity |].
  exact (density_after_classifier sample_tracks structured_notes sample_tracks_has E).
Defined.

(** ** The beat-info section *)

Lemma append_assoc s t u : (s +:+ t) +:+ u = s +:+ (t +:+ u).
Proof. induction s as [| c s IH]; [reflexivity |]. rewrite !append_cons, IH. reflexivity. Qed.

Lemma rstrip_keep s t :
  all_chars not_space t = true -> t <> EmptyString -> rstrip (s +:+ t) = s +:+ t.
Proof.
  intros Ht Hne. induction s as [| c s IH]; [apply rstrip_clean, Ht |].
  rewrite append_cons. cbn [rstrip]. rewrite IH.
  destruct (s +:+ t) eqn:E; [| reflexivity].
  destruct s; [| discriminate E]. change ("" +:+ t) with t in E. congruence.
Qed.

Lemma strip_keep c s t :
  not_space c = true -> all_chars not_space t = true -> t <> EmptyString ->
  strip (String c s +:+ t +:+ nl) = String c s +:+ t.
Proof.
  intros Hc Ht Hne. rewrite <- append_assoc, strip_nl. unfold strip.
  rewrite rstrip_keep by assumption. rewrite append_cons. cbn [lstrip].
  unfold not_space in Hc. apply negb_true_iff in Hc. rewrite Hc. reflexivity.
Qed.

Lemma format0_head w n :
  exists c r, format0 w n = String c r /\ is_numeric c = true.
Proof.
  destruct (format0_spec w n) as (Hall & _ & Hint).
  destruct (format0 w n) as [| c r]; [discriminate Hint |].
  cbn [all_chars] in Hall. apply andb_true_iff in Hall. destruct Hall as [Hc _]. eauto.
Qed.

Lemma numeric_not_hash c : is_numeric c = true -> Ascii.eqb "#" c = false.
Proof.
  intros H. destruct (is_numeric_cases c H) as [(d & Hd & ->) | ->]; [| reflexivity].
  by_digit d Hd.
Qed.

Lemma regroup_fields X Y Z :
  X +:+ String tab (Y +:+ String tab Z)
  = (X +:+ String tab (Y +:+ String tab "")) +:+ Z.
Proof.
  rewrite (append_assoc X). f_equal. rewrite append_cons. f_equal.
  rewrite (append_assoc Y). reflexivity.
Qed.

Lemma fmt_head p : exists c r, fmt p = String c r /\ is_numeric c = true.
Proof.
  destruct p as [[m b] t]. cbn [fmt].
  destruct (format0_head 3 m) as (c & r & -> & Hc).
  exists c. eexists. split; [apply append_cons | exact Hc].
Qed.

Lemma beat_line_shape e :
  exists c s,
    is_numeric c = true
    /\ beat_line e = String c s +:+ format0 1 (ticks_per_beat e).
Proof.
  unfold beat_line. destruct (fmt_head (measure e, beat e, tick e)) as (c & r & -> & Hc).
  exists c. eexists. split; [exact Hc |].
  rewrite regroup_fields. rewrite (append_cons c r). reflexivity.
Qed.

Lemma format0_clean w n :
  all_chars not_space (format0 w n) = true /\ format0 w n <> EmptyString.
Proof.
  destruct (format0_spec w n) as (Hall & _ & Hint). split.
  - eapply all_chars_impl; [apply numeric_not_space | exact Hall].
  - intros E. rewrite E in Hint. discriminate Hint.
Qed.

Lemma beat_line_strip e : strip (beat_line e +:+ nl) = beat_line e.
Proof.
  destruct (beat_line_shape e) as (c & s & Hc & ->).
  rewrite append_assoc. apply strip_keep; [apply numeric_not_space, Hc | |];
    apply format0_clean.
Qed.

Lemma beat_line_not_marker e q :
  startswith (beat_line e) (String "#" q) = false.
Proof.
  destruct (beat_line_shape e) as (c & s & Hc & ->).
  rewrite append_cons. cbn [startswith]. rewrite (numeric_not_hash c Hc). reflexivity.
Qed.

Lemma beat_line_fields e :
  split tab (beat_line e)
  = [fmt (measure e, beat e, tick e); format0 1 (beats_per_measure e);
     format0 1 (ticks_per_beat e)].
Proof.
  unfold beat_line.
  assert (Hf : forall w n, all_chars (is_not tab) (format0 w n) = true).
  { intros w n. eapply all_chars_impl; [| apply format0_spec].
    intros c. apply numeric_is_not. reflexivity. }
  rewrite split_field.
  - rewrite split_field by apply Hf. rewrite split_whole by apply Hf. reflexivity.
  - eapply all_chars_impl; [| apply fmt_numeric]. intros c Hc.
    apply orb_true_iff in Hc. destruct Hc as [Hc | Hc].
    + apply (numeric_is_not tab c); [reflexivity | exact Hc].
    + apply Ascii.eqb_eq in Hc. subst c. reflexivity.
Qed.

Lemma beat_line_digit_count e :
  digit_count (beat_line e)
  = digit_count (fmt (measure e, beat e, tick e))
    + digit_count (format0 1 (beats_per_measure e))
    + digit_count (format0 1 (ticks_per_beat e)).
Proof.
  assert (Htab : forall s, digit_count (String tab s) = digit_count s) by reflexivity.
  unfold beat_line. rewrite digit_count_app, Htab, digit_count_app, Htab. lia.
Qed.

Lemma parse_beat_info_entries es rest :
  Forall (fun e => within_digit_limit (beat_line e)) es ->
  parse_beat_info_loop true (((fun e => beat_line e +:+ nl) <$> es) ++ rest)
  = more ← parse_beat_info_loop true rest; Ok (es ++ more).
Proof.
  induction 1 as [| e es He _ IH].
  - cbn [fmap list_fmap app]. destruct (parse_beat_info_loop true rest); reflexivity.
  - rewrite fmap_cons. cbn [app parse_beat_info_loop].
    rewrite beat_line_strip, !beat_line_not_marker. cbn [andb].
    unfold within_digit_limit in He. rewrite beat_line_digit_count in He.
    pose proof (digit_count_nonneg (fmt (measure e, beat e, tick e))).
    pose proof (digit_count_nonneg (format0 1 (beats_per_measure e))).
    pose proof (digit_count_nonneg (format0 1 (ticks_per_beat e))).
    rewrite beat_line_fields, fmt_reads_back by lia. cbn [mbind outcome_bind].
    rewrite !py_int_format0 by lia. cbn [mbind outcome_bind].
    rewrite IH. destruct e as [m b t bpm tpb].
    destruct (parse_beat_info_loop true rest); reflexivity.
Qed.

Lemma parse_beat_info_outside pre rest :
  Forall (fun raw => opens_beat_info raw = false) pre ->
  parse_beat_info_loop false (pre ++ rest) = parse_beat_info_loop false rest.
Proof.
  induction 1 as [| raw pre Hraw _ IH]; [reflexivity |].
  cbn [app parse_beat_info_loop]. unfold opens_beat_info in Hraw. rewrite Hraw.
  rewrite andb_false_r. exact IH.
Qed.


(** X10. [parse_beat_info] reads back a beat-info section: for a file
    whose only ["#BEAT INFO"] line is followed by one line per entry,
    written as the position, the beats per measure and the ticks per beat
    with tabs between them, and then by ["#END"], it returns exactly
    those entries, in order, whatever the other lines of the file are.
    Each line may hold at most 4300 digits, the limit of [int]. *)
Theorem beat_info_round_trip (pre post : list string) (entries : list beat_entry) :
  Forall (fun raw => opens_beat_info raw = false) pre ->
  Forall (fun raw => opens_beat_info raw = false) post ->
  Forall (fun e => within_digit_limit (beat_line e)) entries ->
  parse_beat_info
    (pre ++ ("#BEAT INFO" +:+ nl) :: ((fun e => beat_line e +:+ nl) <$> entries)
         ++ ("#END" +:+ nl) :: post)
  = Ok entries.
Proof.
  intros Hpre Hpost Hentries. unfold parse_beat_info.
  rewrite parse_beat_info_outside by exact Hpre.
  cbn [parse_beat_info_loop].
  change (startswith (strip ("#BEAT INFO" +:+ nl)) "#BEAT INFO") with true. cbv iota.
  rewrite parse_beat_info_entries by exact Hentries.
  cbn [parse_beat_info_loop].
  change (startswith (strip ("#END" +:+ nl)) "#BEAT INFO") with false.
  change (startswith (strip ("#END" +:+ nl)) "#END") with true. cbn [andb]. cbv iota.
  rewrite <- (app_nil_r post), parse_beat_info_outside by exact Hpost.
  cbn [parse_beat_info_loop mbind outcome_bind]. rewrite app_nil_r. reflexivity.
Qed.

Lemma beat_info_round_trip_witness :
  parse_beat_info
    (["#FORMAT VERSION" +:+ nl; "#END" +:+ nl]
       ++ ("#BEAT INFO" +:+ nl)
       :: ((fun e => beat_line e +:+ nl) <$> [BeatEntry 1 1 0 4 4; BeatEntry 17 1 0 3 4])
       ++ ("#END" +:+ nl) :: ["#END POSITION" +:+ nl; "040,01,00" +:+ nl])
  = Ok [BeatEntry 1 1 0 4 4; BeatEntry 17 1 0 3 4].
Proof.
  apply beat_info_round_trip.
  - repeat constructor.
  - repeat constructor.
  - repeat (constructor; [vm_compute; discriminate |]). constructor.
Defined.

(** X11. A file without a ["#BEAT INFO"] line has the empty beat info,
    and if its end position has a measure of at least 1, [main] ends with
    the [IndexError] that [generate_timestamps] raises on the empty list,
    before any file is written. *)
Theorem missing_beat_info (s_random : bool) (base text : string) (p : triple) :
  Forall (fun raw => opens_beat_info raw = false) (readlines text) ->
  get_end_position (readlines text) = Ok (Some p) -> 1 <= p.1.1 ->
  parse_beat_info (readlines text) = Ok []
  /\ main s_random base (Some text) = Run [] (Crashed IndexError).
Proof.
  intros Hno Hend Hp.
  assert (Hb : parse_beat_info (readlines text) = Ok []).
  { unfold parse_beat_info. rewrite <- (app_nil_r (readlines text)).
    rewrite parse_beat_info_outside by exact Hno. reflexivity. }
  split; [exact Hb |]. unfold main, analyse. rewrite Hb, Hend. cbn [mbind outcome_bind].
  rewrite generate_timestamps_empty.
  destruct (Z.leb_spec 1 p.1.1) as [_ | Hlt]; [reflexivity | lia].
Qed.

Lemma missing_beat_info_witness :
  parse_beat_info (readlines ("#END POSITION" +:+ nl +:+ "001,01,00" +:+ nl +:+ "#END" +:+ nl))
  = Ok []
  /\ main false "chart"
       (Some ("#END POSITION" +:+ nl +:+ "001,01,00" +:+ nl +:+ "#END" +:+ nl))
     = Run [] (Crashed IndexError).
Proof.
  apply (missing_beat_info false "chart" _ (1, 1, 0)).
  - vm_compute. repeat constructor.
  - reflexivity.
  - vm_compute. discriminate.
Defined.

(** ** The single random order *)

Lemma fill_total (source : track_map) pairs :
  Forall (fun p => is_Some (source !! p.1)) pairs ->
  forall target, exists target', fill source target pairs = Ok target'.
Proof.
  induction 1 as [| [o k] rest [b Hb] _ IH]; intros target; [eexists; reflexivity |].
  cbn [fst] in Hb. cbn [fill]. rewrite Hb. cbn [of_option mbind outcome_bind]. apply IH.
Qed.

Lemma fill_missing (source : track_map) pairs :
  Exists (fun p => source !! p.1 = None) pairs ->
  forall target, fill source target pairs = Raise KeyError.
Proof.
  induction pairs as [| [o k] rest IH]; intros Hex target.
  - apply Exists_nil in Hex. contradiction.
  - cbn [fill]. destruct (source !! o) as [b |] eqn:Eo; [| reflexivity].
    cbn [of_option mbind outcome_bind]. apply IH.
    apply Exists_cons in Hex. destruct Hex as [Hex | Hex]; [| exact Hex].
    cbn [fst] in Hex. congruence.
Qed.

Lemma fill_lookup (source : track_map) pairs :
  forall target target',
    fill source target pairs = Ok target' ->
    NoDup pairs.*2 ->
    (forall o k, (o, k) ∈ pairs -> target' !! k = source !! o)
    /\ (forall k, k ∉ pairs.*2 -> target' !! k = target !! k).
Proof.
  induction pairs as [| [o k] rest IH]; intros target target' H Hnd.
  - injection H as <-. split; [| reflexivity].
    intros o k Hin. apply elem_of_nil in Hin. contradiction.
  - cbn [fill] in H. apply bind_Ok in H. destruct H as (b & Hb & H).
    apply of_option_Ok in Hb. rewrite fmap_cons in Hnd. cbn [snd] in Hnd.
    apply NoDup_cons in Hnd. destruct Hnd as [Hfresh Hnd].
    destruct (IH _ _ H Hnd) as [Hin Hout]. split.
    + intros o' k' Hk. apply elem_of_cons in Hk. destruct Hk as [[= -> ->] | Hk].
      * rewrite (Hout k Hfresh), lookup_insert_eq, Hb. reflexivity.
      * apply Hin, Hk.
    + intros k' Hk. rewrite fmap_cons in Hk. cbn [snd] in Hk.
      apply not_elem_of_cons in Hk. destruct Hk as [Hne Hk].
      rewrite (Hout k' Hk), lookup_insert_ne by congruence. reflexivity.
Qed.

Lemma button_not_effect k : k ∈ button_tracks -> k ∉ effect_tracks.
Proof.
  intros Hk. apply list_elem_of_In in Hk. vm_compute in Hk.
  repeat (destruct Hk as [<- | Hk];
          [intros H; apply list_elem_of_In in H; vm_compute in H;
           repeat (destruct H as [H | H]; [discriminate H |]); exact H |]).
  contradiction.
Qed.

Lemma relevant_split k : k ∈ relevant_tracks <-> k ∈ button_tracks \/ k ∈ effect_tracks.
Proof.
  assert (Hp : relevant_tracks ≡ₚ button_tracks ++ effect_tracks)
    by (apply (bool_decide_unpack _); vm_compute; exact I).
  rewrite Hp, elem_of_app. reflexivity.
Qed.

Lemma Forall2_impl_elem {A B} (P Q : A -> B -> Prop) l1 l2 :
  Forall2 P l1 l2 -> (forall x y, x ∈ l1 -> P x y -> Q x y) -> Forall2 Q l1 l2.
Proof.
  induction 1 as [| x y l1 l2 Hxy _ IH]; intros Himp; [constructor |].
  constructor; [apply Himp; [left | exact Hxy] |].
  apply IH. intros x' y' Hin. apply Himp. right. exact Hin.
Qed.

(** What [randomize_tracks] returns for a shuffle of the four button
    tracks. *)
Lemma randomize_tracks_spec shuffled swap (track_data : track_map) :
  (forall k, k ∈ relevant_tracks -> is_Some (track_data !! k)) ->
  Permutation button_tracks shuffled ->
  exists randomized,
    randomize_tracks shuffled swap track_data
    = Ok (randomized, shuffled ++ effect_sources swap)
    /\ receives randomized track_data shuffled button_tracks
    /\ receives randomized track_data effect_tracks (effect_sources swap)
    /\ (forall k, k ∉ relevant_tracks -> randomized !! k = track_data !! k).
Proof.
  intros Hhas Hperm.
  assert (Hnd : NoDup shuffled).
  { rewrite <- Hperm. apply (bool_decide_unpack _). vm_compute. exact I. }
  assert (Hlen : length shuffled = 4%nat) by (rewrite <- Hperm; reflexivity).
  assert (Hbut : forall k, k ∈ shuffled -> k ∈ button_tracks)
    by (intros k Hk; rewrite Hperm; exact Hk).
  destruct shuffled as [| s0 [| s1 [| s2 [| s3 [| ? ?]]]]]; try discriminate. clear Hlen.
  unfold randomize_tracks.
  (* the copy of the six tracks *)
  set (kept := ["TRACK3"; "TRACK4"; "TRACK5"; "TRACK6"] ++ ["TRACK2"; "TRACK7"]).
  assert (Hkept : forall k, k ∈ kept -> k ∈ relevant_tracks).
  { intros k Hk. apply relevant_split. apply elem_of_app in Hk. exact Hk. }
  destruct (fill_total track_data (zip kept kept)) with (target := (∅ : track_map))
    as [original Horig].
  { apply Forall_forall. intros [o k] Hin. cbn [fst]. apply Hhas, Hkept.
    apply elem_of_zip_l in Hin. exact Hin. }
  rewrite Horig. cbn [mbind outcome_bind].
  destruct (fill_lookup _ _ _ _ Horig) as [Horig_in _].
  { apply (bool_decide_unpack _). vm_compute. exact I. }
  assert (Ho : forall k, k ∈ kept -> original !! k = track_data !! k).
  { intros k Hk. apply Horig_in. subst kept. apply list_elem_of_In in Hk. vm_compute in Hk.
    repeat (destruct Hk as [<- | Hk]; [apply list_elem_of_In; vm_compute; tauto |]).
    contradiction. }
  (* the shuffle *)
  assert (Hpairs : imap (fun (i : nat) (shuffled_track : string) =>
                           ("TRACK" +:+ dec (Z.of_nat i + 3), shuffled_track))
                        [s0; s1; s2; s3]
                   = zip button_tracks [s0; s1; s2; s3]) by reflexivity.
  rewrite Hpairs. clear Hpairs.
  destruct (fill_total original (zip button_tracks [s0; s1; s2; s3])) with (target := track_data)
    as [shuffled_data Hsh].
  { apply Forall_forall. intros [o k] Hin. cbn [fst]. apply elem_of_zip_l in Hin.
    rewrite Ho by (subst kept; apply elem_of_app; left; exact Hin).
    apply Hhas, relevant_split. left. exact Hin. }
  rewrite Hsh. cbn [mbind outcome_bind].
  destruct (fill_lookup _ _ _ _ Hsh) as [Hsh_in Hsh_out].
  { replace ((zip button_tracks [s0; s1; s2; s3]).*2) with [s0; s1; s2; s3] by reflexivity.
    exact Hnd. }
  replace ((zip button_tracks [s0; s1; s2; s3]).*2) with [s0; s1; s2; s3] in Hsh_out
    by reflexivity.
  assert (Heff : forall k, k ∈ effect_tracks -> k ∉ [s0; s1; s2; s3]).
  { intros k Hk Hin. apply (button_not_effect k); [apply Hbut, Hin | exact Hk]. }
  assert (Hbuttons : Forall2 (fun target source => shuffled_data !! target = track_data !! source)
                             [s0; s1; s2; s3] button_tracks).
  { assert (Hone : forall o k, (o, k) ∈ zip button_tracks [s0; s1; s2; s3] ->
                     shuffled_data !! k = track_data !! o).
    { intros o k Hin. rewrite (Hsh_in o k Hin). apply Ho. subst kept.
      apply elem_of_app. left. apply elem_of_zip_l in Hin. exact Hin. }
    unfold button_tracks.
    repeat (constructor; [apply Hone; apply list_elem_of_In; cbn; tauto |]).
    constructor. }
  assert (H2 : shuffled_data !! "TRACK2" = track_data !! "TRACK2").
  { apply Hsh_out, Heff. apply list_elem_of_In. vm_compute. tauto. }
  assert (H7 : shuffled_data !! "TRACK7" = track_data !! "TRACK7").
  { apply Hsh_out, Heff. apply list_elem_of_In. vm_compute. tauto. }
  assert (Hother : forall k, k ∉ relevant_tracks -> shuffled_data !! k = track_data !! k).
  { intros k Hk. apply Hsh_out. intros Hin. apply Hk, relevant_split. left. apply Hbut, Hin. }
  destruct swap; cbn [effect_sources].
  - (* the two effect tracks change places *)
    destruct (fill_total shuffled_data [("TRACK7", "TRACK2"); ("TRACK2", "TRACK7")])
      with (target := shuffled_data) as [swapped Hsw].
    { repeat constructor; cbn [fst]; [rewrite H7 | rewrite H2]; apply Hhas;
        apply list_elem_of_In; vm_compute; tauto. }
    rewrite Hsw. cbn [mbind outcome_bind].
    destruct (fill_lookup _ _ _ _ Hsw) as [Hsw_in Hsw_out].
    { apply (bool_decide_unpack _). vm_compute. exact I. }
    cbn [fmap list_fmap snd] in Hsw_out.
    exists swapped. split; [reflexivity |]. split; [| split].
    + apply (Forall2_impl_elem _ _ _ _ Hbuttons). intros target source Ht Heq.
      rewrite <- Heq. apply Hsw_out. intros Hin. apply (Heff target); [exact Hin | exact Ht].
    + unfold receives, effect_tracks. repeat constructor.
      * rewrite (Hsw_in "TRACK7" "TRACK2") by (apply list_elem_of_In; vm_compute; tauto).
        exact H7.
      * rewrite (Hsw_in "TRACK2" "TRACK7") by (apply list_elem_of_In; vm_compute; tauto).
        exact H2.
    + intros k Hk. rewrite Hsw_out; [apply Hother, Hk |].
      intros Hin. apply Hk, relevant_split. right. exact Hin.
  - exists shuffled_data. split; [reflexivity |]. split; [exact Hbuttons |]. split; [| exact Hother].
    unfold receives, effect_tracks. repeat constructor; assumption.
Qed.

Lemma has_tracks_playable (track_data : track_map) :
  has_tracks track_data -> forall k, k ∈ relevant_tracks -> is_Some (track_data !! k).
Proof. intros Hhas k Hk. apply Hhas, relevant_in_keys, Hk. Qed.

Lemma effect_sources_perm swap : Permutation effect_tracks (effect_sources swap).
Proof. destruct swap; [apply perm_swap | reflexivity]. Qed.

(** X12. [randomize_tracks], for a mapping that holds the six playable
    tracks and for every shuffle of the four button tracks, returns: the
    i-th track of the shuffle receives the buffer of the i-th button
    track, the two effect tracks change places exactly when the coin
    says so, every other key keeps its buffer, and the buffers of the
    tracks 2-7 are, as a multiset, those of the original. The order it
    returns is the shuffle followed by the two effect sources. *)
Theorem randomize_tracks_conserves (shuffled : list string) (swap : bool)
    (track_data : track_map) :
  (forall k, k ∈ relevant_tracks -> is_Some (track_data !! k)) ->
  Permutation button_tracks shuffled ->
  exists randomized,
    randomize_tracks shuffled swap track_data
    = Ok (randomized, shuffled ++ effect_sources swap)
    /\ receives randomized track_data shuffled button_tracks
    /\ receives randomized track_data effect_tracks (effect_sources swap)
    /\ (forall k, k ∉ relevant_tracks -> randomized !! k = track_data !! k)
    /\ (fun k => randomized !!! k) <$> relevant_tracks
       ≡ₚ (fun k => track_data !!! k) <$> relevant_tracks.
Proof.
  intros Hhas Hperm.
  destruct (randomize_tracks_spec shuffled swap track_data Hhas Hperm)
    as (randomized & Hrun & Hb & He & Hother).
  exists randomized. repeat (split; [assumption |]).
  assert (Hrel : relevant_tracks ≡ₚ button_tracks ++ effect_tracks)
    by (apply (bool_decide_unpack _); vm_compute; exact I).
  rewrite Hrel at 1. rewrite Hperm.
  rewrite (lookup_total_sources randomized track_data (shuffled ++ effect_tracks)
             (button_tracks ++ effect_sources swap)).
  - apply fmap_Permutation. rewrite Hrel. apply Permutation_app_head, Permutation_sym.
    apply effect_sources_perm.
  - apply Forall2_app; assumption.
Qed.

Lemma randomize_tracks_conserves_witness :
  exists randomized,
    randomize_tracks ["TRACK5"; "TRACK3"; "TRACK6"; "TRACK4"] true sample_tracks
    = Ok (randomized, ["TRACK5"; "TRACK3"; "TRACK6"; "TRACK4"] ++ effect_sources true)
    /\ receives randomized sample_tracks ["TRACK5"; "TRACK3"; "TRACK6"; "TRACK4"] button_tracks
    /\ receives randomized sample_tracks effect_tracks (effect_sources true)
    /\ (forall k, k ∉ relevant_tracks -> randomized !! k = sample_tracks !! k)
    /\ (fun k => randomized !!! k) <$> relevant_tracks
       ≡ₚ (fun k => sample_tracks !!! k) <$> relevant_tracks.
Proof.
  apply randomize_tracks_conserves.
  - apply has_tracks_playable, sample_tracks_has.
  - apply (bool_decide_unpack _). vm_compute. exact I.
Defined.

(** X13. [randomize_tracks] raises exactly when one of TRACK2 to TRACK7
    is no key of the mapping, and the exception is [KeyError]. *)
Theorem randomize_tracks_raises (shuffled : list string) (swap : bool)
    (track_data : track_map) :
  Permutation button_tracks shuffled ->
  forall e,
    randomize_tracks shuffled swap track_data = Raise e
    <-> e = KeyError
        /\ exists k, k ∈ relevant_tracks /\ track_data !! k = None.
Proof.
  intros Hperm e.
  assert (Hmiss : (exists k, k ∈ relevant_tracks /\ track_data !! k = None) ->
                  randomize_tracks shuffled swap track_data = Raise KeyError).
  { intros (k & Hk & Hnone). unfold randomize_tracks.
    rewrite fill_missing; [reflexivity |].
    apply Exists_exists. exists (k, k). split; [| exact Hnone].
    apply list_elem_of_In in Hk. vm_compute in Hk.
    repeat (destruct Hk as [<- | Hk]; [apply list_elem_of_In; vm_compute; tauto |]).
    contradiction. }
  split.
  - intros Hraise.
    destruct (decide (Forall (fun k => is_Some (track_data !! k)) relevant_tracks))
      as [Hall | Hnot].
    + rewrite Forall_forall in Hall.
      destruct (randomize_tracks_spec shuffled swap track_data Hall Hperm)
        as (randomized & Hrun & _). congruence.
    + apply not_Forall_Exists in Hnot; [| intros k; apply _].
      apply Exists_exists in Hnot. destruct Hnot as (k & Hk & Hnone).
      assert (Hex : exists k, k ∈ relevant_tracks /\ track_data !! k = None).
      { exists k. split; [exact Hk |].
        destruct (track_data !! k) as [b |] eqn:Eb; [| reflexivity].
        exfalso. apply Hnone. exists b. exact Eb. }
      rewrite (Hmiss Hex) in Hraise. injection Hraise as <-. split; [reflexivity | exact Hex].
  - intros (-> & Hex). apply Hmiss, Hex.
Qed.

Lemma randomize_tracks_raises_witness :
  randomize_tracks ["TRACK5"; "TRACK3"; "TRACK6"; "TRACK4"] false
                   (delete "TRACK4" sample_tracks) = Raise KeyError.
Proof.
  apply (proj2 (randomize_tracks_raises ["TRACK5"; "TRACK3"; "TRACK6"; "TRACK4"] false
                  (delete "TRACK4" sample_tracks)
                  ltac:(apply (bool_decide_unpack _); vm_compute; exact I) KeyError)).
  split; [reflexivity |]. exists "TRACK4". split; [| reflexivity].
  apply (bool_decide_unpack _). vm_compute. exact I.
Defined.

Lemma Forall2_agree {A B C} (f g : A -> C) (h : B -> C) l s :
  Forall2 (fun x y => f x = h y) l s -> Forall2 (fun x y => g x = h y) l s ->
  Forall (fun x => f x = g x) l.
Proof.
  induction 1 as [| x y l s Hxy _ IH]; intros Hg; [constructor |].
  apply Forall2_cons_1 in Hg. destruct Hg as [Hgy Hg].
  constructor; [congruence | apply IH, Hg].
Qed.

(** X14. Every mapping that [randomize_tracks] can return for a parsed
    chart is one of the 48 mappings of exhaustive mode: some order of
    [specific_orders] makes [main] build a mapping with the same buffers
    under all eight tracks. *)
Theorem randomize_within_exhaustive (shuffled : list string) (swap : bool)
    (track_data : track_map) :
  has_tracks track_data ->
  Permutation button_tracks shuffled ->
  exists randomized randomized_order o new_track_data,
    randomize_tracks shuffled swap track_data = Ok (randomized, randomized_order)
    /\ In o specific_orders
    /\ build_new_track_data track_data o = Ok new_track_data
    /\ forall k, k ∈ track_keys -> randomized !! k = new_track_data !! k.
Proof.
  intros Hhas Hperm.
  destruct (randomize_tracks_spec shuffled swap track_data (has_tracks_playable _ Hhas) Hperm)
    as (randomized & Hrun & Hb & He & Hother).
  destruct (Permutation_Forall2 (Permutation_sym Hperm) Hb) as (bs & Hbs & Hb').
  destruct (assignments_complete bs (effect_sources swap) Hbs (effect_sources_perm swap))
    as (o & Ho & Hlook).
  assert (Hlen : length bs = 4%nat) by (rewrite <- Hbs; reflexivity).
  destruct bs as [| s3 [| s4 [| s5 [| s6 [| ? ?]]]]]; try discriminate. clear Hlen.
  assert (Hsrc : exists s2 s7, effect_sources swap = [s2; s7])
    by (destruct swap; eexists _, _; reflexivity).
  destruct Hsrc as (s2 & s7 & Heq). rewrite Heq in *.
  assert (Hs : Forall (fun s => is_Some (track_data !! s)) [s3; s4; s5; s6; s2; s7]).
  { change [s3; s4; s5; s6; s2; s7] with ([s3; s4; s5; s6] ++ [s2; s7]).
    apply Forall_app. split.
    - rewrite <- Hbs. apply Forall_forall. intros k Hk.
      apply Hhas, relevant_in_keys, relevant_split. left. exact Hk.
    - rewrite <- Heq, <- (effect_sources_perm swap). apply Forall_forall. intros k Hk.
      apply Hhas, relevant_in_keys, relevant_split. right. exact Hk. }
  destruct (fill_from_sources track_data s3 s4 s5 s6 s2 s7 Hhas Hs)
    as (ntd & Hfill & H1 & H8 & Hall).
  exists randomized, (shuffled ++ [s2; s7]), o, ntd.
  split; [exact Hrun |]. split; [exact Ho |].
  split; [unfold build_new_track_data; rewrite Hlook; exact Hfill |].
  assert (Hagree : Forall (fun k => randomized !! k = ntd !! k) physical).
  { apply (Forall2_agree _ _ (fun s => track_data !! s) physical [s3; s4; s5; s6; s2; s7]);
      [| exact Hall].
    change physical with (button_tracks ++ effect_tracks).
    change [s3; s4; s5; s6; s2; s7] with ([s3; s4; s5; s6] ++ [s2; s7]).
    apply Forall2_app; assumption. }
  intros k Hk. destruct (track_key_kind k Hk) as [Hrel | [-> | ->]].
  - rewrite Forall_forall in Hagree. apply Hagree.
    assert (Hp : physical ≡ₚ relevant_tracks)
      by (apply (bool_decide_unpack _); vm_compute; exact I).
    rewrite Hp. exact Hrel.
  - rewrite H1. apply Hother. apply (bool_decide_unpack _). vm_compute. exact I.
  - rewrite H8. apply Hother. apply (bool_decide_unpack _). vm_compute. exact I.
Qed.

Lemma randomize_within_exhaustive_witness :
  exists randomized randomized_order o new_track_data,
    randomize_tracks ["TRACK5"; "TRACK3"; "TRACK6"; "TRACK4"] true sample_tracks
    = Ok (randomized, randomized_order)
    /\ In o specific_orders
    /\ build_new_track_data sample_tracks o = Ok new_track_data
    /\ forall k, k ∈ track_keys -> randomized !! k = new_track_data !! k.
Proof.
  apply randomize_within_exhaustive; [exact sample_tracks_has |].
  apply (bool_decide_unpack _). vm_compute. exact I.
Defined.

(** ** What [parse_file] returns, and reading back what [write_to_file] wrote *)

Lemma lstrip_idem s : lstrip (lstrip s) = lstrip s.
Proof.
  induction s as [| c s IH]; [reflexivity |]. cbn [lstrip].
  destruct (is_space c) eqn:E; [exact IH |]. cbn [lstrip]. rewrite E. reflexivity.
Qed.

Lemma rstrip_idem s : rstrip (rstrip s) = rstrip s.
Proof.
  induction s as [| c s IH]; [reflexivity |]. cbn [rstrip].
  destruct (rstrip s) as [| d r] eqn:E.
  - destruct (is_space c) eqn:Ec; [reflexivity |]. cbn [rstrip]. rewrite Ec. reflexivity.
  - cbn [rstrip]. cbn [rstrip] in IH. rewrite IH. reflexivity.
Qed.

Lemma rstrip_lstrip s : rstrip s = s -> rstrip (lstrip s) = lstrip s.
Proof.
  induction s as [| c s IH]; [reflexivity |]. intros H. cbn [lstrip].
  destruct (is_space c) eqn:Ec; [| exact H].
  apply IH. cbn [rstrip] in H. destruct (rstrip s) as [| d r] eqn:E.
  - rewrite Ec in H. discriminate H.
  - injection H as <-. reflexivity.
Qed.

Lemma strip_idem s : strip (strip s) = strip s.
Proof.
  unfold strip. rewrite (rstrip_lstrip (rstrip s)) by apply rstrip_idem.
  apply lstrip_idem.
Qed.

Lemma all_chars_lstrip P s : all_chars P s = true -> all_chars P (lstrip s) = true.
Proof.
  induction s as [| c s IH]; [reflexivity |]. cbn [all_chars lstrip]. intros H.
  apply andb_true_iff in H. destruct H as [Hc Hs].
  destruct (is_space c); [apply IH, Hs |]. cbn [all_chars]. rewrite Hc, Hs. reflexivity.
Qed.

Lemma all_chars_rstrip P s : all_chars P s = true -> all_chars P (rstrip s) = true.
Proof.
  induction s as [| c s IH]; [reflexivity |]. cbn [all_chars rstrip]. intros H.
  apply andb_true_iff in H. destruct H as [Hc Hs]. specialize (IH Hs).
  destruct (rstrip s) as [| d r].
  - destruct (is_space c); [reflexivity |]. cbn [all_chars]. rewrite Hc. reflexivity.
  - cbn [all_chars] in *. rewrite Hc, IH. reflexivity.
Qed.

(** The lines of a text: no newline but at the end. *)
Lemma readlines_shape P text :
  all_chars P text = true ->
  Forall (fun raw => exists l, all_chars (is_not newline) l = true
                               /\ all_chars P l = true
                               /\ (raw = l +:+ nl \/ raw = l))
         (readlines text).
Proof.
  induction text as [| c r IH]; [constructor |]. cbn [all_chars readlines]. intros H.
  apply andb_true_iff in H. destruct H as [HP Hr]. specialize (IH Hr).
  destruct (Ascii.eqb c newline) eqn:Ec.
  - constructor; [| exact IH]. exists "". repeat split. left. reflexivity.
  - assert (Hc : is_not newline c = true) by (unfold is_not; rewrite Ec; reflexivity).
    destruct (readlines r) as [| l ls].
    + constructor; [| constructor]. exists (String c "").
      cbn [all_chars]. rewrite Hc, HP. repeat split. right. reflexivity.
    + apply Forall_cons in IH. destruct IH as [(l0 & Hl0 & HPl0 & Hraw) Hls].
      constructor; [| exact Hls]. exists (String c l0).
      cbn [all_chars]. rewrite Hc, Hl0, HP, HPl0. repeat split.
      destruct Hraw as [-> | ->]; [left | right]; reflexivity.
Qed.

Lemma unbroken_spec l :
  all_chars (is_not newline) l = true -> all_chars (is_not carriage_return) l = true ->
  unbroken l.
Proof.
  unfold unbroken. induction l as [| c l IH]; [reflexivity |]. cbn [all_chars].
  intros H1 H2. apply andb_true_iff in H1, H2. destruct H1 as [Hn H1], H2 as [Hc H2].
  rewrite (IH H1 H2), andb_true_r. unfold is_break, is_not in *.
  apply negb_true_iff in Hn, Hc. rewrite Hn, Hc. reflexivity.
Qed.

Lemma unbroken_newline l : unbroken l -> all_chars (is_not newline) l = true.
Proof.
  unfold unbroken. apply all_chars_impl. intros c H. unfold is_break, is_not in *.
  destruct (Ascii.eqb c newline); [discriminate H | reflexivity].
Qed.

Lemma stripped_one_line text :
  all_chars (is_not carriage_return) text = true -> Forall one_line (strip <$> readlines text).
Proof.
  intros Hcr. apply Forall_fmap. eapply Forall_impl; [apply readlines_shape, Hcr |].
  intros raw (l & Hl & Hc & Hraw). split; [apply strip_idem |].
  assert (E : strip raw = strip l) by (destruct Hraw as [-> | ->]; [apply strip_nl | reflexivity]).
  cbn. rewrite E. unfold strip.
  apply unbroken_spec; apply all_chars_lstrip, all_chars_rstrip; assumption.
Qed.

Lemma readlines_line l rest :
  all_chars (is_not newline) l = true -> readlines ((l +:+ nl) +:+ rest) = (l +:+ nl) :: readlines rest.
Proof.
  induction l as [| c l IH].
  - intros _. reflexivity.
  - cbn [all_chars]. intros H. apply andb_true_iff in H. destruct H as [Hc Hl].
    unfold is_not in Hc. apply negb_true_iff in Hc.
    rewrite !append_cons. cbn [readlines]. rewrite Hc, (IH Hl). reflexivity.
Qed.

Lemma readlines_file_text ls :
  Forall one_line ls -> readlines (file_text ls) = (fun l => l +:+ nl) <$> ls.
Proof.
  unfold file_text. induction 1 as [| l ls [_ Hl] _ IH]; [reflexivity |].
  rewrite !fmap_cons. cbn [join fold_right]. fold (join ((fun l => l +:+ nl) <$> ls)).
  rewrite readlines_line by apply unbroken_newline, Hl. rewrite IH. reflexivity.
Qed.

Lemma strip_written ls :
  Forall one_line ls -> strip <$> ((fun l => l +:+ nl) <$> ls) = ls.
Proof.
  induction 1 as [| l ls [Hl _] _ IH]; [reflexivity |].
  rewrite !fmap_cons, IH, strip_nl, Hl. reflexivity.
Qed.

Lemma collect_app_content track cur body rest :
  Forall content body ->
  collect track cur (body ++ rest)
  = (if bool_decide (cur = Some track) then body else []) ++ collect track cur rest.
Proof.
  induction 1 as [| line body [Hh He] _ IH]; [destruct (bool_decide _); reflexivity |].
  cbn [app]. rewrite (collect_line _ _ _ _ Hh He), IH.
  destruct (bool_decide (cur = Some track)); reflexivity.
Qed.

Lemma gathered_cons track (track_data : track_map) line rest :
  gathered track track_data (line :: rest)
  = match is_track_header line with
    | Ok true => (if bool_decide (after_first line = track)
                  then track_data !!! after_first line else [])
                 ++ gathered track track_data rest
    | _ => gathered track track_data rest
    end.
Proof.
  unfold gathered. rewrite header_keys_cons.
  destruct (is_track_header line) as [[|] | e]; reflexivity.
Qed.

Lemma collect_written (track_data : track_map) lines track :
  has_tracks track_data ->
  (forall k b, track_data !! k = Some b -> Forall content b) ->
  Forall track_line_ok lines ->
  forall in_track_section cur,
    (in_track_section = false -> cur = None) ->
    collect track cur (write_loop track_data in_track_section lines).1
    = gathered track track_data lines.
Proof.
  intros Hhas Hcontent. induction 1 as [| line rest Hline _ IH]; intros in_sec cur Hcur;
    [reflexivity |].
  cbn [write_loop]. rewrite gathered_cons.
  destruct (header_cases _ Hline) as [Eh | [Eh Hkey]]; rewrite Eh.
  - destruct (startswith line "#END") eqn:Ee.
    + destruct in_sec; cbn [andb negb]; unfold emit; cbn [fst snd app];
        rewrite (collect_end _ _ _ _ Eh Ee); apply IH; reflexivity.
    + cbn [andb]. destruct in_sec; cbn [negb]; [apply IH; discriminate |].
      unfold emit. cbn [fst snd app]. rewrite (collect_line _ _ _ _ Eh Ee).
      rewrite (Hcur eq_refl), bool_decide_eq_false_2 by discriminate.
      apply IH. reflexivity.
  - destruct (Hhas _ Hkey) as [buffer Hb]. rewrite Hb. unfold emit. cbn [fst snd app].
    rewrite (collect_header _ _ _ _ Eh), collect_app_content by eauto.
    rewrite (lookup_total_correct _ _ _ Hb).
    rewrite (IH true (Some (after_first line))) by discriminate. f_equal.
    destruct (decide (after_first line = track)) as [E | Hne].
    + rewrite !bool_decide_eq_true_2 by congruence. reflexivity.
    + rewrite !bool_decide_eq_false_2 by congruence. reflexivity.
Qed.

Lemma gathered_once track (track_data : track_map) lines :
  NoDup (header_keys lines) ->
  gathered track track_data lines
  = if bool_decide (track ∈ header_keys lines) then track_data !!! track else [].
Proof.
  unfold gathered. induction 1 as [| key keys Hfresh _ IH]; [reflexivity |].
  rewrite bind_cons, IH. destruct (decide (key = track)) as [-> | Hne].
  - rewrite bool_decide_eq_true_2 by reflexivity.
    rewrite (bool_decide_eq_false_2 _ Hfresh), app_nil_r.
    rewrite bool_decide_eq_true_2 by left. reflexivity.
  - rewrite (bool_decide_eq_false_2 _ Hne). cbn [app].
    rewrite (bool_decide_ext (track ∈ key :: keys) (track ∈ keys)); [reflexivity |].
    rewrite elem_of_cons. intuition congruence.
Qed.

Lemma write_loop_lines (P : string -> Prop) (track_data : track_map) lines :
  (forall k b, track_data !! k = Some b -> Forall P b) ->
  Forall P lines ->
  forall in_track_section, Forall P (write_loop track_data in_track_section lines).1.
Proof.
  intros Htd. induction 1 as [| line rest Hline _ IH]; intros in_sec; [constructor |].
  cbn [write_loop]. destruct (is_track_header line) as [[|] | e]; [| | constructor].
  - destruct (track_data !! after_first line) as [buffer |] eqn:Hb;
      [| repeat constructor; exact Hline].
    unfold emit. cbn [fst]. constructor; [exact Hline |].
    apply Forall_app. split; [eapply Htd, Hb | apply IH].
  - destruct (startswith line "#END" && in_sec);
      [unfold emit; cbn [fst app]; constructor; [exact Hline | apply IH] |].
    destruct (negb in_sec); [| apply IH].
    unfold emit. cbn [fst app]. constructor; [exact Hline | apply IH].
Qed.

Lemma content_track_line_ok line : content line -> track_line_ok line.
Proof.
  intros [Hh _] Hs. left. unfold is_track_header in Hh. rewrite Hs in Hh.
  destruct (String.get 6 line) as [c |] eqn:G; [| discriminate Hh].
  split; [apply get_Some_length in G; lia |].
  intros c' [= <-]. injection Hh as Hh. eapply bool_decide_eq_false_1. exact Hh.
Qed.

Lemma empty_tracks_keys k : is_Some (empty_tracks !! k) <-> k ∈ track_keys.
Proof.
  split; [| apply empty_tracks_has].
  intros [b Hb]. unfold empty_tracks in Hb. apply elem_of_list_to_map_2 in Hb.
  apply list_elem_of_fmap in Hb. destruct Hb as (num & [= -> _] & Hnum).
  unfold track_keys. apply list_elem_of_fmap. exists num. split; [reflexivity | exact Hnum].
Qed.

Lemma parse_file_buffers text tracks :
  parse_file (Some text) = Ok (Some tracks) ->
  forall k,
    tracks !! k
    = if bool_decide (k ∈ track_keys)
      then Some (collect k None (strip <$> readlines text)) else None.
Proof.
  unfold parse_file. intros H k.
  destruct (parse_file_loop empty_tracks None (readlines text)) as [t | e] eqn:E;
    [| discriminate H].
  injection H as <-. rewrite (parse_collect _ _ _ _ E).
  destruct (decide (k ∈ track_keys)) as [Hk | Hk].
  - rewrite bool_decide_eq_true_2 by exact Hk.
    destruct (empty_tracks_has k Hk) as [b0 E0]. rewrite E0.
    apply empty_tracks_buffer in E0. subst b0. reflexivity.
  - rewrite bool_decide_eq_false_2 by exact Hk.
    destruct (empty_tracks !! k) as [b0 |] eqn:E0; [| reflexivity].
    exfalso. apply Hk, empty_tracks_keys. eauto.
Qed.

Lemma collect_sublist track cur lines : collect track cur lines `sublist_of` lines.
Proof.
  revert cur. induction lines as [| line rest IH]; intros cur; [constructor |].
  cbn [collect]. destruct (is_track_header line) as [[|] | e];
    [apply sublist_cons, IH | | apply sublist_nil_l].
  destruct (startswith line "#END"); [apply sublist_cons, IH |].
  destruct (bool_decide (cur = Some track)); [apply sublist_skip | apply sublist_cons]; apply IH.
Qed.

Lemma write_then_parse (track_data : track_map) (full_content : list string) :
  has_tracks track_data ->
  (forall k b, track_data !! k = Some b -> Forall content b /\ Forall one_line b) ->
  Forall track_line_ok full_content -> Forall one_line full_content ->
  exists text tracks,
    write_to_file track_data full_content = (text, None)
    /\ parse_file (Some text) = Ok (Some tracks)
    /\ forall track, track ∈ track_keys ->
         tracks !! track = Some (gathered track track_data full_content).
Proof.
  intros Hhas Hbuf Hok Hone.
  set (out := (write_loop track_data false full_content).1).
  assert (Hout1 : Forall one_line out).
  { apply write_loop_lines; [intros k b Hk; apply (proj2 (Hbuf k b Hk)) | exact Hone]. }
  assert (Hout2 : Forall track_line_ok out).
  { apply write_loop_lines; [| exact Hok]. intros k b Hk.
    eapply Forall_impl; [apply (proj1 (Hbuf k b Hk)) | apply content_track_line_ok]. }
  assert (Hread : strip <$> readlines (file_text out) = out).
  { rewrite readlines_file_text by exact Hout1. apply strip_written, Hout1. }
  assert (Hraw : Forall track_line_ok (strip <$> readlines (file_text out)))
    by (rewrite Hread; exact Hout2).
  destruct (parse_file_loop_safe (readlines (file_text out)))
    with (tracks := empty_tracks) (current_track := @None string) as [tracks Htracks];
    [apply (proj1 (Forall_fmap _ _ _) Hraw) | apply empty_tracks_has | discriminate |].
  assert (Hparse : parse_file (Some (file_text out)) = Ok (Some tracks)).
  { unfold parse_file. rewrite Htracks. reflexivity. }
  exists (file_text out), tracks. split.
  { unfold write_to_file. fold out. rewrite (write_loop_safe _ _ Hhas Hok). reflexivity. }
  split; [exact Hparse |].
  intros track Htrack. rewrite (parse_file_buffers _ _ Hparse).
  rewrite bool_decide_eq_true_2 by exact Htrack. rewrite Hread. f_equal.
  apply collect_written; [exact Hhas | intros k b Hk; apply (proj1 (Hbuf k b Hk)) | exact Hok |].
  reflexivity.
Qed.

(** X15. What [parse_file] returns for a file it reads without error: a
    mapping whose keys are exactly TRACK1 to TRACK8; every buffer is made
    of stripped lines of the file, in file order, none of which is a
    section header or starts with ["#END"]; and a track whose header does
    not occur in the file has the empty buffer. *)
Theorem parse_file_sections (text : string) (tracks : track_map) :
  parse_file (Some text) = Ok (Some tracks) ->
  (forall k, is_Some (tracks !! k) <-> k ∈ track_keys)
  /\ (forall k b, tracks !! k = Some b ->
        Forall content b /\ b `sublist_of` (strip <$> readlines text))
  /\ (forall k, k ∈ track_keys -> k ∉ header_keys (strip <$> readlines text) ->
        tracks !! k = Some []).
Proof.
  intros H. pose proof (parse_file_buffers _ _ H) as Hlook. split; [| split].
  - intros k. rewrite Hlook. destruct (decide (k ∈ track_keys)) as [Hk | Hk].
    + rewrite bool_decide_eq_true_2 by exact Hk. split; [intros _; exact Hk | eauto].
    + rewrite bool_decide_eq_false_2 by exact Hk. split; [intros [? ?]; discriminate | tauto].
  - intros k b Hb. rewrite Hlook in Hb.
    destruct (bool_decide (k ∈ track_keys)); [| discriminate Hb]. injection Hb as <-.
    split; [apply collect_content | apply collect_sublist].
  - intros k Hk Hno. rewrite Hlook, bool_decide_eq_true_2 by exact Hk. f_equal.
    apply collect_absent; [exact Hno | discriminate].
Qed.

Lemma parse_file_sections_witness :
  exists tracks,
    parse_file (Some sample_chart) = Ok (Some tracks)
    /\ (forall k, is_Some (tracks !! k) <-> k ∈ track_keys)
    /\ (forall k b, tracks !! k = Some b ->
          Forall content b /\ b `sublist_of` (strip <$> readlines sample_chart))
    /\ (forall k, k ∈ track_keys -> k ∉ header_keys (strip <$> readlines sample_chart) ->
          tracks !! k = Some []).
Proof.
  destruct (parse_file (Some sample_chart)) as [[tracks |] | e] eqn:E;
    [| vm_compute in E; discriminate E ..].
  exists tracks. split; [reflexivity |]. exact (parse_file_sections sample_chart tracks E).
Defined.

(** X16. [parse_file] reads back what [write_to_file] wrote. For a
    mapping with the eight keys whose buffer lines can stand inside a
    section, and a skeleton whose ["#TRACK"] lines are well formed, all
    lines being stripped and without a line break inside: the writer ends
    without exception, the file parses, and every track holds the buffers
    that were written after its headers; when no header occurs twice, a
    track with a header holds its buffer of the mapping and a track
    without one is empty. *)
Theorem written_chart_parses_back (track_data : track_map) (full_content : list string) :
  has_tracks track_data ->
  (forall k b, track_data !! k = Some b -> Forall content b /\ Forall one_line b) ->
  Forall track_line_ok full_content -> Forall one_line full_content ->
  exists text tracks,
    write_to_file track_data full_content = (text, None)
    /\ parse_file (Some text) = Ok (Some tracks)
    /\ (forall track, track ∈ track_keys ->
          tracks !! track = Some (gathered track track_data full_content))
    /\ (NoDup (header_keys full_content) ->
        forall track, track ∈ track_keys ->
          tracks !! track
          = if bool_decide (track ∈ header_keys full_content)
            then track_data !! track else Some []).
Proof.
  intros Hhas Hbuf Hok Hone.
  destruct (write_then_parse track_data full_content Hhas Hbuf Hok Hone)
    as (text & tracks & Hw & Hp & Hg).
  exists text, tracks. repeat split; try assumption.
  intros Hnodup track Htrack. rewrite (Hg track Htrack), gathered_once by exact Hnodup.
  destruct (bool_decide (track ∈ header_keys full_content)); [| reflexivity].
  destruct (Hhas track Htrack) as [b Hb]. rewrite Hb, (lookup_total_correct _ _ _ Hb).
  reflexivity.
Qed.

Lemma sample_tracks_lines k b :
  sample_tracks !! k = Some b -> Forall content b /\ Forall one_line b.
Proof.
  intros H. unfold sample_tracks in H. apply elem_of_list_to_map_2 in H.
  apply list_elem_of_In in H. cbn [In] in H.
  repeat (destruct H as [[= <- <-] | H];
          [split; repeat constructor |]).
  contradiction.
Qed.

Lemma written_chart_parses_back_witness :
  exists text tracks,
    write_to_file sample_tracks ["#TRACK3"; "x"; "#END"; "y"; "#TRACK7"; "#END"] = (text, None)
    /\ parse_file (Some text) = Ok (Some tracks)
    /\ (forall track, track ∈ track_keys ->
          tracks !! track
          = Some (gathered track sample_tracks
                           ["#TRACK3"; "x"; "#END"; "y"; "#TRACK7"; "#END"]))
    /\ (NoDup (header_keys ["#TRACK3"; "x"; "#END"; "y"; "#TRACK7"; "#END"]) ->
        forall track, track ∈ track_keys ->
          tracks !! track
          = if bool_decide (track ∈ header_keys ["#TRACK3"; "x"; "#END"; "y"; "#TRACK7"; "#END"])
            then sample_tracks !! track else Some []).
Proof.
  apply (written_chart_parses_back sample_tracks).
  - exact sample_tracks_has.
  - exact sample_tracks_lines.
  - repeat (apply Forall_cons; split;
            [intros H; first [discriminate H
                             | right; apply (bool_decide_unpack _); vm_compute; exact I] |]).
    constructor.
  - repeat constructor.
Defined.

(** X17. Every variant that exhaustive mode writes is a chart that
    [parse_file] reads, and it holds the permuted lanes: for a file
    without carriage returns, with well-formed ["#TRACK"] lines and no
    section opened twice, and for each of the lane orders, parsing the
    written text gives, under every track with a section in the file, the
    buffer of [new_track_data]; a track without a section is empty,
    whatever buffer the order assigned to it. *)
Theorem variants_parse_back (text : string) :
  all_chars (is_not carriage_return) text = true ->
  Forall track_line_ok (strip <$> readlines text) ->
  NoDup (header_keys (strip <$> readlines text)) ->
  exists track_data,
    parse_file (Some text) = Ok (Some track_data)
    /\ forall order, In order specific_orders ->
         exists new_track_data variant tracks,
           build_new_track_data track_data order = Ok new_track_data
           /\ write_to_file new_track_data (strip <$> readlines text) = (variant, None)
           /\ parse_file (Some variant) = Ok (Some tracks)
           /\ forall track, track ∈ track_keys ->
                tracks !! track
                = if bool_decide (track ∈ header_keys (strip <$> readlines text))
                  then new_track_data !! track else Some [].
Proof.
  intros Hcr Hok Hnodup.
  set (lines := strip <$> readlines text) in *.
  destruct (parse_file_loop_safe (readlines text))
    with (tracks := empty_tracks) (current_track := @None string) as [td Htd];
    [apply (proj1 (Forall_fmap _ _ _) Hok) | apply empty_tracks_has | discriminate |].
  assert (Hparse : parse_file (Some text) = Ok (Some td)).
  { unfold parse_file. rewrite Htd. reflexivity. }
  pose proof (parse_file_buffers _ _ Hparse) as Hlook.
  assert (Hhas : has_tracks td).
  { intros k Hk. rewrite Hlook, bool_decide_eq_true_2 by exact Hk. eauto. }
  assert (Hbuf : forall k b, td !! k = Some b ->
                   Forall content b /\ b `sublist_of` (strip <$> readlines text)).
  { intros k b Hb. rewrite Hlook in Hb.
    destruct (bool_decide (k ∈ track_keys)); [| discriminate Hb]. injection Hb as <-.
    split; [apply collect_content | apply collect_sublist]. }
  pose proof (stripped_one_line text Hcr) as Hone. fold lines in Hone, Hbuf.
  exists td. split; [exact Hparse |]. intros order Horder.
  destruct (new_track_data_sources td order Hhas Horder) as (ntd & sources & Hbuild & _).
  destruct (new_track_data_has td order ntd Hhas Horder Hbuild) as (Hhas' & _).
  destruct (write_then_parse ntd lines) as (variant & tracks & Hw & Hp & Hg);
    [exact Hhas' | | exact Hok | exact Hone |].
  { intros k b Hk. destruct (new_track_data_origin _ _ _ _ _ Hbuild Hk) as [k' Hk'].
    destruct (Hbuf k' b Hk') as [Hc Hsub]. split; [exact Hc |].
    rewrite Forall_forall in Hone |- *. intros l Hl. apply Hone.
    eapply sublist_submseteq, elem_of_submseteq in Hsub; [exact Hsub | exact Hl]. }
  exists ntd, variant, tracks. repeat split; try assumption.
  intros track Htrack. rewrite (Hg track Htrack), gathered_once by exact Hnodup.
  destruct (bool_decide (track ∈ header_keys lines)); [| reflexivity].
  destruct (Hhas' track Htrack) as [b Hb]. rewrite Hb, (lookup_total_correct _ _ _ Hb).
  reflexivity.
Qed.

Lemma variants_parse_back_witness :
  exists track_data,
    parse_file (Some sample_chart) = Ok (Some track_data)
    /\ forall order, In order specific_orders ->
         exists new_track_data variant tracks,
           build_new_track_data track_data order = Ok new_track_data
           /\ write_to_file new_track_data (strip <$> readlines sample_chart) = (variant, None)
           /\ parse_file (Some variant) = Ok (Some tracks)
           /\ forall track, track ∈ track_keys ->
                tracks !! track
                = if bool_decide (track ∈ header_keys (strip <$> readlines sample_chart))
                  then new_track_data !! track else Some [].
Proof.
  apply (variants_parse_back sample_chart).
  - vm_compute. reflexivity.
  - let r := eval vm_compute in (strip <$> readlines sample_chart) in
    change (strip <$> readlines sample_chart) with r.
    repeat (apply Forall_cons; split;
            [intros H; first [discriminate H
                             | right; apply (bool_decide_unpack _); vm_compute; exact I] |]).
    constructor.
  - apply (bool_decide_unpack _). vm_compute. exact I.
Defined.

(** ** How [main] ends once the chart is analysed *)

Lemma classifier_playable (track_data : track_map) structured_notes :
  has_tracks track_data -> parse_notes_in_tracks track_data = Ok structured_notes ->
  has_playable structured_notes.
Proof.
  intros Hhas Hparse track Hin. pose proof (parse_notes_in_tracks_spec track_data) as H.
  rewrite Hparse in H. destruct H as [Hlook _].
  rewrite Hlook, (relevant_playable _ Hin).
  destruct (Hhas track (relevant_in_keys _ Hin)) as [b ->]. eauto.
Qed.

Lemma analyse_analysed text track_data :
  analyse text = Ok (Some track_data) <-> analysed text track_data.
Proof.
  unfold analyse, analysed, parse_file. split.
  - intros H. apply bind_Ok in H. destruct H as (beat_info & Hb & H).
    apply bind_Ok in H. destruct H as ([p |] & Hp & H); [| discriminate H].
    apply bind_Ok in H. destruct H as (timestamps & Ht & H).
    apply bind_Ok in H. destruct H as (td & Htd & H).
    apply bind_Ok in H. destruct H as (sn & Hsn & H).
    apply bind_Ok in H. destruct H as (sc & _ & H).
    apply bind_Ok in H. destruct H as (sh & _ & H).
    injection H as <-. exists beat_info, p, timestamps, sn. rewrite Htd. auto.
  - intros (beat_info & p & timestamps & sn & Hb & Hp & Ht & Htd & Hsn).
    destruct (parse_file_loop empty_tracks None (readlines text)) as [td | e] eqn:E;
      [| discriminate Htd].
    injection Htd as ->. rewrite Hb, Hp. cbn [mbind outcome_bind]. rewrite Ht.
    cbn [mbind outcome_bind]. rewrite Hsn. cbn [mbind outcome_bind].
    assert (Hhas : has_tracks track_data).
    { intros k Hk. eapply parse_file_loop_keeps; [exact E | apply empty_tracks_has, Hk]. }
    pose proof (classifier_playable _ _ Hhas Hsn) as Hplay.
    destruct (counted chip sn Hplay) as (dc & Hc & _).
    destruct (counted hold sn Hplay) as (dh & Hh & _).
    unfold identify_chip_timestamps, identify_hold_timestamps. rewrite Hc, Hh. reflexivity.
Qed.

Lemma fill_keys (source : track_map) pairs :
  forall target target' k,
    fill source target pairs = Ok target' ->
    is_Some (target' !! k) -> is_Some (target !! k) \/ k ∈ pairs.*2.
Proof.
  induction pairs as [| [o new_key] rest IH]; intros target target' k H Hk.
  - injection H as <-. left. exact Hk.
  - cbn [fill] in H. apply bind_Ok in H. destruct H as (b & _ & H).
    rewrite fmap_cons. cbn [snd].
    destruct (IH _ _ _ H Hk) as [Hin | Hin]; [| right; right; exact Hin].
    destruct (decide (new_key = k)) as [-> | Hne]; [right; left |].
    rewrite lookup_insert_ne in Hin by exact Hne. left. exact Hin.
Qed.

Lemma new_track_data_keys (track_data : track_map) order new_track_data k :
  build_new_track_data track_data order = Ok new_track_data ->
  is_Some (new_track_data !! k) -> k ∈ track_keys.
Proof.
  unfold build_new_track_data. intros H Hk.
  apply bind_Ok in H. destruct H as (sources & _ & H).
  destruct (fill_keys _ _ _ _ _ H Hk) as [[b Hb] | Hin].
  - rewrite lookup_empty in Hb. discriminate Hb.
  - apply list_elem_of_fmap in Hin. destruct Hin as ([o k'] & -> & Hin).
    apply elem_of_zip_r in Hin. cbn [snd]. clear Hk H.
    revert k' Hin. apply Forall_forall. vm_compute. repeat constructor.
Qed.

Lemma specific_orders_first : exists rest, specific_orders = first_order :: rest.
Proof. eexists. vm_compute. reflexivity. Qed.

Lemma write_variants_finishes base (track_data : track_map) full_content orders :
  has_tracks track_data -> Forall track_line_ok full_content ->
  Forall (fun o => In o specific_orders) orders ->
  how (write_variants base track_data full_content orders) = Finished.
Proof.
  intros Hhas Hok. induction 1 as [| o os Ho _ IH]; [reflexivity |].
  cbn [write_variants].
  destruct (new_track_data_sources track_data o Hhas Ho) as (ntd & sources & Hbuild & _).
  destruct (new_track_data_has track_data o ntd Hhas Ho Hbuild) as (Hhas' & _).
  rewrite Hbuild. unfold write_to_file.
  rewrite (write_loop_safe ntd full_content Hhas' Hok). exact IH.
Qed.

Lemma parse_file_loop_headers raws :
  forall tracks cur tracks',
    parse_file_loop tracks cur raws = Ok tracks' ->
    Forall (fun line => is_track_header line <> Raise IndexError) (strip <$> raws).
Proof.
  induction raws as [| raw rest IH]; intros tracks cur tracks' H; [constructor |].
  rewrite fmap_cons. cbn [parse_file_loop] in H.
  destruct (is_track_header (strip raw)) as [[|] | e] eqn:Eh; [| | discriminate H].
  - constructor; [rewrite Eh; discriminate | eapply IH, H].
  - constructor; [rewrite Eh; discriminate |].
    destruct (startswith (strip raw) "#END"); [eapply IH, H |].
    destruct cur as [track |]; [| eapply IH, H].
    apply bind_Ok in H. destruct H as (b & _ & H). eapply IH, H.
Qed.

Lemma write_loop_KeyError (track_data : track_map) lines :
  Forall (fun line => is_track_header line <> Raise IndexError) lines ->
  forall in_track_section e,
    (write_loop track_data in_track_section lines).2 = Some e -> e = KeyError.
Proof.
  induction 1 as [| line rest Hline _ IH]; intros in_sec e H; [discriminate H |].
  cbn [write_loop] in H. destruct (is_track_header line) as [[|] | e'] eqn:Eh.
  - clear Hline. destruct (track_data !! after_first line); [eapply IH, H |].
    cbn [snd] in H. congruence.
  - destruct (startswith line "#END" && in_sec); [eapply IH, H |].
    destruct (negb in_sec); eapply IH, H.
  - exfalso. apply Hline. unfold is_track_header in Eh.
    destruct (startswith line "#TRACK"); [| discriminate Eh].
    destruct (String.get 6 line); [discriminate Eh | congruence].
Qed.

(** X18. [main] runs to its end exactly when every step before the
    loop over the lane orders returns and every stripped line of the file
    that starts with ["#TRACK"] is well formed: once the chart is
    analysed, only a malformed header line can make a write fail. *)
Theorem main_finishes (s_random : bool) (base text : string) :
  how (main s_random base (Some text)) = Finished
  <-> (exists track_data, analysed text track_data)
      /\ Forall track_line_ok (strip <$> readlines text).
Proof.
  unfold main. split.
  - destruct (analyse text) as [[track_data |] | e] eqn:E; cbn [how]; try discriminate.
    pose proof (analyse_has_tracks text track_data E) as Hhas.
    rewrite bool_decide_eq_false_2 by (apply has_tracks_nonempty, Hhas).
    destruct specific_orders_first as [rest ->]. cbn [write_variants].
    destruct (build_new_track_data track_data first_order) as [ntd | e] eqn:Eb; cbn [how];
      [| discriminate].
    unfold write_to_file.
    destruct (write_loop ntd false (strip <$> readlines text)) as [out [e |]] eqn:Ew;
      cbn [fst snd how]; [discriminate |].
    intros _. split; [exists track_data; apply analyse_analysed, E |].
    apply (write_loop_needs ntd) with (in_track_section := false);
      [intros k; apply (new_track_data_keys _ _ _ _ Eb) | rewrite Ew; reflexivity].
  - intros [[track_data Ha] Hok]. apply analyse_analysed in Ha. rewrite Ha.
    pose proof (analyse_has_tracks text track_data Ha) as Hhas.
    rewrite bool_decide_eq_false_2 by (apply has_tracks_nonempty, Hhas).
    apply write_variants_finishes; [exact Hhas | exact Hok |].
    apply Forall_forall. intros o Ho. apply list_elem_of_In, Ho.
Qed.

Lemma write_loop_stops (track_data : track_map) lines :
  Forall (fun line => is_track_header line <> Raise IndexError) lines ->
  forall in_track_section e,
    (write_loop track_data in_track_section lines).2 = Some e ->
    exists written line,
      (write_loop track_data in_track_section lines).1 = written ++ [line]
      /\ line ∈ lines /\ is_track_header line = Ok true
      /\ track_data !! after_first line = None.
Proof.
  induction 1 as [| line rest Hline _ IH]; intros in_sec e H; [discriminate H |].
  assert (Hstep : forall ls s,
             (write_loop track_data s rest).2 = Some e ->
             exists written l,
               ls ++ (write_loop track_data s rest).1 = written ++ [l]
               /\ l ∈ line :: rest /\ is_track_header l = Ok true
               /\ track_data !! after_first l = None).
  { intros ls s Hs. destruct (IH s e Hs) as (written & l & -> & Hin & Hh & Hnone).
    exists (ls ++ written), l. rewrite app_assoc. repeat split; try assumption.
    right. exact Hin. }
  cbn [write_loop] in H |- *. destruct (is_track_header line) as [[|] | e'] eqn:Eh.
  - clear Hline. destruct (track_data !! after_first line) as [b |] eqn:Hb.
    + apply (Hstep (line :: b) true), H.
    + exists [], line. repeat split; try assumption. left.
  - destruct (startswith line "#END" && in_sec); [apply (Hstep [line] false), H |].
    destruct (negb in_sec); [apply (Hstep [line] in_sec), H |].
    apply (Hstep [] in_sec), H.
  - exfalso. apply Hline. unfold is_track_header in Eh.
    destruct (startswith line "#TRACK"); [| discriminate Eh].
    destruct (String.get 6 line); [discriminate Eh | congruence].
Qed.

(** X19. When the analysis of the chart returns but some stripped line
    that starts with ["#TRACK"] is not well formed, [main] ends with
    [KeyError] in the first call of [write_to_file]: it leaves exactly one
    file, that of the order abcdLR, and this file ends with a header line
    of the input whose key is none of TRACK1 to TRACK8. *)
Theorem main_crashes_in_writing (s_random : bool) (base text : string)
    (track_data : track_map) :
  analysed text track_data ->
  ~ Forall track_line_ok (strip <$> readlines text) ->
  exists written line,
    main s_random base (Some text)
    = Run [(new_file_name base first_order, file_text (written ++ [line]))]
          (Crashed KeyError)
    /\ line ∈ strip <$> readlines text
    /\ is_track_header line = Ok true
    /\ after_first line ∉ track_keys.
Proof.
  intros Ha Hbad. apply analyse_analysed in Ha. unfold main. rewrite Ha.
  pose proof (analyse_has_tracks text track_data Ha) as Hhas.
  rewrite bool_decide_eq_false_2 by (apply has_tracks_nonempty, Hhas).
  destruct specific_orders_first as [rest Hfirst].
  assert (Hin : In first_order specific_orders) by (rewrite Hfirst; left; reflexivity).
  rewrite Hfirst. cbn [write_variants].
  destruct (new_track_data_sources track_data first_order Hhas Hin)
    as (ntd & sources & Hbuild & _).
  destruct (new_track_data_has track_data first_order ntd Hhas Hin Hbuild) as (Hhas' & _).
  rewrite Hbuild. unfold write_to_file.
  assert (Hheaders : Forall (fun line => is_track_header line <> Raise IndexError)
                            (strip <$> readlines text))
    by (eapply parse_file_loop_headers, analyse_tracks, Ha).
  destruct (write_loop ntd false (strip <$> readlines text)) as [out [e |]] eqn:Ew;
    cbn [fst snd].
  - assert (e = KeyError) as ->
      by (eapply (write_loop_KeyError ntd); [exact Hheaders | rewrite Ew; reflexivity]).
    destruct (write_loop_stops ntd _ Hheaders false KeyError)
      as (written & line & Hout & Hline & Hh & Hnone); [rewrite Ew; reflexivity |].
    rewrite Ew in Hout. cbn [fst] in Hout. subst out.
    exists written, line. repeat split; try assumption.
    intros Hkey. destruct (Hhas' _ Hkey) as [b Hb]. congruence.
  - exfalso. apply Hbad.
    apply (write_loop_needs ntd) with (in_track_section := false);
      [intros k; apply (new_track_data_keys _ _ _ _ Hbuild) | rewrite Ew; reflexivity].
Qed.

Lemma main_crashes_in_writing_witness :
  exists written line,
    main false "chart" (Some stray_header_chart)
    = Run [(new_file_name "chart" first_order, file_text (written ++ [line]))]
          (Crashed KeyError)
    /\ line ∈ strip <$> readlines stray_header_chart
    /\ is_track_header line = Ok true
    /\ after_first line ∉ track_keys.
Proof.
  destruct (analyse stray_header_chart) as [[track_data |] | e] eqn:E;
    [| vm_compute in E; discriminate E ..].
  apply (main_crashes_in_writing false "chart" stray_header_chart track_data).
  - apply analyse_analysed, E.
  - intros H. rewrite Forall_forall in H.
    destruct (H "#TRACK21") as [[_ Hc] | Hin].
    + apply (bool_decide_unpack _). vm_compute. exact I.
    + reflexivity.
    + apply (Hc "2"%char); [reflexivity | apply (bool_decide_unpack _); vm_compute; exact I].
    + revert Hin. apply (bool_decide_unpack _). vm_compute. exact I.
Defined.

Example stray_header_run :
  main false "chart" (Some stray_header_chart)
  = Run [("chart_ran_abcdLR.vox",
          file_text ["#BEAT INFO"; "001,01,00" +:+ String tab "4" +:+ String tab "48"; "#END";
                     "#END POSITION"; "001,01,05"; "#END"; "#TRACK21"])]
        (Crashed KeyError).
Proof. vm_compute. reflexivity. Qed.
